(** * dns-server: a shallow embedding of the cache, the local resolver,
      the upstream forwarder, the configuration loader and the request
      handler, with the properties of the specification proved (or
      refuted) against it.

    Conventions of the embedding.
    - Go [string]s are [string]s of bytes; [strings.ToLower] is modelled on
      the ASCII range (DNS names), other bytes are left alone.
    - [int], [uint16], [uint32] are [Z]; where the source relies on a
      width the bound is written out.
    - [time.Time] is a [Z] count of nanoseconds, [time.Duration] a [Z]
      of nanoseconds; [Add] is [+], [After] is [>], [Before] is [<].
    - A Go [map] is a [gmap]; a [*dns.Msg] is a location in a heap of
      messages, so that [Copy] and aliasing are visible.
    - Logging calls have no effect on the results and are left out. *)

From Stdlib Require Import ZArith Lia Ascii String List.
From stdpp Require Import base option list gmap strings.
Local Open Scope string_scope.
Local Open Scope list_scope.
Local Open Scope Z_scope.

(** ** Go's [strings] package, as far as the sources use it *)

Module GoStrings.

Definition dot : ascii := "."%char.

(** [strings.HasSuffix(s, ".")] *)
Fixpoint HasSuffixDot (s : string) : bool :=
  match s with
  | EmptyString => false
  | String c EmptyString => Ascii.eqb c dot
  | String _ t => HasSuffixDot t
  end.

(** [strings.TrimSuffix(s, ".")]: one trailing dot is dropped. *)
Fixpoint TrimSuffixDot (s : string) : string :=
  match s with
  | EmptyString => EmptyString
  | String c t =>
      match t with
      | EmptyString => if Ascii.eqb c dot then EmptyString else s
      | _ => String c (TrimSuffixDot t)
      end
  end.

Definition lower_ascii (c : ascii) : ascii :=
  let n := nat_of_ascii c in
  if (Nat.leb 65 n && Nat.leb n 90)%bool then ascii_of_nat (n + 32) else c.

(** [strings.ToLower] on ASCII. *)
Fixpoint ToLower (s : string) : string :=
  match s with
  | EmptyString => EmptyString
  | String c t => String (lower_ascii c) (ToLower t)
  end.

(** [strings.Split(s, ".")]: never empty, [Split "" = [""]]. *)
Fixpoint SplitDot (s : string) : list string :=
  match s with
  | EmptyString => [EmptyString]
  | String c t =>
      if Ascii.eqb c dot then EmptyString :: SplitDot t
      else match SplitDot t with
           | h :: r => String c h :: r
           | [] => [String c EmptyString]
           end
  end.

(** [strings.Join(parts, ".")] *)
Fixpoint JoinDot (parts : list string) : string :=
  match parts with
  | [] => EmptyString
  | [p] => p
  | p :: r => p +:+ "." +:+ JoinDot r
  end.

End GoStrings.

(** ** The part of [github.com/miekg/dns] the sources rely on *)

Module Dns.

Definition TypeA : Z := 1.
Definition TypeNS : Z := 2.
Definition TypeCNAME : Z := 5.
Definition TypeSOA : Z := 6.
Definition TypePTR : Z := 12.
Definition TypeMX : Z := 15.
Definition TypeTXT : Z := 16.
Definition TypeAAAA : Z := 28.
Definition TypeSRV : Z := 33.
Definition TypeNAPTR : Z := 35.
Definition TypeCERT : Z := 37.
Definition TypeDS : Z := 43.
Definition TypeSSHFP : Z := 44.
Definition TypeDNSKEY : Z := 48.
Definition TypeTLSA : Z := 52.
Definition TypeSMIMEA : Z := 53.
Definition TypeSVCB : Z := 64.
Definition TypeHTTPS : Z := 65.
Definition TypeURI : Z := 256.
Definition TypeCAA : Z := 257.

Definition ClassINET : Z := 1.

Definition RcodeSuccess : Z := 0.
Definition RcodeFormatError : Z := 1.
Definition RcodeServerFailure : Z := 2.
Definition RcodeNameError : Z := 3.
Definition RcodeNotImplemented : Z := 4.

Definition OpcodeQuery : Z := 0.

Record Question := mkQuestion {
  QName : string;
  Qtype : Z;
  Qclass : Z
}.

Record RR_Header := mkHdr {
  Name : string;
  Rrtype : Z;
  Class : Z;
  Ttl : Z
}.

(** [net.IP] is a slice of bytes. *)
Definition IP := list Z.

(** The payloads of the record types the local resolver builds.
    [RD_other] stands for every payload that only upstream servers
    produce. *)
Inductive RData :=
| RD_A (a : IP)
| RD_AAAA (aaaa : IP)
| RD_CNAME (target : string)
| RD_MX (preference : Z) (mx : string)
| RD_TXT (txt : list string)
| RD_HTTPS (priority : Z) (target : string)
| RD_CAA (flag : Z) (tag value : string)
| RD_SRV (priority weight port : Z) (target : string)
| RD_SVCB (priority : Z) (target : string)
| RD_DS (keytag algorithm digesttype : Z) (digest : string)
| RD_DNSKEY (flags protocol algorithm : Z) (publickey : string)
| RD_URI (priority weight : Z) (target : string)
| RD_NAPTR (order preference : Z) (flags service regexp replacement : string)
| RD_SSHFP (algorithm type : Z) (fingerprint : string)
| RD_TLSA (usage selector matchingtype : Z) (certificate : string)
| RD_SMIMEA (usage selector matchingtype : Z) (certificate : string)
| RD_CERT (type keytag algorithm : Z) (certificate : string)
| RD_other (wire : string).

Record RR := mkRR {
  Hdr : RR_Header;
  Data : RData
}.

Record Msg := mkMsg {
  Id : Z;
  Response : bool;
  Opcode : Z;
  Authoritative : bool;
  RecursionDesired : bool;
  RecursionAvailable : bool;
  CheckingDisabled : bool;
  Rcode : Z;
  Question_ : list Question;
  Answer : list RR;
  Ns : list RR;
  Extra : list RR
}.

(** [&dns.Msg{}] *)
Definition zeroMsg : Msg :=
  mkMsg 0 false 0 false false false false 0 [] [] [] [].

Definition set_Id (v : Z) (m : Msg) : Msg :=
  mkMsg v (Response m) (Opcode m) (Authoritative m) (RecursionDesired m)
        (RecursionAvailable m) (CheckingDisabled m) (Rcode m)
        (Question_ m) (Answer m) (Ns m) (Extra m).

Definition set_Authoritative (v : bool) (m : Msg) : Msg :=
  mkMsg (Id m) (Response m) (Opcode m) v (RecursionDesired m)
        (RecursionAvailable m) (CheckingDisabled m) (Rcode m)
        (Question_ m) (Answer m) (Ns m) (Extra m).

Definition set_RecursionAvailable (v : bool) (m : Msg) : Msg :=
  mkMsg (Id m) (Response m) (Opcode m) (Authoritative m) (RecursionDesired m)
        v (CheckingDisabled m) (Rcode m)
        (Question_ m) (Answer m) (Ns m) (Extra m).

Definition set_Rcode (v : Z) (m : Msg) : Msg :=
  mkMsg (Id m) (Response m) (Opcode m) (Authoritative m) (RecursionDesired m)
        (RecursionAvailable m) (CheckingDisabled m) v
        (Question_ m) (Answer m) (Ns m) (Extra m).

Definition set_Answer (v : list RR) (m : Msg) : Msg :=
  mkMsg (Id m) (Response m) (Opcode m) (Authoritative m) (RecursionDesired m)
        (RecursionAvailable m) (CheckingDisabled m) (Rcode m)
        (Question_ m) v (Ns m) (Extra m).

(** [rr.Header().Name = name] *)
Definition set_Name (name : string) (rr : RR) : RR :=
  mkRR (mkHdr name (Rrtype (Hdr rr)) (Class (Hdr rr)) (Ttl (Hdr rr))) (Data rr).

(** [Msg.SetReply] applied to a zero message: the id and opcode are
    echoed, QR is set, RD and CD are copied for a standard query, the
    rcode is NOERROR and the first question (if any) is kept. *)
Definition SetReply (request : Msg) : Msg :=
  let std := Z.eqb (Opcode request) OpcodeQuery in
  mkMsg (Id request) true (Opcode request) false
        (if std then RecursionDesired request else false)
        false
        (if std then CheckingDisabled request else false)
        RcodeSuccess
        (match Question_ request with q :: _ => [q] | [] => [] end)
        [] [] [].

End Dns.

(** ** [time] *)

Definition Millisecond : Z := 1000000.
Definition Second : Z := 1000 * Millisecond.

(** ** internal/dns/handler.go: TTL extraction *)

Module TTL.
Import Dns.

(** The loop of [extractTTL]: a running minimum over the answers. *)
Fixpoint minTTL_loop (minTTL : Z) (answer : list RR) : Z :=
  match answer with
  | [] => minTTL
  | rr :: rest =>
      minTTL_loop (if Ttl (Hdr rr) <? minTTL then Ttl (Hdr rr) else minTTL) rest
  end.

Definition extractTTL (msg : Msg) : Z :=
  match Answer msg with
  | [] => 300 * Second
  | _ =>
      let minTTL := minTTL_loop 3600 (Answer msg) in
      let minTTL := if minTTL <? 60 then 60 else minTTL in
      minTTL * Second
  end.

End TTL.

(** Go's [int] and [time.Duration] are 64-bit: arithmetic wraps. *)
Definition wrap64 (z : Z) : Z := (z + 2 ^ 63) mod 2 ^ 64 - 2 ^ 63.

(** ** internal/upstream: the retrying, multi-server forwarder *)

Module Upstream.
Import Dns.

(** The errors [Resolve] can return, one constructor per [fmt.Errorf]
    (and [ctx.Err()]); [ErrResolve] wraps its cause with [%w]. *)
Inductive error :=
| ErrCtx
| ErrExchange (server cause : string)
| ErrRcode (rcode : Z)
| ErrAllFailed
| ErrResolve (name : string) (attempts : Z) (cause : error).

(** What the network does: the outcome of the [k]-th
    [client.ExchangeContext] of the call (a response, or the text of a
    transport error), and whether the context is done at the [p]-th
    time the call looks at it. *)
Record env := mkEnv {
  exchange : nat -> string -> Msg + string;
  ctx_done : nat -> bool
}.

(** What an observer sees of one call. *)
Inductive event :=
| EvExchange (server : string)
| EvSleep (backoff : Z).

Record world := mkWorld {
  exchanges : nat;
  polls : nat;
  trace : list event
}.

Definition start : world := mkWorld 0 0 [].

Definition poll (w : world) : world :=
  mkWorld (exchanges w) (S (polls w)) (trace w).

Definition exchanged (server : string) (w : world) : world :=
  mkWorld (S (exchanges w)) (polls w) (trace w ++ [EvExchange server]).

Definition slept (backoff : Z) (w : world) : world :=
  mkWorld (exchanges w) (polls w) (trace w ++ [EvSleep backoff]).

Record UpstreamResolver := mkResolver {
  servers : list string;
  retries : Z
}.

(** [queryServer] *)
Definition queryServer (e : env) (server : string) (w : world)
  : (Msg + error) * world :=
  match exchange e (exchanges w) server with
  | inr cause => (inr (ErrExchange server cause), exchanged server w)
  | inl response => (inl response, exchanged server w)
  end.

(** How a loop body ends: with a [return], or by falling through with
    the current [lastErr]. *)
Inductive ctl :=
| Return (r : Msg + error)
| Next (lastErr : option error).

(** [for _, server := range r.servers { ... }] *)
Fixpoint servers_loop (e : env) (srvs : list string)
         (lastErr : option error) (w : world) : ctl * world :=
  match srvs with
  | [] => (Next lastErr, w)
  | server :: rest =>
      if ctx_done e (polls w) then (Return (inr ErrCtx), poll w)
      else
        match queryServer e server (poll w) with
        | (inr err, w') => servers_loop e rest (Some err) w'
        | (inl response, w') =>
            if (Rcode response =? RcodeSuccess) || (Rcode response =? RcodeNameError)
            then (Return (inl response), w')
            else servers_loop e rest (Some (ErrRcode (Rcode response))) w'
        end
  end.

(** [for attempt := 0; attempt <= r.retries; attempt++ { ... }], with
    [n] the number of rounds still to run: [retries + 1] at the start,
    none for a negative [retries]. *)
Fixpoint attempts_loop (e : env) (r : UpstreamResolver) (n : nat)
         (attempt : Z) (lastErr : option error) (w : world) : ctl * world :=
  match n with
  | O => (Next lastErr, w)
  | S n' =>
      match servers_loop e (servers r) lastErr w with
      | (Return res, w') => (Return res, w')
      | (Next lastErr', w') =>
          if attempt <? retries r then
            let backoff := wrap64 (wrap64 (wrap64 (attempt + 1) * 100) * Millisecond) in
            if ctx_done e (polls w') then (Return (inr ErrCtx), poll w')
            else attempts_loop e r n' (attempt + 1) lastErr' (slept backoff (poll w'))
          else attempts_loop e r n' (attempt + 1) lastErr' w'
      end
  end.

Definition Resolve (e : env) (r : UpstreamResolver) (question : Question)
  : (Msg + error) * world :=
  match attempts_loop e r (Z.to_nat (retries r + 1)) 0 None start with
  | (Return res, w) => (res, w)
  | (Next lastErr, w) =>
      let lastErr := match lastErr with Some err => err | None => ErrAllFailed end in
      (inr (ErrResolve (QName question) (wrap64 (retries r + 1)) lastErr), w)
  end.

(** *** The forwarder as the specification words it *)

(** A response is final when its rcode is NOERROR or NXDOMAIN. *)
Definition final (o : Msg + string) : option Msg :=
  match o with
  | inl m => if (Rcode m =? 0) || (Rcode m =? 3) then Some m else None
  | inr _ => None
  end.

(** The error recorded for an outcome that is not final. *)
Definition recorded (server : string) (o : Msg + string) : error :=
  match o with
  | inl m => ErrRcode (Rcode m)
  | inr cause => ErrExchange server cause
  end.

(** The servers in the order they are tried when nothing is final:
    the whole list, once per attempt. *)
Definition schedule (r : UpstreamResolver) : list string :=
  concat (replicate (Z.to_nat (retries r + 1)) (servers r)).

(** The first final response in a schedule whose first exchange is the
    [k]-th, with the number of exchanges before it. *)
Fixpoint first_final (e : env) (k : nat) (sched : list string) : option (nat * Msg) :=
  match sched with
  | [] => None
  | s :: rest =>
      match final (exchange e k s) with
      | Some m => Some (O, m)
      | None =>
          match first_final e (S k) rest with
          | Some (j, m) => Some (S j, m)
          | None => None
          end
      end
  end.

(** The error of the last exchange of a schedule, if there is one. *)
Fixpoint last_recorded (e : env) (k : nat) (sched : list string)
         (lastErr : option error) : option error :=
  match sched with
  | [] => lastErr
  | s :: rest => last_recorded e (S k) rest (Some (recorded s (exchange e k s)))
  end.

(** Everything that happens when no response is final: each round
    queries every server in order, and a sleep of
    [(attempt+1) * 100 ms] follows every round but the last. *)
Fixpoint rounds (r : UpstreamResolver) (n : nat) (attempt : Z) : list event :=
  match n with
  | O => []
  | S n' =>
      map EvExchange (servers r)
      ++ (if attempt <? retries r then [EvSleep ((attempt + 1) * 100 * Millisecond)] else [])
      ++ rounds r n' (attempt + 1)
  end.

Definition full_trace (r : UpstreamResolver) : list event :=
  rounds r (Z.to_nat (retries r + 1)) 0.

(** The events up to and including the [n]-th exchange. *)
Fixpoint upto_exchange (n : nat) (evs : list event) : list event :=
  match n, evs with
  | O, _ => []
  | _, [] => []
  | S n', EvExchange s :: rest => EvExchange s :: upto_exchange n' rest
  | S _, EvSleep d :: rest => EvSleep d :: upto_exchange n rest
  end.

End Upstream.

(** ** internal/cache: the TTL-aware LRU cache *)

Module Cache.
Import Dns.

(** *** The heap of messages

    A [*dns.Msg] is a location; [Copy] allocates.  Locations are only
    ever obtained from an allocation, so reading one that was never
    allocated does not occur; the model reads the zero message there. *)
Abbreviation loc := nat.
Abbreviation heap := (list Msg).

Definition deref (h : heap) (l : loc) : Msg := default zeroMsg (h !! l).

Definition alloc (h : heap) (m : Msg) : heap * loc := (h ++ [m], length h).

(** [msg.Copy()]: a deep copy at a new location. *)
Definition Copy (h : heap) (l : loc) : heap * loc := alloc h (deref h l).

(** [p.Field = v] through a pointer [p]. *)
Definition store (h : heap) (l : loc) (m : Msg) : heap := <[l := m]> h.

(** *** The cache

    A [*CacheEntry] and the [*list.Element] that carries it are one
    reference: [entry.element] and [element.Value] tie them together
    one to one.  [objects] holds the entry each reference points to. *)
Abbreviation ref := nat.

Record CacheEntry := mkEntry {
  Key : string;
  Response : loc;
  ExpiresAt : Z
}.

(** One element of the slice handed to the encoder and got back from
    the decoder: the message travels by content. *)
Record SerializableCacheEntry := mkSEntry {
  SKey : string;
  SResponse : Msg;
  SExpiresAt : Z
}.

Record LRUCache := mkCache {
  capacity : Z;
  items : gmap string ref;
  evictList : list ref;      (* front of the list first *)
  defaultTTL : Z;
  objects : list CacheEntry
}.

Definition NewLRUCache (capacity defaultTTL : Z) : LRUCache :=
  mkCache capacity ∅ [] defaultTTL [].

Definition entry_at (c : LRUCache) (e : ref) : CacheEntry :=
  default (mkEntry "" 0%nat 0) (objects c !! e).

Definition with_list (l : list ref) (c : LRUCache) : LRUCache :=
  mkCache (capacity c) (items c) l (defaultTTL c) (objects c).

Definition with_items (m : gmap string ref) (c : LRUCache) : LRUCache :=
  mkCache (capacity c) m (evictList c) (defaultTTL c) (objects c).

Definition with_objects (o : list CacheEntry) (c : LRUCache) : LRUCache :=
  mkCache (capacity c) (items c) (evictList c) (defaultTTL c) o.

(** *** container/list *)

(** [l.Remove(e)] *)
Fixpoint Remove (e : ref) (l : list ref) : list ref :=
  match l with
  | [] => []
  | x :: r => if Nat.eqb x e then r else x :: Remove e r
  end.

(** [l.MoveToFront(e)]: nothing happens unless [e] is in [l]. *)
Definition MoveToFront (e : ref) (l : list ref) : list ref :=
  if existsb (Nat.eqb e) l then e :: Remove e l else l.

(** [l.Back()] *)
Definition Back (l : list ref) : option ref := last l.

(** *** The methods *)

Definition Delete (c : LRUCache) (key : string) : LRUCache :=
  match items c !! key with
  | Some e => with_items (delete key (items c)) (with_list (Remove e (evictList c)) c)
  | None => c
  end.

Definition Get (c : LRUCache) (h : heap) (key : string) (now : Z)
  : option loc * LRUCache * heap :=
  match items c !! key with
  | None => (None, c, h)
  | Some e =>
      let entry := entry_at c e in
      if now >? ExpiresAt entry then (None, Delete c key, h)
      else
        let c' := with_list (MoveToFront e (evictList c)) c in
        let '(h', copy) := Copy h (Response entry) in
        (Some copy, c', h')
  end.

Definition removeOldest (c : LRUCache) : LRUCache :=
  match Back (evictList c) with
  | Some element =>
      let entry := entry_at c element in
      with_items (delete (Key entry) (items c))
                 (with_list (Remove element (evictList c)) c)
  | None => c
  end.

(** [entry.element = c.evictList.PushFront(entry); c.items[key] = entry]
    for a new entry object. *)
Definition push_new (entry : CacheEntry) (c : LRUCache) : LRUCache :=
  let e : ref := length (objects c) in
  mkCache (capacity c) (<[Key entry := e]> (items c)) (e :: evictList c)
          (defaultTTL c) (objects c ++ [entry]).

Definition Set_ (c : LRUCache) (h : heap) (key : string) (response : loc)
           (ttl : Z) (now : Z) : LRUCache * heap :=
  let ttl := if ttl =? 0 then defaultTTL c else ttl in
  match items c !! key with
  | Some e =>
      let '(h', copy) := Copy h response in
      let entry := mkEntry (Key (entry_at c e)) copy (now + ttl) in
      (with_objects (<[e := entry]> (objects c))
                    (with_list (MoveToFront e (evictList c)) c), h')
  | None =>
      let c1 := if Z.of_nat (length (evictList c)) >=? capacity c
                then removeOldest c else c in
      let '(h', copy) := Copy h response in
      (push_new (mkEntry key copy (now + ttl)) c1, h')
  end.

Definition Clear (c : LRUCache) : LRUCache :=
  with_items ∅ (with_list [] c).

Definition Size (c : LRUCache) : Z := Z.of_nat (size (items c)).

(** [removeExpired]: the list is scanned from the back, then every
    collected element is removed together with the key of its entry. *)
Definition removeExpired (c : LRUCache) (now : Z) : LRUCache :=
  let toRemove :=
    List.filter (fun e => now >? ExpiresAt (entry_at c e)) (rev (evictList c)) in
  fold_left
    (fun c element =>
       with_items (delete (Key (entry_at c element)) (items c))
                  (with_list (Remove element (evictList c)) c))
    toRemove c.

(** The slice [DumpToFile] hands to the encoder, for one order [order]
    in which [range c.items] yields the map (Go leaves it open). *)
Definition dump_entries (c : LRUCache) (h : heap) (now : Z)
           (order : list (string * ref)) : list SerializableCacheEntry :=
  omap (fun kv : string * ref =>
          let entry := entry_at c kv.2 in
          if now <? ExpiresAt entry
          then Some (mkSEntry (Key entry) (deref h (Response entry)) (ExpiresAt entry))
          else None)
       order.

(** The loop of [LoadFromFile] over the decoded entries; each decoded
    message is a new object. *)
Fixpoint load_entries (c : LRUCache) (h : heap) (now : Z)
         (entries : list SerializableCacheEntry) : LRUCache * heap :=
  match entries with
  | [] => (c, h)
  | entry :: rest =>
      let '(h1, response) := alloc h (SResponse entry) in
      if now <? SExpiresAt entry then
        let c1 := if Z.of_nat (length (evictList c)) >=? capacity c
                  then removeOldest c else c in
        load_entries (push_new (mkEntry (SKey entry) response (SExpiresAt entry)) c1)
                     h1 now rest
      else load_entries c h1 now rest
  end.

(** *** Snapshot files

    [encoding/gob] and the file system are outside the repository: a
    file is whatever the encoder produces, and a path holds a file or
    nothing. *)
Section Files.
Variable file : Type.
Variable encode : list SerializableCacheEntry -> option file.
Variable decode : file -> option (list SerializableCacheEntry).

(** [DumpToFile]: [None] is an error, of [os.Create] when the file is
    not [creatable], or of the encoder. *)
Definition DumpToFile (c : LRUCache) (h : heap) (now : Z)
           (order : list (string * ref)) (creatable : bool) : option file :=
  if creatable then encode (dump_entries c h now order) else None.

(** [LoadFromFile]: [None] is an error ([os.Open] or the decoder
    failed), and then the cache is as it was. *)
Definition LoadFromFile (c : LRUCache) (h : heap) (now : Z)
           (f : option file) : option (LRUCache * heap) :=
  match f with
  | None => None
  | Some f =>
      match decode f with
      | None => None
      | Some entries => Some (load_entries c h now entries)
      end
  end.
End Files.

(** *** [encoding/gob] as the snapshot meets it

    [dns.RR] is an interface type, and nothing in the repository calls
    [gob.Register].  The encoder sends an interface value under the
    registered name of its dynamic type and fails on a value whose type
    has none; a slice without elements is left out of the stream.  So a
    message without a resource record is written field by field and
    decoded to an equal message, while one record in the answer,
    authority or additional section of one entry makes [Encode] fail,
    and then no value reaches the file. *)
Definition gob_encodable (m : Msg) : bool :=
  match Answer m, Ns m, Extra m with
  | [], [], [] => true
  | _, _, _ => false
  end.

Definition gob_encode (entries : list SerializableCacheEntry)
  : option (list SerializableCacheEntry) :=
  if forallb (fun entry => gob_encodable (SResponse entry)) entries
  then Some entries else None.

Definition gob_decode (f : list SerializableCacheEntry)
  : option (list SerializableCacheEntry) := Some f.

(** [GenerateCacheKey]; [TypeToString] and [ClassToString] are tables
    of [miekg/dns]. *)
Definition GenerateCacheKey (TypeToString ClassToString : Z -> string)
           (question : Question) : string :=
  QName question +:+ ":" +:+ TypeToString (Qtype question)
        +:+ ":" +:+ ClassToString (Qclass question).

End Cache.

(** ** internal/config: the configuration and its loader *)

Module Config.
Import GoStrings Dns.

Record ServerConfig := mkServer {
  Port : Z;
  BindAddress : string;
  ReadTimeout : Z;
  WriteTimeout : Z
}.

Record CacheConfig := mkCacheConfig {
  MaxEntries : Z;
  DefaultTTL : Z;
  CleanupInterval : Z
}.

Record UpstreamConfig := mkUpstream {
  Servers : list string;
  Timeout : Z;
  Retries : Z
}.

Record LoggingConfig := mkLogging {
  Level : string;
  Format : string
}.

Record MXRecord := mkMX { MX_Priority : Z; MX_Target : string }.
Record HTTPSRecord := mkHTTPS { HTTPS_Priority : Z; HTTPS_Target : string; HTTPS_Params : string }.
Record CAARecord := mkCAA { CAA_Flag : Z; CAA_Tag : string; CAA_Value : string }.
Record SRVRecord := mkSRV { SRV_Priority : Z; SRV_Weight : Z; SRV_Port : Z; SRV_Target : string }.
Record SVCBRecord := mkSVCB { SVCB_Priority : Z; SVCB_Target : string; SVCB_Params : string }.
Record DSRecord := mkDS { DS_KeyTag : Z; DS_Algorithm : Z; DS_DigestType : Z; DS_Digest : string }.
Record DNSKEYRecord := mkDNSKEY { DNSKEY_Flags : Z; DNSKEY_Protocol : Z; DNSKEY_Algorithm : Z; DNSKEY_PublicKey : string }.
Record URIRecord := mkURI { URI_Priority : Z; URI_Weight : Z; URI_Target : string }.
Record NAPTRRecord := mkNAPTR { NAPTR_Order : Z; NAPTR_Preference : Z; NAPTR_Flags : string;
                                NAPTR_Service : string; NAPTR_Regexp : string; NAPTR_Replacement : string }.
Record SSHFPRecord := mkSSHFP { SSHFP_Algorithm : Z; SSHFP_Type : Z; SSHFP_Fingerprint : string }.
Record TLSARecord := mkTLSA { TLSA_Usage : Z; TLSA_Selector : Z; TLSA_MatchingType : Z; TLSA_Certificate : string }.
Record SMIMEARecord := mkSMIMEA { SMIMEA_Usage : Z; SMIMEA_Selector : Z; SMIMEA_MatchingType : Z; SMIMEA_Certificate : string }.
Record CERTRecord := mkCERT { CERT_Type : Z; CERT_KeyTag : Z; CERT_Algorithm : Z; CERT_Certificate : string }.

(** The per-type tables.  A [nil] map and an empty map answer every
    lookup alike, so both are the empty [gmap]. *)
Record RecordsConfig := mkRecords {
  A : gmap string string;
  AAAA : gmap string string;
  CNAME : gmap string string;
  MX : gmap string MXRecord;
  TXT : gmap string string;
  HTTPS : gmap string HTTPSRecord;
  CAA : gmap string CAARecord;
  SRV : gmap string SRVRecord;
  SVCB : gmap string SVCBRecord;
  DS : gmap string DSRecord;
  DNSKEY : gmap string DNSKEYRecord;
  URI : gmap string URIRecord;
  NAPTR : gmap string NAPTRRecord;
  SSHFP : gmap string SSHFPRecord;
  TLSA : gmap string TLSARecord;
  SMIMEA : gmap string SMIMEARecord;
  CERT : gmap string CERTRecord
}.

Definition noRecords : RecordsConfig :=
  mkRecords ∅ ∅ ∅ ∅ ∅ ∅ ∅ ∅ ∅ ∅ ∅ ∅ ∅ ∅ ∅ ∅ ∅.

Record Config := mkConfig {
  Server : ServerConfig;
  Cache : CacheConfig;
  Upstream : UpstreamConfig;
  Logging : LoggingConfig;
  Records : RecordsConfig
}.

(** [&Config{}]: every option at the zero value of its type. *)
Definition zeroConfig : Config :=
  mkConfig (mkServer 0 "" 0 0) (mkCacheConfig 0 0 0) (mkUpstream [] 0 0)
           (mkLogging "" "") noRecords.

Definition defaultConfig : Config :=
  mkConfig (mkServer 53 "0.0.0.0" (5 * Second) (5 * Second))
           (mkCacheConfig 10000 (300 * Second) (60 * Second))
           (mkUpstream ["8.8.8.8:53"; "1.1.1.1:53"] (2 * Second) 3)
           (mkLogging "info" "json")
           noRecords.

Inductive record_error :=
| InvalidDomain (rtype domain : string)
| InvalidIP (rtype domain ip : string)
| InvalidTarget (rtype domain target : string)
| InvalidPriority (domain : string) (priority : Z).

Inductive validate_error :=
| InvalidPort (port : Z)
| MaxEntriesNotPositive (n : Z)
| NoUpstreamServer
| NegativeRetries (n : Z)
| InvalidRecords (cause : record_error).

Inductive load_error :=
| DecodeFailed (cause : string)
| InvalidConfiguration (cause : validate_error).

Definition isValidDomain (domain : string) : bool :=
  if (Nat.eqb (String.length domain) 0 || Nat.ltb 253 (String.length domain))%bool
  then false
  else
    let domain := if HasSuffixDot domain then domain else domain +:+ "." in
    forallb (fun part => negb (Nat.eqb (String.length part) 0
                               || Nat.ltb 63 (String.length part)))
            (SplitDot (TrimSuffixDot domain)).

(** The first error of a [for ... range] loop with an early return. *)
Fixpoint first_error {X} (check : X -> option record_error) (l : list X)
  : option record_error :=
  match l with
  | [] => None
  | x :: rest => match check x with Some err => Some err | None => first_error check rest end
  end.

Section Validate.
(** [net.ParseIP] *)
Variable ParseIP : string -> option IP.

(** The maps are visited in the order of [map_to_list]; Go leaves the
    order open, which can change which error is reported but not
    whether there is one. *)
Definition validateRecords (config : Config) : option record_error :=
  let recs := Records config in
  match first_error (fun '(domain, ip) =>
            if negb (isValidDomain domain) then Some (InvalidDomain "A" domain)
            else if ParseIP ip is None then Some (InvalidIP "A" domain ip) else None)
          (map_to_list (A recs)) with
  | Some err => Some err
  | None =>
  match first_error (fun '(domain, ip) =>
            if negb (isValidDomain domain) then Some (InvalidDomain "AAAA" domain)
            else if ParseIP ip is None then Some (InvalidIP "AAAA" domain ip) else None)
          (map_to_list (AAAA recs)) with
  | Some err => Some err
  | None =>
  match first_error (fun '(domain, target) =>
            if negb (isValidDomain domain) then Some (InvalidDomain "CNAME" domain)
            else if negb (isValidDomain target) then Some (InvalidTarget "CNAME" domain target)
            else None)
          (map_to_list (CNAME recs)) with
  | Some err => Some err
  | None =>
    first_error (fun '(domain, mx) =>
            if negb (isValidDomain domain) then Some (InvalidDomain "MX" domain)
            else if negb (isValidDomain (MX_Target mx))
                 then Some (InvalidTarget "MX" domain (MX_Target mx))
            else if ((MX_Priority mx <? 0) || (MX_Priority mx >? 65535))%bool
                 then Some (InvalidPriority domain (MX_Priority mx))
            else None)
          (map_to_list (MX recs))
  end end end.

Definition validate (config : Config) : option validate_error :=
  if ((Port (Server config) <? 1) || (Port (Server config) >? 65535))%bool
  then Some (InvalidPort (Port (Server config)))
  else if MaxEntries (Cache config) <? 1
  then Some (MaxEntriesNotPositive (MaxEntries (Cache config)))
  else if Nat.eqb (length (Servers (Upstream config))) 0
  then Some NoUpstreamServer
  else if Retries (Upstream config) <? 0
  then Some (NegativeRetries (Retries (Upstream config)))
  else match validateRecords config with
       | Some err => Some (InvalidRecords err)
       | None => None
       end.

Definition setDefaults (config : Config) : Config :=
  let s := Server config in
  let c := Cache config in
  let u := Upstream config in
  let l := Logging config in
  mkConfig
    (mkServer (if Port s =? 0 then 53 else Port s)
              (if String.eqb (BindAddress s) "" then "0.0.0.0" else BindAddress s)
              (if ReadTimeout s =? 0 then 5 * Second else ReadTimeout s)
              (if WriteTimeout s =? 0 then 5 * Second else WriteTimeout s))
    (mkCacheConfig (if MaxEntries c =? 0 then 10000 else MaxEntries c)
                   (if DefaultTTL c =? 0 then 300 * Second else DefaultTTL c)
                   (if CleanupInterval c =? 0 then 60 * Second else CleanupInterval c))
    (mkUpstream (if Nat.eqb (length (Servers u)) 0
                 then ["8.8.8.8:53"; "1.1.1.1:53"] else Servers u)
                (if Timeout u =? 0 then 2 * Second else Timeout u)
                (if Retries u =? 0 then 3 else Retries u))
    (mkLogging (if String.eqb (Level l) "" then "info" else Level l)
               (if String.eqb (Format l) "" then "json" else Format l))
    (Records config).

(** What [Load] finds at [path]: nothing, a file the TOML decoder
    rejects, or a file it decodes.  Decoding fills a zero [Config], so
    an option the file omits is still at its zero value in [decoded]. *)
Inductive config_file :=
| Missing
| Malformed (cause : string)
| WellFormed (decoded : Config).

Definition Load (f : config_file) : Config + load_error :=
  match f with
  | Missing => inl defaultConfig
  | Malformed cause => inr (DecodeFailed cause)
  | WellFormed config =>
      match validate config with
      | Some err => inr (InvalidConfiguration err)
      | None => inl (setDefaults config)
      end
  end.
End Validate.

End Config.

(** ** internal/resolver: the local resolver *)

Module Resolver.
Import GoStrings Dns Config.

(** How a call ends: with a result, or not at all.  [Resolve] and
    [resolveWildcard] call each other; [Overflow] is a recursion that
    is deeper than the allowance given to the call. *)
Inductive outcome :=
| Overflow
| Done (r : option Msg).

(** [uint16(x)], [uint8(x)] *)
Definition uint16 (x : Z) : Z := x mod 65536.
Definition uint8 (x : Z) : Z := x mod 256.

Section Resolve.
(** [net.ParseIP], [IP.To4], [IP.To16]; [None] is [nil]. *)
Variable ParseIP : string -> option IP.
Variable To4 To16 : IP -> option IP.

Variable records : RecordsConfig.

Definition dotted (target : string) : string :=
  if HasSuffixDot target then target else target +:+ ".".

(** The [switch question.Qtype] of [Resolve]: the record built for
    [domain], owned by [name], when the table of the type has one. *)
Definition lookup (qtype : Z) (domain name : string) : option RR :=
  let hdr := mkHdr name qtype ClassINET 300 in
  if qtype =? TypeA then
    match A records !! domain with
    | Some ip =>
        match ParseIP ip with
        | Some parsedIP =>
            match To4 parsedIP with
            | Some a => Some (mkRR hdr (RD_A a))
            | None => None
            end
        | None => None
        end
    | None => None
    end
  else if qtype =? TypeAAAA then
    match AAAA records !! domain with
    | Some ip =>
        match ParseIP ip with
        | Some parsedIP =>
            match To16 parsedIP with
            | Some a => Some (mkRR hdr (RD_AAAA a))
            | None => None
            end
        | None => None
        end
    | None => None
    end
  else if qtype =? TypeCNAME then
    match CNAME records !! domain with
    | Some target => Some (mkRR hdr (RD_CNAME (dotted target)))
    | None => None
    end
  else if qtype =? TypeMX then
    match MX records !! domain with
    | Some mx => Some (mkRR hdr (RD_MX (uint16 (MX_Priority mx)) (dotted (MX_Target mx))))
    | None => None
    end
  else if qtype =? TypeTXT then
    match TXT records !! domain with
    | Some txt => Some (mkRR hdr (RD_TXT [txt]))
    | None => None
    end
  else if qtype =? TypeHTTPS then
    match HTTPS records !! domain with
    | Some r => Some (mkRR hdr (RD_HTTPS (uint16 (HTTPS_Priority r)) (HTTPS_Target r)))
    | None => None
    end
  else if qtype =? TypeCAA then
    match CAA records !! domain with
    | Some r => Some (mkRR hdr (RD_CAA (uint8 (CAA_Flag r)) (CAA_Tag r) (CAA_Value r)))
    | None => None
    end
  else if qtype =? TypeSRV then
    match SRV records !! domain with
    | Some r => Some (mkRR hdr (RD_SRV (uint16 (SRV_Priority r)) (uint16 (SRV_Weight r))
                                       (uint16 (SRV_Port r)) (SRV_Target r)))
    | None => None
    end
  else if qtype =? TypeSVCB then
    match SVCB records !! domain with
    | Some r => Some (mkRR hdr (RD_SVCB (uint16 (SVCB_Priority r)) (SVCB_Target r)))
    | None => None
    end
  else if qtype =? TypeDS then
    match DS records !! domain with
    | Some r => Some (mkRR hdr (RD_DS (uint16 (DS_KeyTag r)) (uint8 (DS_Algorithm r))
                                      (uint8 (DS_DigestType r)) (DS_Digest r)))
    | None => None
    end
  else if qtype =? TypeDNSKEY then
    match DNSKEY records !! domain with
    | Some r => Some (mkRR hdr (RD_DNSKEY (uint16 (DNSKEY_Flags r)) (uint8 (DNSKEY_Protocol r))
                                          (uint8 (DNSKEY_Algorithm r)) (DNSKEY_PublicKey r)))
    | None => None
    end
  else if qtype =? TypeURI then
    match URI records !! domain with
    | Some r => Some (mkRR hdr (RD_URI (uint16 (URI_Priority r)) (uint16 (URI_Weight r))
                                       (URI_Target r)))
    | None => None
    end
  else if qtype =? TypeNAPTR then
    match NAPTR records !! domain with
    | Some r => Some (mkRR hdr (RD_NAPTR (uint16 (NAPTR_Order r)) (uint16 (NAPTR_Preference r))
                                         (NAPTR_Flags r) (NAPTR_Service r) (NAPTR_Regexp r)
                                         (NAPTR_Replacement r)))
    | None => None
    end
  else if qtype =? TypeSSHFP then
    match SSHFP records !! domain with
    | Some r => Some (mkRR hdr (RD_SSHFP (uint8 (SSHFP_Algorithm r)) (uint8 (SSHFP_Type r))
                                         (SSHFP_Fingerprint r)))
    | None => None
    end
  else if qtype =? TypeTLSA then
    match TLSA records !! domain with
    | Some r => Some (mkRR hdr (RD_TLSA (uint8 (TLSA_Usage r)) (uint8 (TLSA_Selector r))
                                        (uint8 (TLSA_MatchingType r)) (TLSA_Certificate r)))
    | None => None
    end
  else if qtype =? TypeSMIMEA then
    match SMIMEA records !! domain with
    | Some r => Some (mkRR hdr (RD_SMIMEA (uint8 (SMIMEA_Usage r)) (uint8 (SMIMEA_Selector r))
                                          (uint8 (SMIMEA_MatchingType r)) (SMIMEA_Certificate r)))
    | None => None
    end
  else if qtype =? TypeCERT then
    match CERT records !! domain with
    | Some r => Some (mkRR hdr (RD_CERT (uint16 (CERT_Type r)) (uint16 (CERT_KeyTag r))
                                        (uint8 (CERT_Algorithm r)) (CERT_Certificate r)))
    | None => None
    end
  else None.

(** The candidates of both wildcard loops, in the order of [i]:
    ["*." + strings.Join(parts[i+1:], ".")] for [i] from [0] to
    [len(parts) - 1]. *)
Definition wildcards (domain : string) : list string :=
  let parts := SplitDot domain in
  map (fun i => "*." +:+ JoinDot (drop (S i) parts)) (seq 0 (length parts)).

(** The [switch qtype] inside the loop of [hasWildcardMatch]. *)
Definition probe (qtype : Z) (wildcard : string) : bool :=
  if qtype =? TypeA then bool_decide (is_Some (A records !! wildcard))
  else if qtype =? TypeAAAA then bool_decide (is_Some (AAAA records !! wildcard))
  else if qtype =? TypeCNAME then bool_decide (is_Some (CNAME records !! wildcard))
  else if qtype =? TypeMX then bool_decide (is_Some (MX records !! wildcard))
  else if qtype =? TypeTXT then bool_decide (is_Some (TXT records !! wildcard))
  else false.

Definition hasWildcardMatch (domain : string) (qtype : Z) : bool :=
  existsb (probe qtype) (wildcards domain).

(** The loop of [resolveWildcard] over the candidates, with the
    recursive call to [Resolve] as [resolve]. *)
Fixpoint wildcard_loop (resolve : Question -> outcome) (question : Question)
         (candidates : list string) : outcome :=
  match candidates with
  | [] => Done None
  | wildcard :: rest =>
      let wildcardQuestion :=
        mkQuestion (wildcard +:+ ".") (Qtype question) (Qclass question) in
      match resolve wildcardQuestion with
      | Overflow => Overflow
      | Done (Some response) =>
          Done (Some (set_Answer (map (set_Name (QName question)) (Answer response))
                                 response))
      | Done None => wildcard_loop resolve question rest
      end
  end.

Definition resolveWildcard (resolve : Question -> outcome) (domain : string)
           (question : Question) : outcome :=
  wildcard_loop resolve question (wildcards domain).

(** [Resolve], with [depth] the number of nested calls of [Resolve]
    the stack has room for. *)
Fixpoint Resolve (depth : nat) (question : Question) : outcome :=
  match depth with
  | O => Overflow
  | S depth' =>
      let domain := ToLower (TrimSuffixDot (QName question)) in
      let response :=
        set_RecursionAvailable false
          (set_Authoritative true
             (SetReply (mkMsg 0 false 0 false false false false 0 [question] [] [] []))) in
      match lookup (Qtype question) domain (QName question) with
      | Some rr =>
          Done (Some (set_Rcode RcodeSuccess
                        (set_Answer (Answer response ++ [rr]) response)))
      | None =>
          if hasWildcardMatch domain (Qtype question)
          then resolveWildcard (Resolve depth') domain question
          else Done None
      end
  end.
End Resolve.

End Resolver.

(** ** internal/dns/handler.go: the request handler *)

Module Handler.
Import Dns Cache Resolver TTL.

Definition isSupportedType (qtype : Z) : bool :=
  existsb (Z.eqb qtype)
    [TypeA; TypeAAAA; TypeCNAME; TypeMX; TypeTXT; TypeNS; TypeSOA; TypePTR;
     TypeHTTPS; TypeCAA; TypeSRV; TypeSVCB; TypeDS; TypeDNSKEY; TypeURI;
     TypeNAPTR; TypeSSHFP; TypeTLSA; TypeSMIMEA; TypeCERT].

(** What one call of [ServeDNS] leaves behind: the message written to
    the client, the cache and the heap; or nothing, when the local
    resolver does not return. *)
Inductive served :=
| Crashed
| Served (written : Msg) (c : LRUCache) (h : heap).

Section ServeDNS.
Variable ParseIP : string -> option IP.
Variable To4 To16 : IP -> option IP.
Variable TypeToString ClassToString : Z -> string.

(** The handler's collaborators: the record tables of the local
    resolver with the room its recursion has, and the upstream
    resolver behind its interface. *)
Variable records : Config.RecordsConfig.
Variable depth : nat.
Variable upstream_error : Type.
Variable resolver : Question -> Msg + upstream_error.

(** [response.Id = r.Id; ttl := extractTTL(response); if ttl > 0
    { cache.Set(...) }; writeResponse(w, response)] for a response
    object the handler has just received. *)
Definition cache_and_write (c : LRUCache) (h : heap) (cacheKey : string)
           (r : Msg) (fresh : Msg) (now : Z) : served :=
  let '(h1, l) := alloc h fresh in
  let h2 := store h1 l (set_Id (Id r) (deref h1 l)) in
  let ttl := extractTTL (deref h2 l) in
  let '(c', h3) := if ttl >? 0 then Set_ c h2 cacheKey l ttl now else (c, h2) in
  Served (deref h3 l) c' h3.

(** [ServeDNS]; [now_get] and [now_set] are the readings of the clock
    inside [cache.Get] and [cache.Set]. *)
Definition ServeDNS (c : LRUCache) (h : heap) (r : Msg) (now_get now_set : Z)
  : served :=
  let response := set_RecursionAvailable true (set_Authoritative false (SetReply r)) in
  match Question_ r with
  | [] => Served (set_Rcode RcodeFormatError response) c h
  | question :: _ =>
      if negb (isSupportedType (Qtype question))
      then Served (set_Rcode RcodeNotImplemented response) c h
      else
        let cacheKey := GenerateCacheKey TypeToString ClassToString question in
        match Get c h cacheKey now_get with
        | (Some cachedResponse, c1, h1) =>
            let h2 := store h1 cachedResponse (set_Id (Id r) (deref h1 cachedResponse)) in
            Served (deref h2 cachedResponse) c1 h2
        | (None, c1, h1) =>
            match Resolve ParseIP To4 To16 records depth question with
            | Overflow => Crashed
            | Done (Some localResponse) =>
                cache_and_write c1 h1 cacheKey r localResponse now_set
            | Done None =>
                match resolver question with
                | inr _ => Served (set_Rcode RcodeServerFailure response) c1 h1
                | inl upstreamResponse =>
                    cache_and_write c1 h1 cacheKey r upstreamResponse now_set
                end
            end
        end
  end.
End ServeDNS.

End Handler.

(** * Statements *)

(** [m] is the minimum TTL across the resource records [rrs]. *)
Definition is_min_ttl (m : Z) (rrs : list Dns.RR) : Prop :=
  (exists rr, rr ∈ rrs /\ Dns.Ttl (Dns.Hdr rr) = m) /\
  (forall rr, rr ∈ rrs -> m <= Dns.Ttl (Dns.Hdr rr)).

(** A response whose only answer is an A record with the given TTL. *)
Definition answer_with_ttl (ttl : Z) : Dns.Msg :=
  Dns.mkMsg 7 true 0 false true true false 0
    [Dns.mkQuestion "example.com." 1 1]
    [Dns.mkRR (Dns.mkHdr "example.com." 1 1 ttl) (Dns.RD_A [192; 0; 2; 7])]
    [] [].

(** Two upstream servers, the first unreachable, the second answering
    NOERROR; the context stays live. *)
Definition failover_env : Upstream.env :=
  Upstream.mkEnv
    (fun _ server =>
       if String.eqb server "8.8.8.8:53" then inl (answer_with_ttl 120)
       else inr "connection refused")
    (fun _ => false).

Definition failover_resolver : Upstream.UpstreamResolver :=
  Upstream.mkResolver ["127.0.0.1:1"; "8.8.8.8:53"] 3.

(** A label: a string without a dot. *)
Definition label (p : string) : Prop := GoStrings.SplitDot p = [p].

(** The first candidate of the wildcard loops for [domain]. *)
Definition first_wildcard (domain : string) : string :=
  "*." +:+ GoStrings.JoinDot (drop 1 (GoStrings.SplitDot domain)).

(** The five record types with wildcard support. *)
Definition wildcard_types : list Z :=
  [Dns.TypeA; Dns.TypeAAAA; Dns.TypeCNAME; Dns.TypeMX; Dns.TypeTXT].

(** Stand-ins for [net.ParseIP], [IP.To4] and [IP.To16] on the addresses
    the examples use: an address parses into the 16-byte form, [To4]
    takes the last four bytes of an IPv4-mapped address. *)
Definition example_ParseIP (s : string) : option Dns.IP :=
  if String.eqb s "192.0.2.7" then Some [0;0;0;0;0;0;0;0;0;0;255;255;192;0;2;7]
  else if String.eqb s "10.0.0.1" then Some [0;0;0;0;0;0;0;0;0;0;255;255;10;0;0;1]
  else if String.eqb s "::1" then Some [0;0;0;0;0;0;0;0;0;0;0;0;0;0;0;1]
  else None.

Definition example_To4 (ip : Dns.IP) : option Dns.IP :=
  match ip with
  | [0;0;0;0;0;0;0;0;0;0;255;255;a;b;c;d] => Some [a;b;c;d]
  | [a;b;c;d] => Some [a;b;c;d]
  | _ => None
  end.

Definition example_To16 (ip : Dns.IP) : option Dns.IP :=
  match ip with
  | [a;b;c;d] => Some [0;0;0;0;0;0;0;0;0;0;255;255;a;b;c;d]
  | _ => if Nat.eqb (length ip) 16 then Some ip else None
  end.

(** The record table of the wildcard scenario: [*.example A 192.0.2.7]. *)
Definition example_records : Config.RecordsConfig :=
  Config.mkRecords {[ "*.example" := "192.0.2.7" ]} ∅ ∅ ∅ ∅ ∅ ∅ ∅ ∅ ∅ ∅ ∅ ∅ ∅ ∅ ∅ ∅.

(** A well-formed configuration file that sets every option but
    [server.port], as the decoder leaves it. *)
Definition config_without_port : Config.Config :=
  Config.mkConfig (Config.mkServer 0 "127.0.0.1" (3 * Second) (3 * Second))
                  (Config.mkCacheConfig 500 (120 * Second) (30 * Second))
                  (Config.mkUpstream ["9.9.9.9:53"] (1 * Second) 2)
                  (Config.mkLogging "debug" "text")
                  Config.noRecords.

(** *** The cache as the data model describes it

    The map and the recency list hold the same entries: every key of the
    map leads to an element of the list that carries this key, every
    element of the list is the map's entry for its key, no element occurs
    twice, and the list is no longer than the capacity.  Every reference
    and every message location in use has been allocated. *)
Record cache_wf (c : Cache.LRUCache) (h : Cache.heap) : Prop := mk_cache_wf {
  wf_capacity : 0 < Cache.capacity c;
  wf_nodup : NoDup (Cache.evictList c);
  wf_map : forall k e,
      Cache.items c !! k = Some e <->
      e ∈ Cache.evictList c /\ Cache.Key (Cache.entry_at c e) = k;
  wf_refs : forall e,
      e ∈ Cache.evictList c ->
      (e < length (Cache.objects c))%nat /\
      (Cache.Response (Cache.entry_at c e) < length h)%nat;
  wf_bound : Z.of_nat (length (Cache.evictList c)) <= Cache.capacity c
}.

(** The entry the cache holds for [key], with the message it points to. *)
Definition cached (c : Cache.LRUCache) (h : Cache.heap) (key : string)
  : option (Dns.Msg * Z) :=
  match Cache.items c !! key with
  | Some e => Some (Cache.deref h (Cache.Response (Cache.entry_at c e)),
                    Cache.ExpiresAt (Cache.entry_at c e))
  | None => None
  end.

(** One element leaves the cache: it is unlinked from the list and the
    key of its entry is deleted from the map. *)
Definition without (e : Cache.ref) (c : Cache.LRUCache) : Cache.LRUCache :=
  Cache.with_items (delete (Cache.Key (Cache.entry_at c e)) (Cache.items c))
                   (Cache.with_list (Cache.Remove e (Cache.evictList c)) c).

(** A cache of capacity 2 after [Set] of ["a.test.:A:IN"] at 10 s with
    the default TTL, and after a further [Set] of ["b.test.:A:IN"] at 20 s
    with a TTL of 60 s.  The heap starts with the two messages of the
    callers. *)
Definition one_entry : Cache.LRUCache * Cache.heap :=
  Cache.Set_ (Cache.NewLRUCache 2 (300 * Second))
             [answer_with_ttl 300; answer_with_ttl 60]
             "a.test.:A:IN" 0%nat 0 (10 * Second).

Definition two_entries : Cache.LRUCache * Cache.heap :=
  Cache.Set_ one_entry.1 one_entry.2 "b.test.:A:IN" 1%nat (60 * Second) (20 * Second).

(** *** Sequences of cache operations *)

Inductive cache_op :=
| OpGet (key : string) (now : Z)
| OpSet (key : string) (response : Dns.Msg) (ttl now : Z)
| OpDelete (key : string)
| OpClear
| OpRestore (entries : list Cache.SerializableCacheEntry) (now : Z)
| OpSweep (now : Z).

(** One operation on the cache and the heap.  [OpSet] is called with a
    message of the caller; [OpRestore] is [LoadFromFile] on a file that
    decodes to [entries]; [OpSweep] is one tick of [cleanupExpired]. *)
Definition step (s : Cache.LRUCache * Cache.heap) (op : cache_op)
  : Cache.LRUCache * Cache.heap :=
  match op with
  | OpGet key now => ((Cache.Get s.1 s.2 key now).1.2, (Cache.Get s.1 s.2 key now).2)
  | OpSet key response ttl now =>
      Cache.Set_ s.1 (Cache.alloc s.2 response).1 key (Cache.alloc s.2 response).2 ttl now
  | OpDelete key => (Cache.Delete s.1 key, s.2)
  | OpClear => (Cache.Clear s.1, s.2)
  | OpRestore entries now => Cache.load_entries s.1 s.2 now entries
  | OpSweep now => (Cache.removeExpired s.1 now, s.2)
  end.

(** A sequence of operations on a new cache. *)
Definition run (capacity defaultTTL : Z) (ops : list cache_op)
  : Cache.LRUCache * Cache.heap :=
  fold_left step ops (Cache.NewLRUCache capacity defaultTTL, []).

(** The recency list has the same elements as the map. *)
Definition list_matches_map (c : Cache.LRUCache) : Prop :=
  forall e, e ∈ Cache.evictList c <-> exists k, Cache.items c !! k = Some e.

(** A response without a resource record, as an upstream server gives
    it for a name that does not exist. *)
Definition nxdomain_reply : Dns.Msg :=
  Dns.mkMsg 7 true 0 false true true false 3
            [Dns.mkQuestion "gone.test." 1 1] [] [] [].

(** A cache of capacity 2 after one [Set] of such a response, and the
    file [DumpToFile] writes for it through [encoding/gob] ten seconds
    later. *)
Definition cache_before_restore : Cache.LRUCache * Cache.heap :=
  run 2 (300 * Second) [OpSet "gone.test.:A:IN" nxdomain_reply 0 (10 * Second)].

Definition own_snapshot : option (list Cache.SerializableCacheEntry) :=
  Cache.DumpToFile _ Cache.gob_encode
                   cache_before_restore.1 cache_before_restore.2 (20 * Second)
                   (map_to_list (Cache.items cache_before_restore.1)) true.

(** The same cache after [LoadFromFile] of this file (a load that
    returns an error leaves the cache as it is), and after a further
    [Set] of a second key. *)
Definition cache_after_restore : Cache.LRUCache * Cache.heap :=
  match Cache.LoadFromFile _ Cache.gob_decode
                           cache_before_restore.1 cache_before_restore.2
                           (20 * Second) own_snapshot with
  | Some s => s
  | None => cache_before_restore
  end.

Definition cache_after_restore_and_set : Cache.LRUCache * Cache.heap :=
  step cache_after_restore (OpSet "b.test.:A:IN" (answer_with_ttl 60) 0 (30 * Second)).

(** The cache across a restart: [Server.Stop] dumps it to the snapshot
    file, and [NewServer] of the next process makes a new cache, loads
    the file into it and goes on with the cache as it is when the load
    returns an error.  A dump that fails at the encoder leaves a created
    file without a value, on which the decoder fails: for [LoadFromFile]
    that is an error like a missing file. *)
Definition restart (c : Cache.LRUCache) (h : Cache.heap) (now_dump : Z)
           (order : list (string * Cache.ref))
           (capacity defaultTTL : Z) (h0 : Cache.heap) (now_load : Z)
  : Cache.LRUCache * Cache.heap :=
  let dnsCache := Cache.NewLRUCache capacity defaultTTL in
  match Cache.LoadFromFile _ Cache.gob_decode dnsCache h0 now_load
                           (Cache.DumpToFile _ Cache.gob_encode c h now_dump order true) with
  | Some s => s
  | None => (dnsCache, h0)
  end.

(** The supported set of the specification: A, AAAA, CNAME, MX, TXT, NS,
    SOA, PTR, HTTPS, CAA, SRV, SVCB, DS, DNSKEY, URI, NAPTR, SSHFP, TLSA,
    SMIMEA, CERT, by their IANA numbers. *)
Definition supported_types : list Z :=
  [1; 28; 5; 15; 16; 2; 6; 12; 65; 257; 33; 64; 43; 48; 256; 35; 44; 52; 53; 37].

(** The skeleton reply to [r] with the given rcode, field by field: the
    id and the opcode of the query, QR set, AA clear, RD and CD copied
    from a standard query, RA set, the first question of the query (if
    it has one) and no record. *)
Definition error_reply (r : Dns.Msg) (rcode : Z) : Dns.Msg :=
  Dns.mkMsg (Dns.Id r) true (Dns.Opcode r) false
            (if Dns.Opcode r =? 0 then Dns.RecursionDesired r else false)
            true
            (if Dns.Opcode r =? 0 then Dns.CheckingDisabled r else false)
            rcode
            (take 1 (Dns.Question_ r)) [] [] [].

(** The entries of [TypeToString] and [ClassToString] the examples use;
    a Go map yields the empty string for a key it does not have. *)
Definition example_TypeToString (t : Z) : string :=
  if t =? 1 then "A" else if t =? 28 then "AAAA" else if t =? 16 then "TXT" else "".

Definition example_ClassToString (c : Z) : string :=
  if c =? 1 then "IN" else "".

(** A query with one question. *)
Definition query (id : Z) (name : string) (qtype : Z) : Dns.Msg :=
  Dns.mkMsg id false 0 false true false false 0
            [Dns.mkQuestion name qtype Dns.ClassINET] [] [] [].

(** An upstream resolver whose every attempt failed. *)
Definition failing_upstream (question : Dns.Question) : Dns.Msg + Upstream.error :=
  inr (Upstream.ErrResolve (Dns.QName question) 4
         (Upstream.ErrExchange "1.1.1.1:53" "i/o timeout")).

(** The entry of a decoded snapshot for [key], if it has one. *)
Fixpoint find_entry (key : string) (entries : list Cache.SerializableCacheEntry)
  : option (Dns.Msg * Z) :=
  match entries with
  | [] => None
  | entry :: rest =>
      if String.eqb (Cache.SKey entry) key
      then Some (Cache.SResponse entry, Cache.SExpiresAt entry)
      else find_entry key rest
  end.

(** ** internal/upstream: the setters *)

Module UpstreamSetters.
Import Upstream.

(** [SetServers]: an empty list is ignored. *)
Definition SetServers (r : UpstreamResolver) (srvs : list string) : UpstreamResolver :=
  if Nat.eqb (length srvs) 0 then r else mkResolver srvs (retries r).

(** [GetServers]: a copy of the list. *)
Definition GetServers (r : UpstreamResolver) : list string := servers r.

(** [SetRetries]: a negative number is ignored. *)
Definition SetRetries (r : UpstreamResolver) (n : Z) : UpstreamResolver :=
  if n >=? 0 then mkResolver (servers r) n else r.

(** A call of one of the two setters. *)
Inductive setter :=
| CallSetServers (srvs : list string)
| CallSetRetries (n : Z).

Definition apply_setter (r : UpstreamResolver) (s : setter) : UpstreamResolver :=
  match s with
  | CallSetServers srvs => SetServers r srvs
  | CallSetRetries n => SetRetries r n
  end.

End UpstreamSetters.

(** The number of exchanges and the time slept in a trace. *)
Fixpoint exchange_count (evs : list Upstream.event) : nat :=
  match evs with
  | [] => O
  | Upstream.EvExchange _ :: rest => S (exchange_count rest)
  | Upstream.EvSleep _ :: rest => exchange_count rest
  end.

Fixpoint total_sleep (evs : list Upstream.event) : Z :=
  match evs with
  | [] => 0
  | Upstream.EvExchange _ :: rest => total_sleep rest
  | Upstream.EvSleep d :: rest => d + total_sleep rest
  end.

(** Two servers that both answer SERVFAIL, and a context that is done
    from the start. *)
Definition servfail_env : Upstream.env :=
  Upstream.mkEnv (fun _ _ => inl (Dns.set_Rcode 2 (answer_with_ttl 120))) (fun _ => false).

Definition cancelled_env : Upstream.env :=
  Upstream.mkEnv (fun _ _ => inl (answer_with_ttl 120)) (fun _ => true).

(** A sequence of operations without a restore, on a cache of
    capacity 2. *)
Definition busy_ops : list cache_op :=
  [OpSet "a.test.:A:IN" (answer_with_ttl 300) 0 (10 * Second);
   OpSet "b.test.:A:IN" (answer_with_ttl 60) (60 * Second) (20 * Second);
   OpGet "a.test.:A:IN" (30 * Second);
   OpSet "c.test.:A:IN" (answer_with_ttl 120) 0 (40 * Second);
   OpSweep (100 * Second);
   OpDelete "c.test.:A:IN";
   OpSet "d.test.:A:IN" (answer_with_ttl 120) 0 (110 * Second)].

(** A snapshot with three live entries of distinct keys. *)
Definition three_entries_snapshot : list Cache.SerializableCacheEntry :=
  [Cache.mkSEntry "a.test.:A:IN" (answer_with_ttl 300) (310 * Second);
   Cache.mkSEntry "b.test.:A:IN" (answer_with_ttl 60) (400 * Second);
   Cache.mkSEntry "c.test.:A:IN" (answer_with_ttl 120) (500 * Second)].

(** An upstream resolver that answers every question with one record of
    TTL 5. *)
Definition answering_upstream (question : Dns.Question) : Dns.Msg + Upstream.error :=
  inl (answer_with_ttl 5).

(** What a call of the local resolver comes to, apart from names: no
    return, a miss, or the payloads of the answer. *)
Definition payload (o : Resolver.outcome) : option (option (list Dns.RData)) :=
  match o with
  | Resolver.Overflow => None
  | Resolver.Done None => Some None
  | Resolver.Done (Some response) => Some (Some (map Dns.Data (Dns.Answer response)))
  end.

(** Records for an exact match of a CNAME and an MX without a trailing
    dot in the configured target. *)
Definition alias_records : Config.RecordsConfig :=
  Config.mkRecords ∅ ∅ {[ "www.example" := "host.example" ]}
                   {[ "example" := Config.mkMX 10 "mail.example" ]}
                   ∅ ∅ ∅ ∅ ∅ ∅ ∅ ∅ ∅ ∅ ∅ ∅ ∅.

(** ** internal/server: waiting for the listener *)

Module Server.

Definition maxAttempts : nat := 10.

(** The loop of [waitForServer], with [n] iterations left and [i] the
    loop variable: [dial i] tells whether the [i]-th [net.DialTimeout]
    succeeds.  The result is whether [nil] is returned, with the time
    spent in [time.Sleep]. *)
Fixpoint dial_loop (dial : nat -> bool) (n i : nat) (slept : Z) : bool * Z :=
  match n with
  | O => (true, slept)
  | S n' =>
      if dial i then (true, slept)
      else if Nat.eqb i (maxAttempts - 1) then (false, slept)
      else dial_loop dial n' (S i) (slept + 100 * Millisecond)
  end.

Definition waitForServer (dial : nat -> bool) : bool * Z :=
  dial_loop dial maxAttempts 0 0.

End Server.

(** A well-formed configuration file that sets a port and leaves the
    other options of [server] and [upstream.retries] out. *)
Definition config_with_port : Config.Config :=
  Config.mkConfig (Config.mkServer 5353 "" 0 0)
                  (Config.mkCacheConfig 500 (120 * Second) (30 * Second))
                  (Config.mkUpstream ["9.9.9.9:53"] (1 * Second) 0)
                  (Config.mkLogging "debug" "text")
                  Config.noRecords.

(** * Theorems *)

(** ** TTL extraction *)

Section TTLFacts.
Import Dns TTL.

Lemma minTTL_loop_le_init (rrs : list RR) (init : Z) :
  minTTL_loop init rrs <= init.
Proof.
  revert init. induction rrs as [|rr rrs IH]; intros init; simpl; [lia|].
  destruct (Z.ltb_spec (Ttl (Hdr rr)) init) as [Hlt|Hge].
  - specialize (IH (Ttl (Hdr rr))). lia.
  - apply IH.
Qed.

Lemma minTTL_loop_le_each (rrs : list RR) (init : Z) (rr : RR) :
  rr ∈ rrs -> minTTL_loop init rrs <= Ttl (Hdr rr).
Proof.
  revert init. induction rrs as [|x rrs IH]; intros init Hin.
  - inversion Hin.
  - simpl. apply elem_of_cons in Hin as [->|Hin].
    + destruct (Z.ltb_spec (Ttl (Hdr x)) init) as [Hlt|Hge].
      * apply minTTL_loop_le_init.
      * pose proof (minTTL_loop_le_init rrs init). lia.
    + apply IH, Hin.
Qed.

Lemma minTTL_loop_attained (rrs : list RR) (init : Z) :
  minTTL_loop init rrs = init \/
  exists rr, rr ∈ rrs /\ minTTL_loop init rrs = Ttl (Hdr rr).
Proof.
  revert init. induction rrs as [|x rrs IH]; intros init; simpl; [by left|].
  destruct (Z.ltb_spec (Ttl (Hdr x)) init) as [Hlt|Hge].
  - destruct (IH (Ttl (Hdr x))) as [E|(rr & Hin & E)].
    + right. exists x. split; [apply list_elem_of_here | exact E].
    + right. exists rr. split; [by apply list_elem_of_further | exact E].
  - destruct (IH init) as [E|(rr & Hin & E)].
    + by left.
    + right. exists rr. split; [by apply list_elem_of_further | exact E].
Qed.

Lemma minTTL_loop_min (rrs : list RR) (init m : Z) :
  is_min_ttl m rrs -> minTTL_loop init rrs = Z.min init m.
Proof.
  intros [(rr0 & Hin0 & E0) Hle].
  pose proof (minTTL_loop_le_init rrs init) as H1.
  pose proof (minTTL_loop_le_each rrs init rr0 Hin0) as H2.
  destruct (minTTL_loop_attained rrs init) as [E|(rr & Hin & E)].
  - lia.
  - specialize (Hle rr Hin). lia.
Qed.
End TTLFacts.

(** C1, as the code has it.  With an empty answer section the TTL is
    300 seconds; otherwise it is the minimum TTL of the answer records,
    capped from above by 3600 (the value the running minimum starts from)
    and raised to at least 60, in seconds. *)
Theorem extractTTL_capped_and_clamped (msg : Dns.Msg) :
  (Dns.Answer msg = [] -> TTL.extractTTL msg = 300 * Second) /\
  (forall m, is_min_ttl m (Dns.Answer msg) ->
     TTL.extractTTL msg = Z.max 60 (Z.min 3600 m) * Second).
Proof.
  split.
  - intros E. unfold TTL.extractTTL. by rewrite E.
  - intros m Hm. unfold TTL.extractTTL.
    destruct (Dns.Answer msg) as [|rr rrs] eqn:E.
    + destruct Hm as [(rr & Hin & _) _]. inversion Hin.
    + rewrite (minTTL_loop_min _ 3600 m Hm).
      destruct (Z.ltb_spec (Z.min 3600 m) 60); f_equal; lia.
Qed.

(** The instance of the theorem at a response whose only answer has TTL
    7200: the extracted TTL is 3600 seconds. *)
Lemma extractTTL_capped_and_clamped_witness :
  is_min_ttl 7200 (Dns.Answer (answer_with_ttl 7200)) /\
  TTL.extractTTL (answer_with_ttl 7200) = Z.max 60 (Z.min 3600 7200) * Second.
Proof.
  assert (H : is_min_ttl 7200 (Dns.Answer (answer_with_ttl 7200))).
  { split.
    - eexists. split; [apply list_elem_of_here | reflexivity].
    - intros rr Hin. apply list_elem_of_singleton in Hin. subst rr. simpl. lia. }
  split; [exact H|].
  exact (proj2 (extractTTL_capped_and_clamped (answer_with_ttl 7200)) 7200 H).
Defined.

(** C1 as stated fails: every answer record of this response has TTL
    7200 > 60, and the TTL extracted is not 7200 seconds. *)
Lemma extractTTL_large_ttl_not_kept :
  Dns.Answer (answer_with_ttl 7200) <> [] /\
  Forall (fun rr => Dns.Ttl (Dns.Hdr rr) = 7200) (Dns.Answer (answer_with_ttl 7200)) /\
  60 < 7200 /\
  TTL.extractTTL (answer_with_ttl 7200) <> 7200 * Second.
Proof.
  split; [discriminate|].
  split; [repeat constructor|].
  split; [lia|].
  vm_compute. discriminate.
Qed.

(** ** The upstream forwarder *)

Section UpstreamFacts.
Import Dns Upstream.

Lemma wrap64_small (z : Z) : - 2 ^ 63 <= z < 2 ^ 63 -> wrap64 z = z.
Proof.
  intros H. unfold wrap64. rewrite Z.mod_small; lia.
Qed.

Lemma backoff_exact (attempt : Z) :
  0 <= attempt < 92233720368 ->
  wrap64 (wrap64 (wrap64 (attempt + 1) * 100) * Millisecond)
  = (attempt + 1) * 100 * Millisecond.
Proof.
  intros H. unfold Millisecond.
  rewrite (wrap64_small (attempt + 1)) by lia.
  rewrite (wrap64_small ((attempt + 1) * 100)) by lia.
  rewrite wrap64_small; lia.
Qed.

Lemma final_Some (o : Msg + string) (m : Msg) :
  final o = Some m -> o = inl m /\ (Rcode m = 0 \/ Rcode m = 3).
Proof.
  destruct o as [m'|c]; simpl; [|discriminate].
  destruct (Z.eqb_spec (Rcode m') 0) as [E0|N0]; simpl.
  - intros [= <-]. auto.
  - destruct (Z.eqb_spec (Rcode m') 3) as [E3|N3]; [|discriminate].
    intros [= <-]. auto.
Qed.

(** One server: what [servers_loop] does with its first element when
    the context is live. *)
Lemma servers_loop_cons (e : env) (s : string) (rest : list string)
      (lastErr : option error) (w : world) :
  ctx_done e (polls w) = false ->
  servers_loop e (s :: rest) lastErr w =
  match final (exchange e (exchanges w) s) with
  | Some m => (Return (inl m), exchanged s (poll w))
  | None => servers_loop e rest (Some (recorded s (exchange e (exchanges w) s)))
                         (exchanged s (poll w))
  end.
Proof.
  intros Hctx. simpl. rewrite Hctx. unfold queryServer. simpl.
  destruct (exchange e (exchanges w) s) as [m|c]; simpl; [|reflexivity].
  unfold RcodeSuccess, RcodeNameError.
  destruct ((Rcode m =? 0) || (Rcode m =? 3)); reflexivity.
Qed.

Lemma servers_loop_spec (e : env) (srvs : list string) :
  (forall p, ctx_done e p = false) ->
  forall (lastErr : option error) (w : world),
  exists w',
    trace w' = trace w ++
               map EvExchange (match first_final e (exchanges w) srvs with
                               | Some (j, _) => take (S j) srvs
                               | None => srvs
                               end) /\
    servers_loop e srvs lastErr w =
      (match first_final e (exchanges w) srvs with
       | Some (_, m) => Return (inl m)
       | None => Next (last_recorded e (exchanges w) srvs lastErr)
       end, w') /\
    (first_final e (exchanges w) srvs = None ->
     exchanges w' = (exchanges w + length srvs)%nat).
Proof.
  intros Hctx. induction srvs as [|s rest IH]; intros lastErr w.
  - exists w. simpl. rewrite app_nil_r. repeat split. intros _. lia.
  - rewrite servers_loop_cons by apply Hctx. simpl first_final. simpl last_recorded.
    destruct (final (exchange e (exchanges w) s)) as [m|] eqn:Ef.
    + eexists. split; [|split; [reflexivity|discriminate]]. reflexivity.
    + destruct (IH (Some (recorded s (exchange e (exchanges w) s)))
                   (exchanged s (poll w))) as (w' & Ht & Hr & Hk).
      simpl in Ht, Hr, Hk. exists w'.
      destruct (first_final e (S (exchanges w)) rest) as [[j m]|] eqn:Eff.
      * split; [|split; [exact Hr|discriminate]].
        rewrite Ht, <- app_assoc. reflexivity.
      * split; [|split; [exact Hr|]].
        -- rewrite Ht, <- app_assoc. reflexivity.
        -- intros _. rewrite Hk by reflexivity. simpl. lia.
Qed.

Lemma first_final_bound (e : env) (sched : list string) :
  forall k j m, first_final e k sched = Some (j, m) -> (j < length sched)%nat.
Proof.
  induction sched as [|s rest IH]; intros k j m; simpl; [discriminate|].
  destruct (final (exchange e k s)).
  - intros [= <- _]. lia.
  - destruct (first_final e (S k) rest) as [[j' m']|] eqn:E; [|discriminate].
    intros [= <- _]. apply IH in E. lia.
Qed.

Lemma first_final_app (e : env) (l1 l2 : list string) :
  forall k,
  first_final e k (l1 ++ l2) =
  match first_final e k l1 with
  | Some x => Some x
  | None =>
      match first_final e (k + length l1) l2 with
      | Some (j, m) => Some ((length l1 + j)%nat, m)
      | None => None
      end
  end.
Proof.
  induction l1 as [|s rest IH]; intros k; simpl.
  - rewrite Nat.add_0_r. by destruct (first_final e k l2) as [[j m]|].
  - destruct (final (exchange e k s)); [reflexivity|].
    rewrite IH. destruct (first_final e (S k) rest) as [[j m]|]; [reflexivity|].
    replace (S k + length rest)%nat with (k + S (length rest))%nat by lia.
    by destruct (first_final e (k + S (length rest)) l2) as [[j m]|].
Qed.

Lemma last_recorded_app (e : env) (l1 l2 : list string) :
  forall k lastErr,
  last_recorded e k (l1 ++ l2) lastErr =
  last_recorded e (k + length l1) l2 (last_recorded e k l1 lastErr).
Proof.
  induction l1 as [|s rest IH]; intros k lastErr; simpl.
  - by rewrite Nat.add_0_r.
  - rewrite IH. f_equal. lia.
Qed.

Lemma upto_exchange_within (l : list string) (rest : list event) :
  forall j, (j < length l)%nat ->
  upto_exchange (S j) (map EvExchange l ++ rest) = map EvExchange (take (S j) l).
Proof.
  induction l as [|s l IH]; intros j Hj; simpl in *; [lia|].
  f_equal. destruct j as [|j].
  - by destruct (map EvExchange l ++ rest).
  - apply IH. lia.
Qed.

Lemma upto_exchange_beyond (l : list string) (rest : list event) (j : nat) :
  upto_exchange (length l + S j) (map EvExchange l ++ rest)
  = map EvExchange l ++ upto_exchange (S j) rest.
Proof.
  induction l as [|s l IH]; simpl; [reflexivity|]. by rewrite IH.
Qed.

Lemma attempts_loop_spec (e : env) (r : UpstreamResolver) :
  (forall p, ctx_done e p = false) ->
  retries r <= 92233720368 ->
  forall (n : nat) (attempt : Z) (lastErr : option error) (w : world),
  0 <= attempt ->
  exists w',
    attempts_loop e r n attempt lastErr w =
      (match first_final e (exchanges w) (concat (replicate n (servers r))) with
       | Some (_, m) => Return (inl m)
       | None => Next (last_recorded e (exchanges w)
                                     (concat (replicate n (servers r))) lastErr)
       end, w') /\
    trace w' = trace w ++
               match first_final e (exchanges w) (concat (replicate n (servers r))) with
               | Some (j, _) => upto_exchange (S j) (rounds r n attempt)
               | None => rounds r n attempt
               end.
Proof.
  intros Hctx Hret. induction n as [|n IH]; intros attempt lastErr w Hat.
  - exists w. simpl. by rewrite app_nil_r.
  - simpl replicate. simpl concat. simpl rounds. simpl attempts_loop.
    rewrite first_final_app, last_recorded_app.
    destruct (servers_loop_spec e (servers r) Hctx lastErr w) as (w1 & Ht1 & Hr1 & Hk1).
    rewrite Hr1.
    destruct (first_final e (exchanges w) (servers r)) as [[j m]|] eqn:Eff.
    + exists w1. split; [reflexivity|].
      rewrite Ht1. f_equal. symmetry. apply upto_exchange_within.
      eapply first_final_bound, Eff.
    + specialize (Hk1 eq_refl).
      set (lr := last_recorded e (exchanges w) (servers r) lastErr) in *.
      destruct (Z.ltb_spec attempt (retries r)) as [Hlt|Hge].
      * rewrite Hctx, backoff_exact by lia.
        set (w2 := slept ((attempt + 1) * 100 * Millisecond) (poll w1)).
        destruct (IH (attempt + 1) lr w2 ltac:(lia)) as (w' & Hr & Ht).
        assert (Ek : exchanges w2 = (exchanges w + length (servers r))%nat)
          by (subst w2; simpl; exact Hk1).
        rewrite Ek in Hr, Ht. exists w'. split.
        -- rewrite Hr.
           by destruct (first_final e (exchanges w + length (servers r))
                          (concat (replicate n (servers r)))) as [[j m]|].
        -- rewrite Ht. subst w2. simpl trace. rewrite Ht1.
           destruct (first_final e (exchanges w + length (servers r))
                       (concat (replicate n (servers r)))) as [[j m]|].
           ++ replace (S (length (servers r) + j)) with (length (servers r) + S j)%nat by lia.
              rewrite upto_exchange_beyond. simpl. by rewrite <- !app_assoc.
           ++ simpl. by rewrite <- !app_assoc.
      * destruct (IH (attempt + 1) lr w1 ltac:(lia)) as (w' & Hr & Ht).
        rewrite Hk1 in Hr, Ht. exists w'. split.
        -- rewrite Hr.
           by destruct (first_final e (exchanges w + length (servers r))
                          (concat (replicate n (servers r)))) as [[j m]|].
        -- rewrite Ht, Ht1.
           destruct (first_final e (exchanges w + length (servers r))
                       (concat (replicate n (servers r)))) as [[j m]|].
           ++ replace (S (length (servers r) + j)) with (length (servers r) + S j)%nat by lia.
              rewrite upto_exchange_beyond. simpl. by rewrite <- !app_assoc.
           ++ simpl. by rewrite <- !app_assoc.
Qed.

(** Whatever the context does, a response that a loop returns came out
    of an exchange and carries NOERROR or NXDOMAIN. *)
Lemma servers_loop_answer (e : env) (srvs : list string) :
  forall lastErr w m w',
  servers_loop e srvs lastErr w = (Return (inl m), w') ->
  exists k s, exchange e k s = inl m /\ (Rcode m = 0 \/ Rcode m = 3).
Proof.
  induction srvs as [|s rest IH]; intros lastErr w m w'; simpl; [discriminate|].
  destruct (ctx_done e (polls w)); [discriminate|].
  unfold queryServer. simpl.
  destruct (exchange e (exchanges w) s) as [m'|c] eqn:Ex; simpl.
  - unfold RcodeSuccess, RcodeNameError.
    destruct ((Rcode m' =? 0) || (Rcode m' =? 3)) eqn:Er.
    + intros [= <- _]. exists (exchanges w), s. split; [exact Ex|].
      apply orb_true_iff in Er. lia.
    + apply IH.
  - apply IH.
Qed.

Lemma attempts_loop_answer (e : env) (r : UpstreamResolver) :
  forall n attempt lastErr w m w',
  attempts_loop e r n attempt lastErr w = (Return (inl m), w') ->
  exists k s, exchange e k s = inl m /\ (Rcode m = 0 \/ Rcode m = 3).
Proof.
  induction n as [|n IH]; intros attempt lastErr w m w'; simpl; [discriminate|].
  destruct (servers_loop e (servers r) lastErr w) as [[res|lastErr'] w1] eqn:Es.
  - intros [= -> ->]. eapply servers_loop_answer, Es.
  - destruct (attempt <? retries r).
    + destruct (ctx_done e (polls w1)); [discriminate|]. apply IH.
    + apply IH.
Qed.
End UpstreamFacts.

(** C3.  A response the forwarder returns always comes out of an exchange
    and carries NOERROR or NXDOMAIN.  While the context is live (and
    [retries] is an [int] small enough for the back-off not to wrap): the
    servers are tried in the order of the schedule (the whole list, once
    per attempt); at the first final response the call returns it, and
    what has happened until then is the part of the full trace up to that
    exchange - sleeps of [(attempt+1) * 100 ms] stand between rounds only;
    without a final response everything in the full trace happens and the
    error wraps the last recorded error, or "all upstream servers failed"
    when nothing was recorded. *)
Theorem Resolve_failover_and_backoff
        (e : Upstream.env) (r : Upstream.UpstreamResolver) (question : Dns.Question) :
  (forall m, (Upstream.Resolve e r question).1 = inl m ->
     exists k s, Upstream.exchange e k s = inl m /\
                 (Dns.Rcode m = 0 \/ Dns.Rcode m = 3)) /\
  ((forall p, Upstream.ctx_done e p = false) ->
   - 2 ^ 63 <= Upstream.retries r <= 92233720368 ->
   match Upstream.first_final e 0 (Upstream.schedule r) with
   | Some (j, m) =>
       (Upstream.Resolve e r question).1 = inl m /\
       Upstream.trace (Upstream.Resolve e r question).2
       = Upstream.upto_exchange (S j) (Upstream.full_trace r)
   | None =>
       (Upstream.Resolve e r question).1
       = inr (Upstream.ErrResolve (Dns.QName question) (Upstream.retries r + 1)
                (default Upstream.ErrAllFailed
                   (Upstream.last_recorded e 0 (Upstream.schedule r) None))) /\
       Upstream.trace (Upstream.Resolve e r question).2 = Upstream.full_trace r
   end).
Proof.
  split.
  - intros m. unfold Upstream.Resolve.
    destruct (Upstream.attempts_loop e r (Z.to_nat (Upstream.retries r + 1)) 0 None
                                     Upstream.start) as [[res|lastErr] w] eqn:E.
    + simpl. intros ->. eapply attempts_loop_answer, E.
    + simpl. discriminate.
  - intros Hctx Hret. unfold Upstream.Resolve, Upstream.schedule, Upstream.full_trace.
    destruct (attempts_loop_spec e r Hctx (proj2 Hret)
                (Z.to_nat (Upstream.retries r + 1)) 0 None
                Upstream.start ltac:(lia)) as (w' & Hr & Ht).
    rewrite Hr. simpl Upstream.exchanges in *. simpl Upstream.trace in Ht.
    destruct (Upstream.first_final e 0
                (concat (replicate (Z.to_nat (Upstream.retries r + 1)) (Upstream.servers r))))
      as [[j m]|].
    + simpl. split; [reflexivity|exact Ht].
    + simpl. split; [|exact Ht].
      rewrite wrap64_small by lia.
      by destruct (Upstream.last_recorded e 0
                     (concat (replicate (Z.to_nat (Upstream.retries r + 1))
                                        (Upstream.servers r))) None).
Qed.

(** The theorem at the failover scenario: the first server is
    unreachable, the second answers on attempt 0; the answer is returned
    after exactly these two exchanges, without a sleep. *)
Lemma Resolve_failover_and_backoff_witness :
  (forall p, Upstream.ctx_done failover_env p = false) /\
  - 2 ^ 63 <= Upstream.retries failover_resolver <= 92233720368 /\
  (Upstream.Resolve failover_env failover_resolver (Dns.mkQuestion "example.com." 1 1)).1
  = inl (answer_with_ttl 120) /\
  Upstream.trace
    (Upstream.Resolve failover_env failover_resolver (Dns.mkQuestion "example.com." 1 1)).2
  = [Upstream.EvExchange "127.0.0.1:1"; Upstream.EvExchange "8.8.8.8:53"].
Proof.
  assert (H1 : forall p, Upstream.ctx_done failover_env p = false) by reflexivity.
  assert (H2 : - 2 ^ 63 <= Upstream.retries failover_resolver <= 92233720368)
    by (simpl; lia).
  split; [exact H1|]. split; [exact H2|].
  exact (proj2 (Resolve_failover_and_backoff failover_env failover_resolver
                  (Dns.mkQuestion "example.com." 1 1)) H1 H2).
Defined.

(** ** Strings *)

Section StringFacts.
Import GoStrings.

Lemma TrimSuffixDot_app_dot (s : string) : TrimSuffixDot (s +:+ ".") = s.
Proof.
  induction s as [|c t IH]; [reflexivity|].
  change (String c t +:+ ".") with (String c (t +:+ ".")).
  simpl. rewrite IH. by destruct t.
Qed.

Lemma lower_ascii_idem (c : ascii) : lower_ascii (lower_ascii c) = lower_ascii c.
Proof. by destruct c as [[] [] [] [] [] [] [] []]. Qed.

Lemma lower_ascii_dot (c : ascii) : Ascii.eqb (lower_ascii c) dot = Ascii.eqb c dot.
Proof. by destruct c as [[] [] [] [] [] [] [] []]. Qed.

Lemma ToLower_idem (s : string) : ToLower (ToLower s) = ToLower s.
Proof.
  induction s as [|c t IH]; simpl; [reflexivity|].
  by rewrite lower_ascii_idem, IH.
Qed.

Lemma ToLower_app (s t : string) : ToLower (s +:+ t) = ToLower s +:+ ToLower t.
Proof.
  induction s as [|c s IH]; simpl; [reflexivity|]. by rewrite IH.
Qed.

Lemma SplitDot_not_nil (s : string) : SplitDot s <> [].
Proof.
  induction s as [|c t IH]; simpl; [discriminate|].
  destruct (Ascii.eqb c dot); [discriminate|].
  destruct (SplitDot t); discriminate.
Qed.

Lemma SplitDot_ToLower (s : string) : SplitDot (ToLower s) = map ToLower (SplitDot s).
Proof.
  induction s as [|c t IH]; simpl; [reflexivity|].
  rewrite lower_ascii_dot, IH.
  destruct (Ascii.eqb c dot); [reflexivity|].
  pose proof (SplitDot_not_nil t). by destruct (SplitDot t).
Qed.

Lemma JoinDot_cons (p : string) (ps : list string) :
  ps <> [] -> JoinDot (p :: ps) = p +:+ "." +:+ JoinDot ps.
Proof. by destruct ps. Qed.

Lemma ToLower_JoinDot (ps : list string) :
  ToLower (JoinDot ps) = JoinDot (map ToLower ps).
Proof.
  induction ps as [|p ps IH]; [reflexivity|].
  destruct ps as [|q ps]; [reflexivity|].
  rewrite JoinDot_cons by discriminate.
  change (map ToLower (p :: q :: ps)) with (ToLower p :: map ToLower (q :: ps)).
  rewrite (JoinDot_cons (ToLower p)) by (simpl; discriminate).
  by rewrite !ToLower_app, IH.
Qed.

Lemma JoinDot_SplitDot (s : string) : JoinDot (SplitDot s) = s.
Proof.
  induction s as [|c t IH]; [reflexivity|]. simpl SplitDot.
  destruct (Ascii.eqb_spec c dot) as [->|Hne].
  - rewrite JoinDot_cons by apply SplitDot_not_nil. by rewrite IH.
  - pose proof (SplitDot_not_nil t).
    destruct (SplitDot t) as [|h r]; [done|].
    destruct r as [|h' r]; simpl in *; by rewrite <- IH.
Qed.

Lemma SplitDot_labels (s : string) : Forall label (SplitDot s).
Proof.
  induction s as [|c t IH]; simpl.
  - by constructor.
  - destruct (Ascii.eqb c dot) eqn:Ec.
    + constructor; [reflexivity|exact IH].
    + pose proof (SplitDot_not_nil t).
      destruct (SplitDot t) as [|h r]; [done|].
      inversion IH as [|? ? Hh Hr]; subst. constructor; [|exact Hr].
      unfold label in *. simpl. by rewrite Ec, Hh.
Qed.

Lemma SplitDot_label_dot (p s : string) :
  label p -> SplitDot (p +:+ "." +:+ s) = p :: SplitDot s.
Proof.
  revert s. induction p as [|c p IH]; intros s Hp; [reflexivity|].
  unfold label in Hp. simpl in Hp.
  change (String c p +:+ "." +:+ s) with (String c (p +:+ "." +:+ s)).
  simpl. destruct (Ascii.eqb c dot); [discriminate|].
  pose proof (SplitDot_not_nil p).
  destruct (SplitDot p) as [|h r] eqn:Esp; [done|].
  injection Hp as -> ->.
  by rewrite IH.
Qed.

Lemma SplitDot_JoinDot (ps : list string) :
  ps <> [] -> Forall label ps -> SplitDot (JoinDot ps) = ps.
Proof.
  induction ps as [|p ps IH]; intros Hne Hl; [done|].
  inversion Hl as [|? ? Hp Hps]; subst.
  destruct ps as [|q ps]; [exact Hp|].
  rewrite JoinDot_cons by discriminate.
  rewrite SplitDot_label_dot by exact Hp.
  by rewrite IH.
Qed.
End StringFacts.

(** ** The local resolver *)

Section ResolverFacts.
Import GoStrings Dns Config Resolver.

Variable ParseIP : string -> option IP.
Variable To4 To16 : IP -> option IP.
Variable records : RecordsConfig.

Lemma wildcards_cons (domain p : string) (ps : list string) :
  SplitDot domain = p :: ps ->
  wildcards domain
  = map (fun i => "*." +:+ JoinDot (drop i ps)) (seq 0 (S (length ps))).
Proof.
  intros E. unfold wildcards. rewrite E. reflexivity.
Qed.

Lemma wildcards_head (domain : string) :
  exists rest, wildcards domain = first_wildcard domain :: rest.
Proof.
  pose proof (SplitDot_not_nil domain) as Hne. unfold first_wildcard.
  destruct (SplitDot domain) as [|p ps] eqn:E; [done|].
  rewrite (wildcards_cons _ _ _ E). simpl. eauto.
Qed.

Lemma SplitDot_first_wildcard (domain : string) :
  SplitDot (first_wildcard domain)
  = "*" :: SplitDot (JoinDot (drop 1 (SplitDot domain))).
Proof.
  unfold first_wildcard.
  change ("*." +:+ ?s) with ("*" +:+ "." +:+ s).
  by apply SplitDot_label_dot.
Qed.

Lemma first_wildcard_idem (domain : string) :
  first_wildcard (first_wildcard domain) = first_wildcard domain.
Proof.
  unfold first_wildcard at 1. rewrite SplitDot_first_wildcard.
  simpl drop. rewrite drop_0. by rewrite JoinDot_SplitDot.
Qed.

Lemma first_wildcard_lower (domain : string) :
  ToLower domain = domain -> ToLower (first_wildcard domain) = first_wildcard domain.
Proof.
  intros E. unfold first_wildcard.
  rewrite ToLower_app, ToLower_JoinDot. simpl ToLower at 1.
  rewrite <- E at 2. rewrite SplitDot_ToLower.
  f_equal. f_equal. generalize (SplitDot domain). intros [|p ps]; reflexivity.
Qed.

(** The name of a wildcard question is normalized back to the
    wildcard. *)
Lemma normalize_wildcard (domain : string) :
  ToLower domain = domain ->
  ToLower (TrimSuffixDot (first_wildcard domain +:+ ".")) = first_wildcard domain.
Proof.
  intros E. rewrite TrimSuffixDot_app_dot. by apply first_wildcard_lower.
Qed.

(** The candidates of a wildcard are, as a set, the candidates of the
    name it was formed from. *)
Lemma hasWildcardMatch_first_wildcard (domain : string) (qtype : Z) :
  hasWildcardMatch records (first_wildcard domain) qtype
  = hasWildcardMatch records domain qtype.
Proof.
  unfold hasWildcardMatch.
  pose proof (SplitDot_not_nil domain) as Hne.
  pose proof (SplitDot_labels domain) as Hl.
  destruct (SplitDot domain) as [|p ps] eqn:E; [done|].
  rewrite (wildcards_cons _ _ _ E).
  pose proof (SplitDot_first_wildcard domain) as E'.
  generalize dependent (first_wildcard domain). intros w E'.
  rewrite E in E'. simpl drop in E'.
  destruct ps as [|q ps].
  - change (SplitDot w = ["*"; ""]) in E'.
    rewrite (wildcards_cons _ _ _ E'). simpl.
    by destruct (probe records qtype ("*." +:+ "")).
  - inversion Hl as [|? ? _ Hps]; subst.
    rewrite SplitDot_JoinDot in E' by done.
    by rewrite (wildcards_cons _ _ _ E').
Qed.

(** A record that [lookup] builds for one of the five types makes
    [probe] succeed. *)
Lemma lookup_probe (qtype : Z) (domain name : string) (rr : RR) :
  qtype ∈ wildcard_types ->
  lookup ParseIP To4 To16 records qtype domain name = Some rr ->
  probe records qtype domain = true.
Proof.
  intros Hin. unfold wildcard_types in Hin.
  repeat (apply elem_of_cons in Hin as [->|Hin]); [..|by apply elem_of_nil in Hin];
    unfold lookup, probe; simpl.
  - destruct (A records !! domain); [|discriminate]. intros _.
    apply bool_decide_eq_true. eauto.
  - destruct (AAAA records !! domain); [|discriminate]. intros _.
    apply bool_decide_eq_true. eauto.
  - destruct (CNAME records !! domain); [|discriminate]. intros _.
    apply bool_decide_eq_true. eauto.
  - destruct (MX records !! domain); [|discriminate]. intros _.
    apply bool_decide_eq_true. eauto.
  - destruct (TXT records !! domain); [|discriminate]. intros _.
    apply bool_decide_eq_true. eauto.
Qed.

Lemma probe_other_types (qtype : Z) (wildcard : string) :
  qtype ∉ wildcard_types -> probe records qtype wildcard = false.
Proof.
  intros Hn. unfold probe.
  destruct (Z.eqb_spec qtype TypeA) as [->|_]; [exfalso; apply Hn; set_solver|].
  destruct (Z.eqb_spec qtype TypeAAAA) as [->|_]; [exfalso; apply Hn; set_solver|].
  destruct (Z.eqb_spec qtype TypeCNAME) as [->|_]; [exfalso; apply Hn; set_solver|].
  destruct (Z.eqb_spec qtype TypeMX) as [->|_]; [exfalso; apply Hn; set_solver|].
  destruct (Z.eqb_spec qtype TypeTXT) as [->|_]; [exfalso; apply Hn; set_solver|].
  reflexivity.
Qed.

Lemma hasWildcardMatch_other_types (qtype : Z) (domain : string) :
  qtype ∉ wildcard_types -> hasWildcardMatch records domain qtype = false.
Proof.
  intros Hn. unfold hasWildcardMatch.
  induction (wildcards domain) as [|w ws IH]; [reflexivity|].
  simpl. by rewrite (probe_other_types _ _ Hn), IH.
Qed.
End ResolverFacts.

Section ResolveUnfold.
Import GoStrings Dns Config Resolver.

Variable ParseIP : string -> option IP.
Variable To4 To16 : IP -> option IP.
Variable records : RecordsConfig.

Lemma Resolve_miss (depth : nat) (question : Question) :
  lookup ParseIP To4 To16 records (Qtype question)
         (ToLower (TrimSuffixDot (QName question))) (QName question) = None ->
  Resolve ParseIP To4 To16 records (S depth) question
  = if hasWildcardMatch records (ToLower (TrimSuffixDot (QName question))) (Qtype question)
    then wildcard_loop (Resolve ParseIP To4 To16 records depth) question
                       (wildcards (ToLower (TrimSuffixDot (QName question))))
    else Done None.
Proof. intros E. simpl. rewrite E. reflexivity. Qed.

(** The question for the first wildcard candidate never gets an answer
    when its own lookup builds no record: the fallback of the nested
    [Resolve] asks the very same question again. *)
Lemma Resolve_first_wildcard_overflow (domain : string) (qtype qclass : Z) :
  ToLower domain = domain ->
  hasWildcardMatch records domain qtype = true ->
  lookup ParseIP To4 To16 records qtype (first_wildcard domain)
         (first_wildcard domain +:+ ".") = None ->
  forall depth,
    Resolve ParseIP To4 To16 records depth
            (mkQuestion (first_wildcard domain +:+ ".") qtype qclass) = Overflow.
Proof.
  intros Hlow Hhas Hmiss. induction depth as [|depth IH]; [reflexivity|].
  rewrite Resolve_miss; simpl QName; simpl Qtype;
    rewrite normalize_wildcard by exact Hlow; [|exact Hmiss].
  rewrite hasWildcardMatch_first_wildcard, Hhas.
  destruct (wildcards_head (first_wildcard domain)) as [rest ->].
  rewrite first_wildcard_idem. simpl. by rewrite IH.
Qed.
End ResolveUnfold.

(** C2, where the code departs from it.  When the exact lookup misses
    and some wildcard candidate is in the table, but the first candidate
    ([*.] followed by labels 1..end) builds no record, [Resolve] does not
    return, however deep the recursion may go: the nested [Resolve] for
    the first candidate falls back to the wildcard loop for that
    candidate, which asks for the same candidate again. *)
Theorem Resolve_later_wildcard_never_returns
        (ParseIP : string -> option Dns.IP) (To4 To16 : Dns.IP -> option Dns.IP)
        (records : Config.RecordsConfig) (question : Dns.Question) :
  let domain := GoStrings.ToLower (GoStrings.TrimSuffixDot (Dns.QName question)) in
  Resolver.lookup ParseIP To4 To16 records (Dns.Qtype question) domain
                  (Dns.QName question) = None ->
  Resolver.hasWildcardMatch records domain (Dns.Qtype question) = true ->
  Resolver.lookup ParseIP To4 To16 records (Dns.Qtype question) (first_wildcard domain)
                  (first_wildcard domain +:+ ".") = None ->
  forall depth,
    Resolver.Resolve ParseIP To4 To16 records depth question = Resolver.Overflow.
Proof.
  intros domain Hmiss Hhas Hfirst depth. destruct depth as [|depth]; [reflexivity|].
  rewrite Resolve_miss by exact Hmiss. fold domain. rewrite Hhas.
  destruct (wildcards_head domain) as [rest ->]. simpl.
  rewrite (Resolve_first_wildcard_overflow ParseIP To4 To16 records domain); try done.
  apply ToLower_idem.
Qed.

(** The theorem at the wildcard scenario of the specification: with
    [*.example A 192.0.2.7] configured, the query [deep.foo.example. A]
    never gets its answer. *)
Lemma Resolve_later_wildcard_never_returns_witness :
  Resolver.lookup example_ParseIP example_To4 example_To16 example_records Dns.TypeA
                  "deep.foo.example" "deep.foo.example." = None /\
  Resolver.hasWildcardMatch example_records "deep.foo.example" Dns.TypeA = true /\
  Resolver.lookup example_ParseIP example_To4 example_To16 example_records Dns.TypeA
                  "*.foo.example" "*.foo.example." = None /\
  Resolver.Resolve example_ParseIP example_To4 example_To16 example_records 1000
                   (Dns.mkQuestion "deep.foo.example." Dns.TypeA Dns.ClassINET)
  = Resolver.Overflow.
Proof.
  assert (H1 : Resolver.lookup example_ParseIP example_To4 example_To16 example_records
                 Dns.TypeA "deep.foo.example" "deep.foo.example." = None)
    by (vm_compute; reflexivity).
  assert (H2 : Resolver.hasWildcardMatch example_records "deep.foo.example" Dns.TypeA = true)
    by (vm_compute; reflexivity).
  assert (H3 : Resolver.lookup example_ParseIP example_To4 example_To16 example_records
                 Dns.TypeA "*.foo.example" "*.foo.example." = None)
    by (vm_compute; reflexivity).
  split; [exact H1|]. split; [exact H2|]. split; [exact H3|].
  exact (Resolve_later_wildcard_never_returns
           example_ParseIP example_To4 example_To16 example_records
           (Dns.mkQuestion "deep.foo.example." Dns.TypeA Dns.ClassINET) H1 H2 H3 1000%nat).
Defined.

(** ** Configuration loading *)

(** C4, where the code departs from it.  [Load] validates the decoded
    configuration before it fills in the defaults, so a well-formed file
    that omits [server.port] is rejected with "invalid server port: 0",
    although [setDefaults] would have set the port to 53. *)
Theorem Load_rejects_omitted_port
        (ParseIP : string -> option Dns.IP) (config : Config.Config) :
  Config.Port (Config.Server config) = 0 ->
  Config.Load ParseIP (Config.WellFormed config)
  = inr (Config.InvalidConfiguration (Config.InvalidPort 0)) /\
  Config.Port (Config.Server (Config.setDefaults config)) = 53.
Proof.
  intros E. unfold Config.Load, Config.validate, Config.setDefaults. simpl.
  rewrite E. simpl. split; reflexivity.
Qed.

Lemma Load_rejects_omitted_port_witness :
  Config.Port (Config.Server config_without_port) = 0 /\
  Config.Load example_ParseIP (Config.WellFormed config_without_port)
  = inr (Config.InvalidConfiguration (Config.InvalidPort 0)) /\
  Config.Port (Config.Server (Config.setDefaults config_without_port)) = 53.
Proof.
  split; [reflexivity|].
  apply (Load_rejects_omitted_port example_ParseIP config_without_port). reflexivity.
Defined.

(** ** The cache *)

Section ListFacts.
Import Cache.

Lemma existsb_eqb_elem (e : ref) (l : list ref) :
  existsb (Nat.eqb e) l = true <-> e ∈ l.
Proof.
  rewrite existsb_exists. split.
  - intros (x & Hin & Hx). apply Nat.eqb_eq in Hx. subst x.
    by apply list_elem_of_In.
  - intros Hin. exists e. split; [by apply list_elem_of_In|apply Nat.eqb_refl].
Qed.

Lemma Remove_not_elem (e : ref) (l : list ref) : e ∉ l -> Remove e l = l.
Proof.
  induction l as [|x l IH]; intros Hn; simpl; [reflexivity|].
  destruct (Nat.eqb_spec x e) as [->|Hne].
  - exfalso. apply Hn. apply list_elem_of_here.
  - f_equal. apply IH. intros Hin. apply Hn. by apply list_elem_of_further.
Qed.

Lemma Remove_elem (e x : ref) (l : list ref) :
  NoDup l -> x ∈ Remove e l <-> x ∈ l /\ x <> e.
Proof.
  induction l as [|y l IH]; intros Hnd; simpl.
  - split; [intros H; inversion H|intros [H _]; inversion H].
  - apply NoDup_cons in Hnd as [Hy Hnd].
    destruct (Nat.eqb_spec y e) as [->|Hne].
    + rewrite elem_of_cons. split.
      * intros Hin. split; [by right|]. intros ->. by apply Hy.
      * intros [[->|Hin] Hx]; done.
    + rewrite !elem_of_cons, IH by exact Hnd. split.
      * intros [->|[Hin Hx]]; split; auto.
      * intros [[->|Hin] Hx]; auto.
Qed.

Lemma Remove_NoDup (e : ref) (l : list ref) : NoDup l -> NoDup (Remove e l).
Proof.
  induction l as [|y l IH]; intros Hnd; simpl; [constructor|].
  pose proof Hnd as Hnd'. apply NoDup_cons in Hnd as [Hy Hnd].
  destruct (Nat.eqb_spec y e) as [->|Hne]; [exact Hnd|].
  apply NoDup_cons. split; [|by apply IH].
  rewrite Remove_elem by exact Hnd. intros [Hin _]. by apply Hy.
Qed.

Lemma Remove_length (e : ref) (l : list ref) :
  e ∈ l -> S (length (Remove e l)) = length l.
Proof.
  induction l as [|y l IH]; intros Hin; simpl; [inversion Hin|].
  destruct (Nat.eqb_spec y e) as [->|Hne]; [reflexivity|].
  simpl. f_equal. apply IH. apply elem_of_cons in Hin as [->|Hin]; done.
Qed.

Lemma Remove_last (e : ref) (front : list ref) :
  NoDup (front ++ [e]) -> Remove e (front ++ [e]) = front.
Proof.
  induction front as [|y front IH]; intros Hnd; simpl.
  - by rewrite Nat.eqb_refl.
  - simpl in Hnd. apply NoDup_cons in Hnd as [Hy Hnd].
    destruct (Nat.eqb_spec y e) as [->|Hne].
    + exfalso. apply Hy. apply elem_of_app. right. apply list_elem_of_here.
    + f_equal. by apply IH.
Qed.

Lemma Back_Some (l : list ref) (e : ref) :
  Back l = Some e -> exists front, l = front ++ [e].
Proof.
  unfold Back. intros H. apply last_Some in H. exact H.
Qed.

Lemma Back_None (l : list ref) : Back l = None -> l = [].
Proof. unfold Back. apply last_None. Qed.

Lemma MoveToFront_elem (e : ref) (l : list ref) :
  e ∈ l -> MoveToFront e l = e :: Remove e l.
Proof.
  intros Hin. unfold MoveToFront.
  by rewrite (proj2 (existsb_eqb_elem e l) Hin).
Qed.
End ListFacts.

Section CacheInvariant.
Import Dns Cache.

Lemma NewLRUCache_wf (capacity defaultTTL : Z) (h : heap) :
  0 < capacity -> cache_wf (NewLRUCache capacity defaultTTL) h.
Proof.
  intros Hcap. split; simpl.
  - exact Hcap.
  - constructor.
  - intros k e. rewrite lookup_empty. split; [discriminate|].
    intros [H _]. inversion H.
  - intros e H. inversion H.
  - lia.
Qed.

Lemma wf_heap_grow (c : LRUCache) (h h' : heap) :
  cache_wf c h -> (length h <= length h')%nat -> cache_wf c h'.
Proof.
  intros [H1 H2 H3 H4 H5] Hle. split; try done.
  intros e He. destruct (H4 e He). split; lia.
Qed.

Lemma wf_same_key (c : LRUCache) (h : heap) (e1 e2 : ref) :
  cache_wf c h -> e1 ∈ evictList c -> e2 ∈ evictList c ->
  Key (entry_at c e1) = Key (entry_at c e2) -> e1 = e2.
Proof.
  intros Hwf H1 H2 Hk.
  assert (items c !! Key (entry_at c e1) = Some e1) as A1
    by (apply (wf_map _ _ Hwf); auto).
  assert (items c !! Key (entry_at c e1) = Some e2) as A2
    by (apply (wf_map _ _ Hwf); auto).
  congruence.
Qed.

Lemma without_wf (c : LRUCache) (h : heap) (e : ref) :
  cache_wf c h -> e ∈ evictList c -> cache_wf (without e c) h.
Proof.
  intros Hwf He. pose proof Hwf as [H1 H2 H3 H4 H5]. split; simpl.
  - exact H1.
  - by apply Remove_NoDup.
  - intros k e'. change (entry_at (without e c) e') with (entry_at c e').
    rewrite lookup_delete_Some, H3, Remove_elem by exact H2. split.
    + intros (Hk & Hin & Hkey). repeat split; try done. intros ->. by apply Hk.
    + intros ((Hin & Hne) & Hkey). repeat split; try done.
      intros Hk. apply Hne. apply (wf_same_key c h); try done. congruence.
  - intros e' He'. apply Remove_elem in He' as [He' _]; [|exact H2].
    apply (H4 e' He').
  - pose proof (Remove_length e _ He). lia.
Qed.

Lemma MoveToFront_wf (c : LRUCache) (h : heap) (e : ref) :
  cache_wf c h -> cache_wf (with_list (MoveToFront e (evictList c)) c) h.
Proof.
  intros Hwf. pose proof Hwf as [H1 H2 H3 H4 H5].
  destruct (decide (e ∈ evictList c)) as [He|Hn].
  - rewrite MoveToFront_elem by exact He.
    assert (Hiff : forall x, x ∈ e :: Remove e (evictList c) <-> x ∈ evictList c).
    { intros x. rewrite elem_of_cons, Remove_elem by exact H2. split.
      - intros [->|[Hx _]]; done.
      - intros Hx. destruct (decide (x = e)); auto. }
    split; simpl.
    + exact H1.
    + apply NoDup_cons. split; [|by apply Remove_NoDup].
      rewrite Remove_elem by exact H2. intros [_ Hne]. by apply Hne.
    + intros k e'. change (entry_at (with_list _ c) e') with (entry_at c e').
      rewrite Hiff. apply H3.
    + intros e' He'. apply Hiff in He'. apply (H4 e' He').
    + pose proof (Remove_length e _ He). lia.
  - unfold MoveToFront.
    destruct (existsb (Nat.eqb e) (evictList c)) eqn:Ex.
    + apply existsb_eqb_elem in Ex. done.
    + by destruct c.
Qed.

Lemma entry_at_push_old (c : LRUCache) (entry : CacheEntry) (e : ref) :
  (e < length (objects c))%nat -> entry_at (push_new entry c) e = entry_at c e.
Proof.
  intros Hlt. unfold entry_at, push_new. simpl. by rewrite lookup_app_l.
Qed.

Lemma entry_at_push_new (c : LRUCache) (entry : CacheEntry) :
  entry_at (push_new entry c) (length (objects c)) = entry.
Proof.
  unfold entry_at, push_new. simpl.
  rewrite lookup_app_r by lia. by rewrite Nat.sub_diag.
Qed.

Lemma push_new_wf (c : LRUCache) (h : heap) (entry : CacheEntry) :
  cache_wf c h ->
  items c !! Key entry = None ->
  (Response entry < length h)%nat ->
  Z.of_nat (length (evictList c)) < capacity c ->
  cache_wf (push_new entry c) h.
Proof.
  intros Hwf Hnone Hresp Hroom. pose proof Hwf as [H1 H2 H3 H4 H5].
  assert (Hfresh : length (objects c) ∉ evictList c).
  { intros Hin. apply H4 in Hin. lia. }
  split.
  - exact H1.
  - simpl. apply NoDup_cons. done.
  - intros k e. simpl items. simpl evictList. rewrite elem_of_cons.
    destruct (decide (e = length (objects c))) as [->|Hne].
    + rewrite entry_at_push_new. split.
      * intros Hl. apply lookup_insert_Some in Hl as [[<- _]|[_ Hl]]; [auto|].
        apply H3 in Hl as [Hin _]. done.
      * intros [_ <-]. apply lookup_insert_eq.
    + split.
      * intros Hl. apply lookup_insert_Some in Hl as [[_ <-]|[Hk Hl]]; [done|].
        apply H3 in Hl as [Hin Hkey]. rewrite entry_at_push_old by (apply H4; done).
        auto.
      * intros [[->|Hin] Hkey]; [done|].
        rewrite entry_at_push_old in Hkey by (apply H4; done).
        rewrite lookup_insert_ne.
        -- apply H3. auto.
        -- intros <-. assert (items c !! Key entry = Some e) as A by (apply H3; auto).
           congruence.
  - intros e. simpl evictList. simpl objects. rewrite elem_of_cons, length_app. simpl.
    intros [->|Hin].
    + rewrite entry_at_push_new. split; lia.
    + destruct (H4 e Hin). rewrite entry_at_push_old by done. split; lia.
  - simpl. lia.
Qed.
End CacheInvariant.

Section CacheMethods.
Import Dns Cache.

Lemma Delete_hit (c : LRUCache) (h : heap) (key : string) (e : ref) :
  cache_wf c h -> items c !! key = Some e -> Delete c key = without e c.
Proof.
  intros Hwf Hl. unfold Delete, without. rewrite Hl.
  apply (wf_map _ _ Hwf) in Hl as [_ ->]. reflexivity.
Qed.

Lemma Delete_wf (c : LRUCache) (h : heap) (key : string) :
  cache_wf c h -> cache_wf (Delete c key) h.
Proof.
  intros Hwf. destruct (items c !! key) as [e|] eqn:Hl.
  - rewrite (Delete_hit c h key e) by done. apply without_wf; [done|].
    by apply (wf_map _ _ Hwf) in Hl as [Hin _].
  - unfold Delete. by rewrite Hl.
Qed.

Lemma removeOldest_back (c : LRUCache) (e : ref) :
  Back (evictList c) = Some e -> removeOldest c = without e c.
Proof. intros H. unfold removeOldest. by rewrite H. Qed.

Lemma Clear_wf (c : LRUCache) (h : heap) : cache_wf c h -> cache_wf (Clear c) h.
Proof.
  intros [H1 H2 H3 H4 H5]. split; simpl.
  - exact H1.
  - constructor.
  - intros k e. rewrite lookup_empty. split; [discriminate|].
    intros [H _]. inversion H.
  - intros e H. inversion H.
  - lia.
Qed.

(** Making room: what the capacity check before an insertion leaves. *)
Lemma make_room (c : LRUCache) (h : heap) :
  cache_wf c h ->
  let c1 := if Z.of_nat (length (evictList c)) >=? capacity c
            then removeOldest c else c in
  cache_wf c1 h /\
  Z.of_nat (length (evictList c1)) < capacity c1 /\
  (forall k, items c !! k = None -> items c1 !! k = None).
Proof.
  intros Hwf. pose proof Hwf as [H1 H2 H3 H4 H5].
  destruct (Z.geb_spec (Z.of_nat (length (evictList c))) (capacity c)) as [Hfull|Hroom];
    simpl.
  - destruct (Back (evictList c)) as [e|] eqn:Hb.
    + rewrite (removeOldest_back c e Hb).
      destruct (Back_Some _ _ Hb) as [front Hfront].
      assert (He : e ∈ evictList c).
      { rewrite Hfront. apply elem_of_app. right. apply list_elem_of_here. }
      split; [by apply without_wf|]. split.
      * simpl. pose proof (Remove_length e _ He). lia.
      * intros k Hk. simpl. apply lookup_delete_None. by right.
    + exfalso. apply Back_None in Hb. rewrite Hb in Hfull. simpl in Hfull. lia.
  - split; [exact Hwf|]. split; [lia|done].
Qed.

Lemma entry_at_update (c : LRUCache) (e e' : ref) (entry : CacheEntry) :
  (e < length (objects c))%nat ->
  entry_at (with_objects (<[e := entry]> (objects c)) c) e'
  = if decide (e' = e) then entry else entry_at c e'.
Proof.
  intros Hlt. unfold entry_at. simpl. destruct (decide (e' = e)) as [->|Hne].
  - by rewrite list_lookup_insert_eq.
  - by rewrite list_lookup_insert_ne.
Qed.

Lemma update_wf (c : LRUCache) (h : heap) (e : ref) (entry : CacheEntry) :
  cache_wf c h -> e ∈ evictList c ->
  Key entry = Key (entry_at c e) -> (Response entry < length h)%nat ->
  cache_wf (with_objects (<[e := entry]> (objects c)) c) h.
Proof.
  intros Hwf He Hkey Hresp. pose proof Hwf as [H1 H2 H3 H4 H5].
  destruct (H4 e He) as [Hlt _].
  assert (Hk : forall e', Key (entry_at (with_objects (<[e := entry]> (objects c)) c) e')
                          = Key (entry_at c e')).
  { intros e'. rewrite entry_at_update by done. case_decide; by subst. }
  split; simpl; try done.
  - intros k e'. rewrite Hk. apply H3.
  - intros e' He'. rewrite length_insert. destruct (H4 e' He') as [A B].
    split; [done|]. rewrite entry_at_update by done. by case_decide.
Qed.

Lemma Set_wf (c : LRUCache) (h : heap) (key : string) (response : loc) (ttl now : Z) :
  cache_wf c h ->
  cache_wf (Set_ c h key response ttl now).1 (Set_ c h key response ttl now).2.
Proof.
  intros Hwf. unfold Set_, Copy, alloc.
  destruct (items c !! key) as [e|] eqn:Hl; simpl.
  - pose proof Hl as Hl'. apply (wf_map _ _ Hwf) in Hl' as [He Hkey].
    apply (update_wf (with_list (MoveToFront e (evictList c)) c)).
    + apply MoveToFront_wf. eapply wf_heap_grow; [exact Hwf|]. rewrite length_app. lia.
    + simpl. rewrite MoveToFront_elem by done. apply list_elem_of_here.
    + reflexivity.
    + simpl. rewrite length_app. simpl. lia.
  - destruct (make_room c h Hwf) as (Hwf1 & Hroom & Hnone). simpl in *.
    apply push_new_wf.
    + eapply wf_heap_grow; [exact Hwf1|]. rewrite length_app. lia.
    + simpl. by apply Hnone.
    + simpl. rewrite length_app. simpl. lia.
    + exact Hroom.
Qed.

Lemma Get_wf (c : LRUCache) (h : heap) (key : string) (now : Z) :
  cache_wf c h ->
  cache_wf (Get c h key now).1.2 (Get c h key now).2.
Proof.
  intros Hwf. unfold Get, Copy, alloc.
  destruct (items c !! key) as [e|] eqn:Hl; simpl; [|done].
  destruct (now >? ExpiresAt (entry_at c e)); simpl.
  - by apply Delete_wf.
  - apply MoveToFront_wf. eapply wf_heap_grow; [exact Hwf|]. rewrite length_app. lia.
Qed.
End CacheMethods.

Section HeapFacts.
Import Dns Cache.

Lemma deref_alloc_new (h : heap) (m : Msg) : deref (h ++ [m]) (length h) = m.
Proof.
  unfold deref. rewrite lookup_app_r by lia. by rewrite Nat.sub_diag.
Qed.

Lemma deref_alloc_old (h : heap) (m : Msg) (l : loc) :
  (l < length h)%nat -> deref (h ++ [m]) l = deref h l.
Proof. intros Hl. unfold deref. by rewrite lookup_app_l. Qed.

Lemma deref_store_other (h : heap) (l l' : loc) (m : Msg) :
  l <> l' -> deref (store h l m) l' = deref h l'.
Proof. intros Hne. unfold deref, store. by rewrite list_lookup_insert_ne. Qed.

Lemma deref_store_same (h : heap) (l : loc) (m : Msg) :
  (l < length h)%nat -> deref (store h l m) l = m.
Proof. intros Hl. unfold deref, store. by rewrite list_lookup_insert_eq. Qed.
End HeapFacts.

(** C6.  In a cache that satisfies the invariants of the data model,
    [Set] stores a copy of the response at a new location (the heap only
    grows by this copy), under [key], expiring at [now + ttl], with the
    default TTL when [ttl] is 0.  If the key exists, the map keeps its
    entries and the list its elements, the entry of the key moving to the
    front.  If the key is new and the list has reached the capacity, the
    element at the back of the list and the map entry of its key - one
    and the same entry - go, and the new entry is put in front.  If the
    key is new and there is room, nothing goes. *)
Theorem Set_stores_copy_and_evicts_lru
        (c : Cache.LRUCache) (h : Cache.heap) (key : string) (response : Cache.loc)
        (ttl now : Z) :
  cache_wf c h ->
  let ttl' := if ttl =? 0 then Cache.defaultTTL c else ttl in
  let c' := (Cache.Set_ c h key response ttl now).1 in
  let h' := (Cache.Set_ c h key response ttl now).2 in
  h' = h ++ [Cache.deref h response] /\
  (exists e, Cache.items c' !! key = Some e /\
             Cache.entry_at c' e = Cache.mkEntry key (length h) (now + ttl')) /\
  cached c' h' key = Some (Cache.deref h response, now + ttl') /\
  (forall e, Cache.items c !! key = Some e ->
     Cache.items c' = Cache.items c /\
     Cache.evictList c' = e :: Cache.Remove e (Cache.evictList c) /\
     length (Cache.evictList c') = length (Cache.evictList c) /\
     forall e', e' <> e -> Cache.entry_at c' e' = Cache.entry_at c e') /\
  (Cache.items c !! key = None ->
   Cache.capacity c <= Z.of_nat (length (Cache.evictList c)) ->
   exists front lru,
     Cache.evictList c = front ++ [lru] /\
     Cache.items c !! Cache.Key (Cache.entry_at c lru) = Some lru /\
     Cache.evictList c' = length (Cache.objects c) :: front /\
     Cache.items c'
     = <[key := length (Cache.objects c)]>
         (delete (Cache.Key (Cache.entry_at c lru)) (Cache.items c))) /\
  (Cache.items c !! key = None ->
   Z.of_nat (length (Cache.evictList c)) < Cache.capacity c ->
   Cache.evictList c' = length (Cache.objects c) :: Cache.evictList c /\
   Cache.items c' = <[key := length (Cache.objects c)]> (Cache.items c)).
Proof.
  intros Hwf ttl' c' h'. pose proof Hwf as [H1 H2 H3 H4 H5].
  subst c' h'. unfold Cache.Set_, Cache.Copy, Cache.alloc. fold ttl'.
  destruct (Cache.items c !! key) as [e|] eqn:Hl; simpl.
  - pose proof Hl as Hl'. apply H3 in Hl' as [He Hkey]. destruct (H4 e He) as [Hlt _].
    assert (Hat : Cache.entry_at
                    (Cache.with_objects
                       (<[e := Cache.mkEntry (Cache.Key (Cache.entry_at c e)) (length h)
                                             (now + ttl')]> (Cache.objects c))
                       (Cache.with_list (Cache.MoveToFront e (Cache.evictList c)) c)) e
                  = Cache.mkEntry key (length h) (now + ttl')).
    { rewrite <- Hkey.
      rewrite (entry_at_update (Cache.with_list _ c)) by exact Hlt. by case_decide. }
    split; [reflexivity|]. split; [exists e; split; [exact Hl|exact Hat]|]. split.
    { unfold cached. simpl. rewrite Hl, Hat. simpl. by rewrite deref_alloc_new. }
    split; [|split; discriminate].
    intros e0 [= <-]. split; [reflexivity|].
    rewrite MoveToFront_elem by exact He. split; [reflexivity|]. split.
    + simpl. by rewrite Remove_length.
    + intros e' Hne.
      rewrite (entry_at_update (Cache.with_list _ c)) by exact Hlt. by case_decide.
  - destruct (make_room c h Hwf) as (Hwf1 & Hroom & Hnone). simpl in Hwf1, Hroom, Hnone.
    set (c1 := if Z.of_nat (length (Cache.evictList c)) >=? Cache.capacity c
               then Cache.removeOldest c else c) in *.
    assert (Hobj : Cache.objects c1 = Cache.objects c).
    { subst c1. destruct (Z.of_nat (length (Cache.evictList c)) >=? Cache.capacity c);
        [|reflexivity].
      unfold Cache.removeOldest. by destruct (Cache.Back (Cache.evictList c)). }
    split; [reflexivity|]. split.
    { exists (length (Cache.objects c1)). split; [apply lookup_insert_eq|].
      apply entry_at_push_new. }
    split.
    { unfold cached. simpl. rewrite lookup_insert_eq.
      change (Cache.entry_at ?x (length (Cache.objects c1)))
        with (Cache.entry_at (Cache.push_new (Cache.mkEntry key (length h) (now + ttl')) c1)
                             (length (Cache.objects c1))).
      rewrite entry_at_push_new. simpl. by rewrite deref_alloc_new. }
    split; [discriminate|]. split.
    + intros _ Hfull. subst c1.
      destruct (Z.geb_spec (Z.of_nat (length (Cache.evictList c))) (Cache.capacity c))
        as [_|Hlt]; [|lia].
      destruct (Cache.Back (Cache.evictList c)) as [lru|] eqn:Hb.
      * destruct (Back_Some _ _ Hb) as [front Hfront]. exists front, lru.
        assert (Hin : lru ∈ Cache.evictList c).
        { rewrite Hfront. apply elem_of_app. right. apply list_elem_of_here. }
        split; [exact Hfront|]. split; [apply H3; auto|].
        rewrite (removeOldest_back c lru Hb). simpl. split; [|reflexivity].
        f_equal. rewrite Hfront. apply Remove_last. by rewrite <- Hfront.
      * apply Back_None in Hb. rewrite Hb in Hfull. simpl in Hfull. lia.
    + intros _ Hlt. subst c1.
      destruct (Z.geb_spec (Z.of_nat (length (Cache.evictList c))) (Cache.capacity c))
        as [Hfull|_]; [lia|].
      split; reflexivity.
Qed.

Lemma two_entries_wf : cache_wf two_entries.1 two_entries.2.
Proof.
  unfold two_entries, one_entry. do 2 apply Set_wf.
  apply NewLRUCache_wf. lia.
Qed.

(** The theorem at the full cache [two_entries]: a third key, set at
    30 s with TTL 0, is stored with the default TTL of 300 s. *)
Lemma Set_stores_copy_and_evicts_lru_witness :
  cache_wf two_entries.1 two_entries.2 /\
  cached (Cache.Set_ two_entries.1 two_entries.2 "c.test.:A:IN" 0%nat 0 (30 * Second)).1
         (Cache.Set_ two_entries.1 two_entries.2 "c.test.:A:IN" 0%nat 0 (30 * Second)).2
         "c.test.:A:IN"
  = Some (answer_with_ttl 300, 330 * Second).
Proof.
  split; [exact two_entries_wf|].
  exact (proj1 (proj2 (proj2 (Set_stores_copy_and_evicts_lru
                                two_entries.1 two_entries.2 "c.test.:A:IN" 0%nat 0
                                (30 * Second) two_entries_wf)))).
Defined.

(** C7.  In a cache that satisfies the invariants of the data model:
    [Get] of an absent key reports a miss and changes nothing; [Get] of a
    key whose entry has expired reports a miss and removes that entry
    from the list and the map, leaving the other keys alone; [Get] of a
    key whose entry has not expired returns a new location holding a copy
    of the stored response and moves the entry to the front of the list,
    and whatever the caller then writes to the returned location, the
    cache holds for every key what it held before. *)
Theorem Get_copy_recency_and_expiry
        (c : Cache.LRUCache) (h : Cache.heap) (key : string) (now : Z) :
  cache_wf c h ->
  (Cache.items c !! key = None -> Cache.Get c h key now = (None, c, h)) /\
  (forall e, Cache.items c !! key = Some e ->
     now > Cache.ExpiresAt (Cache.entry_at c e) ->
     Cache.Get c h key now = (None, without e c, h) /\
     Cache.items (without e c) !! key = None /\
     (e ∉ Cache.evictList (without e c)) /\
     (forall k, k <> key -> Cache.items (without e c) !! k = Cache.items c !! k)) /\
  (forall e, Cache.items c !! key = Some e ->
     now <= Cache.ExpiresAt (Cache.entry_at c e) ->
     Cache.Get c h key now
     = (Some (length h),
        Cache.with_list (e :: Cache.Remove e (Cache.evictList c)) c,
        h ++ [Cache.deref h (Cache.Response (Cache.entry_at c e))]) /\
     (forall m k,
        cached (Cache.with_list (e :: Cache.Remove e (Cache.evictList c)) c)
               (Cache.store (h ++ [Cache.deref h (Cache.Response (Cache.entry_at c e))])
                            (length h) m) k
        = cached c h k)).
Proof.
  intros Hwf. pose proof Hwf as [H1 H2 H3 H4 H5]. split; [|split].
  - intros Hl. unfold Cache.Get. by rewrite Hl.
  - intros e Hl Hexp. pose proof Hl as Hl'. apply H3 in Hl' as [He Hkey].
    split; [|split; [|split]].
    + unfold Cache.Get. rewrite Hl.
      destruct (Z.gtb_spec now (Cache.ExpiresAt (Cache.entry_at c e))); [|lia].
      by rewrite (Delete_hit c h key e).
    + simpl. rewrite Hkey. apply lookup_delete_eq.
    + simpl. rewrite Remove_elem by exact H2. intros [_ Hne]. by apply Hne.
    + intros k Hk. simpl. rewrite Hkey. by apply lookup_delete_ne.
  - intros e Hl Hlive. pose proof Hl as Hl'. apply H3 in Hl' as [He Hkey]. split.
    + unfold Cache.Get, Cache.Copy, Cache.alloc. rewrite Hl.
      destruct (Z.gtb_spec now (Cache.ExpiresAt (Cache.entry_at c e))); [lia|].
      by rewrite MoveToFront_elem.
    + intros m k. unfold cached. simpl.
      destruct (Cache.items c !! k) as [e'|] eqn:Hk; [|reflexivity].
      change (Cache.entry_at (Cache.with_list _ c) e') with (Cache.entry_at c e').
      apply H3 in Hk as [He' _]. destruct (H4 e' He') as [_ Hresp].
      rewrite deref_store_other by lia. by rewrite deref_alloc_old.
Qed.

(** The theorem at the cache [two_entries]: the older key is read at
    30 s, before its expiry at 310 s; the copy is at the new location 4
    and the entry moves in front of the other one. *)
Lemma Get_copy_recency_and_expiry_witness :
  cache_wf two_entries.1 two_entries.2 /\
  Cache.items two_entries.1 !! "a.test.:A:IN" = Some 0%nat /\
  30 * Second <= Cache.ExpiresAt (Cache.entry_at two_entries.1 0%nat) /\
  Cache.Get two_entries.1 two_entries.2 "a.test.:A:IN" (30 * Second)
  = (Some 4%nat, Cache.with_list [0%nat; 1%nat] two_entries.1,
     two_entries.2 ++ [answer_with_ttl 300]).
Proof.
  assert (Hl : Cache.items two_entries.1 !! "a.test.:A:IN" = Some 0%nat)
    by (vm_compute; reflexivity).
  assert (Hlive : 30 * Second <= Cache.ExpiresAt (Cache.entry_at two_entries.1 0%nat))
    by (vm_compute; discriminate).
  split; [exact two_entries_wf|]. split; [exact Hl|]. split; [exact Hlive|].
  exact (proj1 (proj2 (proj2 (Get_copy_recency_and_expiry
                                two_entries.1 two_entries.2 "a.test.:A:IN" (30 * Second)
                                two_entries_wf)) 0%nat Hl Hlive)).
Defined.

(** C8, where the code departs from it.  [LoadFromFile] pushes every
    live entry of the file to the list without looking whether the map
    already has the key, as [Set] does.  A cache of capacity 2 holds one
    response without records; [DumpToFile] writes it through
    [encoding/gob], and the cache then loads its own snapshot.  It has
    one key in the map and two elements in the list; the next [Set] of a
    new key evicts the stale element and with it deletes the live key
    from the map, while the element of that key stays in the list. *)
Theorem restore_breaks_list_map_agreement :
  own_snapshot
  = Some [Cache.mkSEntry "gone.test.:A:IN" nxdomain_reply (310 * Second)] /\
  Cache.Size cache_before_restore.1 = 1 /\
  length (Cache.evictList cache_before_restore.1) = 1%nat /\
  Cache.Size cache_after_restore.1 = 1 /\
  length (Cache.evictList cache_after_restore.1) = 2%nat /\
  ~ list_matches_map cache_after_restore.1 /\
  Cache.items cache_after_restore_and_set.1 !! "gone.test.:A:IN" = None /\
  Cache.evictList cache_after_restore_and_set.1 = [2%nat; 1%nat] /\
  Cache.Key (Cache.entry_at cache_after_restore_and_set.1 1%nat) = "gone.test.:A:IN" /\
  ~ list_matches_map cache_after_restore_and_set.1.
Proof.
  assert (E1 : Cache.items cache_after_restore.1 = {[ "gone.test.:A:IN" := 1%nat ]})
    by (vm_compute; reflexivity).
  assert (E2 : Cache.items cache_after_restore_and_set.1 = {[ "b.test.:A:IN" := 2%nat ]})
    by (vm_compute; reflexivity).
  assert (L1 : Cache.evictList cache_after_restore.1 = [1%nat; 0%nat])
    by (vm_compute; reflexivity).
  assert (L2 : Cache.evictList cache_after_restore_and_set.1 = [2%nat; 1%nat])
    by (vm_compute; reflexivity).
  split; [vm_compute; reflexivity|].
  split; [vm_compute; reflexivity|].
  split; [vm_compute; reflexivity|].
  split; [vm_compute; reflexivity|].
  split; [by rewrite L1|].
  split.
  { intros H. destruct (proj1 (H 0%nat)) as [k Hk].
    - rewrite L1. apply list_elem_of_further, list_elem_of_here.
    - rewrite E1 in Hk. apply lookup_singleton_Some in Hk as [_ Hk]. discriminate. }
  split; [by rewrite E2|].
  split; [exact L2|].
  split; [vm_compute; reflexivity|].
  intros H. destruct (proj1 (H 1%nat)) as [k Hk].
  - rewrite L2. apply list_elem_of_further, list_elem_of_here.
  - rewrite E2 in Hk. apply lookup_singleton_Some in Hk as [_ Hk]. discriminate.
Qed.

(** ** The request handler *)

Section HandlerFacts.
Import Dns Cache Resolver Handler.

Lemma isSupportedType_spec (qtype : Z) :
  isSupportedType qtype = true <-> qtype ∈ supported_types.
Proof.
  unfold isSupportedType. rewrite existsb_exists. split.
  - intros (x & Hin & Hx). apply Z.eqb_eq in Hx. subst x.
    apply list_elem_of_In in Hin. revert Hin. unfold supported_types.
    rewrite !elem_of_cons. unfold TypeA, TypeAAAA, TypeCNAME, TypeMX, TypeTXT, TypeNS,
      TypeSOA, TypePTR, TypeHTTPS, TypeCAA, TypeSRV, TypeSVCB, TypeDS, TypeDNSKEY,
      TypeURI, TypeNAPTR, TypeSSHFP, TypeTLSA, TypeSMIMEA, TypeCERT. tauto.
  - intros Hin. exists qtype. split; [|apply Z.eqb_refl].
    apply list_elem_of_In. exact Hin.
Qed.

(** A miss of [Get] allocates nothing and adds nothing to the cache. *)
Lemma Get_miss_adds_nothing (c : LRUCache) (h : heap) (key : string) (now : Z) :
  (Get c h key now).1.1 = None ->
  (Get c h key now).2 = h /\
  items (Get c h key now).1.2 ⊆ items c /\
  evictList (Get c h key now).1.2 ⊆ evictList c.
Proof.
  unfold Get, Copy, alloc.
  destruct (items c !! key) as [e|] eqn:Hl; simpl; [|done].
  destruct (now >? ExpiresAt (entry_at c e)); simpl; [|discriminate].
  intros _. unfold Delete. rewrite Hl. simpl. split; [done|]. split.
  - apply delete_subseteq.
  - intros x Hx. clear Hl. induction (evictList c) as [|y l IH]; simpl in *; [done|].
    destruct (Nat.eqb y e).
    + by apply list_elem_of_further.
    + apply elem_of_cons in Hx as [->|Hx]; [apply list_elem_of_here|].
      apply list_elem_of_further. by apply IH.
Qed.
End HandlerFacts.

(** The reply [ServeDNS] starts from, with its rcode set. *)
Lemma set_Rcode_reply (r : Dns.Msg) (rcode : Z) :
  Dns.set_Rcode rcode
    (Dns.set_RecursionAvailable true (Dns.set_Authoritative false (Dns.SetReply r)))
  = error_reply r rcode.
Proof.
  unfold error_reply, Dns.set_Rcode, Dns.set_RecursionAvailable, Dns.set_Authoritative,
    Dns.SetReply, Dns.OpcodeQuery. simpl.
  by destruct (Dns.Question_ r).
Qed.

(** C5.  A query without a question is answered with rcode 1 (FORMERR)
    and a first question whose type is outside the supported set with
    rcode 4 (NOTIMP): the message written is the skeleton reply, given
    field by field by [error_reply], and the cache is not touched.  When
    the cache and the local resolver miss and the upstream resolver
    returns an error, the skeleton reply goes out with rcode 2
    (SERVFAIL), nothing is allocated and the cache gains no entry (the
    miss of [Get] may have removed the expired entry of the key).  In
    all three replies QR and RA are set, AA is clear, the id is that of
    the query and there is no record. *)
Theorem ServeDNS_error_replies
        (ParseIP : string -> option Dns.IP) (To4 To16 : Dns.IP -> option Dns.IP)
        (TypeToString ClassToString : Z -> string)
        (records : Config.RecordsConfig) (depth : nat)
        (upstream_error : Type) (resolver : Dns.Question -> Dns.Msg + upstream_error)
        (c : Cache.LRUCache) (h : Cache.heap) (r : Dns.Msg) (now_get now_set : Z) :
  let serve :=
    Handler.ServeDNS ParseIP To4 To16 TypeToString ClassToString records depth
                     upstream_error resolver c h r now_get now_set in
  (Dns.Question_ r = [] ->
   serve = Handler.Served (error_reply r 1) c h) /\
  (forall q rest,
     Dns.Question_ r = q :: rest -> Dns.Qtype q ∉ supported_types ->
     serve = Handler.Served (error_reply r 4) c h) /\
  (forall q rest err,
     Dns.Question_ r = q :: rest -> Dns.Qtype q ∈ supported_types ->
     (Cache.Get c h (Cache.GenerateCacheKey TypeToString ClassToString q) now_get).1.1
     = None ->
     Resolver.Resolve ParseIP To4 To16 records depth q = Resolver.Done None ->
     resolver q = inr err ->
     exists c',
       serve = Handler.Served (error_reply r 2) c' h /\
       Cache.items c' ⊆ Cache.items c /\
       Cache.evictList c' ⊆ Cache.evictList c) /\
  (forall rcode,
     Dns.Rcode (error_reply r rcode) = rcode /\
     Dns.Id (error_reply r rcode) = Dns.Id r /\
     Dns.Response (error_reply r rcode) = true /\
     Dns.Authoritative (error_reply r rcode) = false /\
     Dns.RecursionAvailable (error_reply r rcode) = true /\
     Dns.Question_ (error_reply r rcode) = take 1 (Dns.Question_ r) /\
     Dns.Answer (error_reply r rcode) = [] /\
     Dns.Ns (error_reply r rcode) = [] /\
     Dns.Extra (error_reply r rcode) = []).
Proof.
  intros serve. subst serve. unfold Handler.ServeDNS.
  split; [|split; [|split]].
  - intros E. rewrite E. by rewrite <- set_Rcode_reply.
  - intros q rest E Hn. rewrite E.
    destruct (Handler.isSupportedType (Dns.Qtype q)) eqn:Hs.
    + apply isSupportedType_spec in Hs. done.
    + simpl negb. cbv iota. by rewrite <- set_Rcode_reply.
  - intros q rest err E Hs Hmiss Hlocal Hup. rewrite E.
    apply isSupportedType_spec in Hs. rewrite Hs. simpl negb. cbv iota.
    destruct (Get_miss_adds_nothing c h _ now_get Hmiss) as (Hh & Hi & Hl).
    destruct (Cache.Get c h (Cache.GenerateCacheKey TypeToString ClassToString q) now_get)
      as [[o c1] h1] eqn:Eg.
    simpl in Hmiss, Hh, Hi, Hl. subst o h1.
    rewrite Hlocal, Hup. exists c1. by rewrite <- set_Rcode_reply.
  - intros rcode. repeat split.
Qed.

(** The theorem at a query for [missing.test. A] that the cache
    [two_entries] and the records [example_records] do not know, with an
    upstream resolver whose attempts all failed. *)
Lemma ServeDNS_error_replies_witness :
  Dns.Question_ (query 4242 "missing.test." 1)
  = [Dns.mkQuestion "missing.test." 1 Dns.ClassINET] /\
  1 ∈ supported_types /\
  (Cache.Get two_entries.1 two_entries.2
             (Cache.GenerateCacheKey example_TypeToString example_ClassToString
                                     (Dns.mkQuestion "missing.test." 1 Dns.ClassINET))
             (40 * Second)).1.1 = None /\
  Resolver.Resolve example_ParseIP example_To4 example_To16 example_records 10
                   (Dns.mkQuestion "missing.test." 1 Dns.ClassINET)
  = Resolver.Done None /\
  exists c',
    Handler.ServeDNS example_ParseIP example_To4 example_To16
                     example_TypeToString example_ClassToString example_records 10
                     Upstream.error failing_upstream
                     two_entries.1 two_entries.2 (query 4242 "missing.test." 1)
                     (40 * Second) (41 * Second)
    = Handler.Served
        (Dns.mkMsg 4242 true 0 false true true false 2
                   [Dns.mkQuestion "missing.test." 1 Dns.ClassINET] [] [] [])
        c' two_entries.2 /\
    Cache.items c' ⊆ Cache.items two_entries.1 /\
    Cache.evictList c' ⊆ Cache.evictList two_entries.1.
Proof.
  assert (H1 : Dns.Question_ (query 4242 "missing.test." 1)
               = [Dns.mkQuestion "missing.test." 1 Dns.ClassINET]) by reflexivity.
  assert (H2 : 1 ∈ supported_types) by apply list_elem_of_here.
  assert (H3 : (Cache.Get two_entries.1 two_entries.2
                  (Cache.GenerateCacheKey example_TypeToString example_ClassToString
                     (Dns.mkQuestion "missing.test." 1 Dns.ClassINET))
                  (40 * Second)).1.1 = None) by (vm_compute; reflexivity).
  assert (H4 : Resolver.Resolve example_ParseIP example_To4 example_To16 example_records 10
                 (Dns.mkQuestion "missing.test." 1 Dns.ClassINET)
               = Resolver.Done None) by (vm_compute; reflexivity).
  split; [exact H1|]. split; [exact H2|]. split; [exact H3|]. split; [exact H4|].
  exact (proj1 (proj2 (proj2 (ServeDNS_error_replies
                         example_ParseIP example_To4 example_To16
                         example_TypeToString example_ClassToString example_records 10
                         Upstream.error failing_upstream
                         two_entries.1 two_entries.2 (query 4242 "missing.test." 1)
                         (40 * Second) (41 * Second))))
               (Dns.mkQuestion "missing.test." 1 Dns.ClassINET) []
               (Upstream.ErrResolve "missing.test." 4
                  (Upstream.ErrExchange "1.1.1.1:53" "i/o timeout"))
               H1 H2 H3 H4 eq_refl).
Defined.

Section WildcardAnswer.
Import GoStrings Dns Config Resolver Cache.

Variable ParseIP : string -> option IP.
Variable To4 To16 : IP -> option IP.
Variable records : RecordsConfig.

(** Every record the local resolver builds is owned by the name it is
    given, of class IN, with TTL 300. *)
Lemma lookup_header (qtype : Z) (domain name : string) (rr : RR) :
  lookup ParseIP To4 To16 records qtype domain name = Some rr ->
  Hdr rr = mkHdr name qtype ClassINET 300.
Proof.
  unfold lookup. intros H.
  repeat (case_match; try discriminate); by injection H as <-.
Qed.

Lemma Resolve_hit (depth : nat) (question : Question) (rr : RR) :
  lookup ParseIP To4 To16 records (Qtype question)
         (ToLower (TrimSuffixDot (QName question))) (QName question) = Some rr ->
  Resolve ParseIP To4 To16 records (S depth) question
  = Done (Some (mkMsg 0 true 0 true false false false 0 [question] [rr] [] [])).
Proof. intros E. simpl. rewrite E. reflexivity. Qed.

(** A wildcard that matches at the first candidate: the nested [Resolve]
    answers the wildcard question, and only the owner names of the
    answer are rewritten. *)
Lemma Resolve_first_wildcard_hit (depth : nat) (question : Question) (rr : RR) :
  let domain := ToLower (TrimSuffixDot (QName question)) in
  Qtype question ∈ wildcard_types ->
  lookup ParseIP To4 To16 records (Qtype question) domain (QName question) = None ->
  lookup ParseIP To4 To16 records (Qtype question) (first_wildcard domain)
         (first_wildcard domain +:+ ".") = Some rr ->
  Resolve ParseIP To4 To16 records (S (S depth)) question
  = Done (Some (mkMsg 0 true 0 true false false false 0
                      [mkQuestion (first_wildcard domain +:+ ".")
                                  (Qtype question) (Qclass question)]
                      [set_Name (QName question) rr] [] [])).
Proof.
  intros domain Hty Hmiss Hhit.
  rewrite Resolve_miss by exact Hmiss. fold domain.
  destruct (wildcards_head domain) as [rest Hw].
  assert (Hhas : hasWildcardMatch records domain (Qtype question) = true).
  { unfold hasWildcardMatch. rewrite Hw. simpl.
    by rewrite (lookup_probe ParseIP To4 To16 records _ _ _ _ Hty Hhit). }
  rewrite Hhas, Hw. cbn [wildcard_loop].
  rewrite (Resolve_hit depth _ rr).
  - reflexivity.
  - simpl QName. simpl Qtype. rewrite normalize_wildcard; [exact Hhit|].
    apply ToLower_idem.
Qed.
End WildcardAnswer.

Section SetFacts.
Import Dns Cache.

Lemma Set_heap (c : LRUCache) (h : heap) (key : string) (response : loc) (ttl now : Z) :
  (Set_ c h key response ttl now).2 = h ++ [deref h response].
Proof.
  unfold Set_, Copy, alloc. by destruct (items c !! key).
Qed.

Lemma Set_cached (c : LRUCache) (h : heap) (key : string) (response : loc) (ttl now : Z) :
  cache_wf c h ->
  cached (Set_ c h key response ttl now).1 (Set_ c h key response ttl now).2 key
  = Some (deref h response, now + (if ttl =? 0 then defaultTTL c else ttl)).
Proof.
  intros Hwf. unfold cached, Set_, Copy, alloc.
  destruct (items c !! key) as [e|] eqn:Hl; simpl.
  - rewrite Hl. apply (wf_map _ _ Hwf) in Hl as [He _].
    destruct (wf_refs _ _ Hwf e He) as [Hlt _].
    rewrite (entry_at_update (with_list _ c)) by exact Hlt.
    rewrite decide_True by reflexivity. simpl. by rewrite deref_alloc_new.
  - rewrite lookup_insert_eq.
    match goal with
    | |- context [entry_at ?x (length (objects ?c1))] =>
        change (entry_at x (length (objects c1)))
          with (entry_at (push_new (mkEntry key (length h)
                                            (now + (if ttl =? 0 then defaultTTL c else ttl)))
                                   c1) (length (objects c1)))
    end.
    rewrite entry_at_push_new. simpl. by rewrite deref_alloc_new.
Qed.
End SetFacts.

Section WriteBack.
Import Dns Cache TTL Handler.

Lemma extractTTL_positive (msg : Msg) : 0 < extractTTL msg.
Proof.
  unfold extractTTL, Second, Millisecond. destruct (Answer msg); [lia|].
  destruct (Z.ltb_spec (minTTL_loop 3600 (r :: l)) 60); lia.
Qed.

Lemma extractTTL_set_Id (id : Z) (msg : Msg) : extractTTL (set_Id id msg) = extractTTL msg.
Proof. reflexivity. Qed.

(** The write-back of the handler: the response goes out with the id of
    the query, and a copy of exactly this message is what the cache then
    holds for the key, for the extracted TTL. *)
Lemma cache_and_write_spec (c : LRUCache) (h : heap) (cacheKey : string)
      (r fresh : Msg) (now : Z) :
  cache_wf c h ->
  exists c' h',
    cache_and_write c h cacheKey r fresh now = Served (set_Id (Id r) fresh) c' h' /\
    cached c' h' cacheKey = Some (set_Id (Id r) fresh, now + extractTTL fresh).
Proof.
  intros Hwf. unfold cache_and_write, alloc.
  set (l := length h).
  set (h2 := store (h ++ [fresh]) l (set_Id (Id r) (deref (h ++ [fresh]) l))).
  assert (Hlen : length h2 = S (length h)).
  { subst h2. unfold store. rewrite length_insert, length_app. simpl. lia. }
  assert (Hd : deref h2 l = set_Id (Id r) fresh).
  { subst h2 l. rewrite deref_store_same by (rewrite length_app; simpl; lia).
    by rewrite deref_alloc_new. }
  rewrite Hd, extractTTL_set_Id.
  pose proof (extractTTL_positive fresh) as Hpos.
  destruct (Z.gtb_spec (extractTTL fresh) 0) as [_|Hle]; [|lia].
  assert (Hwf2 : cache_wf c h2) by (eapply wf_heap_grow; [exact Hwf|lia]).
  pose proof (Set_heap c h2 cacheKey l (extractTTL fresh) now) as Hh.
  pose proof (Set_cached c h2 cacheKey l (extractTTL fresh) now Hwf2) as Hc.
  destruct (Set_ c h2 cacheKey l (extractTTL fresh) now) as [c' h3]. simpl in Hh, Hc.
  exists c', h3. split.
  - f_equal. rewrite Hh, deref_alloc_old by (subst l; lia). exact Hd.
  - rewrite Hc, Hd. destruct (Z.eqb_spec (extractTTL fresh) 0); [lia|reflexivity].
Qed.
End WriteBack.

(** C10.  When the exact lookup misses and the first wildcard candidate
    ([*.] followed by labels 1..end of the normalized name) has a record
    of one of the five wildcard types, the local resolver returns a
    response whose question section names the wildcard with a trailing
    dot, while its answer is owned by the name of the original question.
    On a cache miss the handler writes this response with the id of the
    query and nothing else changed, and the cache then holds the same
    message under the key of the original question, for 300 seconds. *)
Theorem wildcard_reply_question_names_wildcard
        (ParseIP : string -> option Dns.IP) (To4 To16 : Dns.IP -> option Dns.IP)
        (TypeToString ClassToString : Z -> string)
        (records : Config.RecordsConfig) (depth : nat)
        (upstream_error : Type) (resolver : Dns.Question -> Dns.Msg + upstream_error)
        (c : Cache.LRUCache) (h : Cache.heap) (r : Dns.Msg)
        (question : Dns.Question) (rest : list Dns.Question) (rr : Dns.RR)
        (now_get now_set : Z) :
  let domain := GoStrings.ToLower (GoStrings.TrimSuffixDot (Dns.QName question)) in
  let wildcardQuestion :=
    Dns.mkQuestion (first_wildcard domain +:+ ".") (Dns.Qtype question) (Dns.Qclass question) in
  let localResponse :=
    Dns.mkMsg 0 true 0 true false false false 0
              [wildcardQuestion] [Dns.set_Name (Dns.QName question) rr] [] [] in
  let cacheKey := Cache.GenerateCacheKey TypeToString ClassToString question in
  Dns.Qtype question ∈ wildcard_types ->
  Resolver.lookup ParseIP To4 To16 records (Dns.Qtype question) domain
                  (Dns.QName question) = None ->
  Resolver.lookup ParseIP To4 To16 records (Dns.Qtype question) (first_wildcard domain)
                  (first_wildcard domain +:+ ".") = Some rr ->
  Resolver.Resolve ParseIP To4 To16 records (S (S depth)) question
  = Resolver.Done (Some localResponse) /\
  Forall (fun a => Dns.Name (Dns.Hdr a) = Dns.QName question) (Dns.Answer localResponse) /\
  (cache_wf c h ->
   Dns.Question_ r = question :: rest ->
   (Cache.Get c h cacheKey now_get).1.1 = None ->
   exists c' h',
     Handler.ServeDNS ParseIP To4 To16 TypeToString ClassToString records (S (S depth))
                      upstream_error resolver c h r now_get now_set
     = Handler.Served (Dns.set_Id (Dns.Id r) localResponse) c' h' /\
     cached c' h' cacheKey
     = Some (Dns.set_Id (Dns.Id r) localResponse, now_set + 300 * Second)).
Proof.
  intros domain wildcardQuestion localResponse cacheKey Hty Hmiss Hhit.
  pose proof (Resolve_first_wildcard_hit ParseIP To4 To16 records depth question rr
                                         Hty Hmiss Hhit) as Hres.
  fold domain in Hres. fold wildcardQuestion in Hres. fold localResponse in Hres.
  split; [exact Hres|]. split; [by repeat constructor|].
  intros Hwf Eq Hget. unfold Handler.ServeDNS. rewrite Eq. fold cacheKey.
  assert (Hs : Handler.isSupportedType (Dns.Qtype question) = true).
  { apply isSupportedType_spec. revert Hty. unfold wildcard_types, supported_types.
    unfold Dns.TypeA, Dns.TypeAAAA, Dns.TypeCNAME, Dns.TypeMX, Dns.TypeTXT.
    rewrite !elem_of_cons. tauto. }
  rewrite Hs. simpl negb. cbv iota.
  pose proof (Get_wf c h cacheKey now_get Hwf) as Hwf1.
  destruct (Get_miss_adds_nothing c h cacheKey now_get Hget) as (Hh & _).
  destruct (Cache.Get c h cacheKey now_get) as [[o c1] h1].
  simpl in Hget, Hh, Hwf1. subst o h1. rewrite Hres.
  destruct (cache_and_write_spec c1 h cacheKey r localResponse now_set Hwf1)
    as (c' & h' & Hserved & Hcached).
  exists c', h'. split; [exact Hserved|]. rewrite Hcached. do 2 f_equal.
  unfold TTL.extractTTL. simpl Dns.Answer. cbn [TTL.minTTL_loop Dns.set_Name Dns.Hdr Dns.Ttl].
  rewrite (lookup_header ParseIP To4 To16 records _ _ _ _ Hhit). reflexivity.
Qed.

(** The theorem at the wildcard scenario: [*.example A 192.0.2.7] is
    configured and [foo.example. A] is asked; the question section of the
    response reads [*.example.], the answer is owned by [foo.example.]. *)
Lemma wildcard_reply_question_names_wildcard_witness :
  Dns.TypeA ∈ wildcard_types /\
  Resolver.lookup example_ParseIP example_To4 example_To16 example_records Dns.TypeA
                  "foo.example" "foo.example." = None /\
  Resolver.lookup example_ParseIP example_To4 example_To16 example_records Dns.TypeA
                  "*.example" "*.example."
  = Some (Dns.mkRR (Dns.mkHdr "*.example." 1 1 300) (Dns.RD_A [192; 0; 2; 7])) /\
  Resolver.Resolve example_ParseIP example_To4 example_To16 example_records 2
                   (Dns.mkQuestion "foo.example." Dns.TypeA Dns.ClassINET)
  = Resolver.Done
      (Some (Dns.mkMsg 0 true 0 true false false false 0
                       [Dns.mkQuestion "*.example." 1 1]
                       [Dns.mkRR (Dns.mkHdr "foo.example." 1 1 300) (Dns.RD_A [192; 0; 2; 7])]
                       [] [])).
Proof.
  assert (H1 : Dns.TypeA ∈ wildcard_types) by apply list_elem_of_here.
  assert (H2 : Resolver.lookup example_ParseIP example_To4 example_To16 example_records
                 Dns.TypeA "foo.example" "foo.example." = None)
    by (vm_compute; reflexivity).
  assert (H3 : Resolver.lookup example_ParseIP example_To4 example_To16 example_records
                 Dns.TypeA "*.example" "*.example."
               = Some (Dns.mkRR (Dns.mkHdr "*.example." 1 1 300) (Dns.RD_A [192; 0; 2; 7])))
    by (vm_compute; reflexivity).
  split; [exact H1|]. split; [exact H2|]. split; [exact H3|].
  exact (proj1 (wildcard_reply_question_names_wildcard
                  example_ParseIP example_To4 example_To16
                  example_TypeToString example_ClassToString example_records 0
                  Upstream.error failing_upstream
                  two_entries.1 two_entries.2 (query 99 "foo.example." 1)
                  (Dns.mkQuestion "foo.example." Dns.TypeA Dns.ClassINET) []
                  (Dns.mkRR (Dns.mkHdr "*.example." 1 1 300) (Dns.RD_A [192; 0; 2; 7]))
                  (40 * Second) (41 * Second) H1 H2 H3)).
Defined.

(** ** Snapshots *)

Section SnapshotFacts.
Import Dns Cache.

Lemma find_entry_None (key : string) (entries : list SerializableCacheEntry) :
  key ∉ map SKey entries -> find_entry key entries = None.
Proof.
  induction entries as [|x rest IH]; intros Hn; simpl; [reflexivity|].
  destruct (String.eqb_spec (SKey x) key) as [E|Hne].
  - exfalso. apply Hn. simpl. rewrite E. apply list_elem_of_here.
  - apply IH. intros Hin. apply Hn. simpl. by apply list_elem_of_further.
Qed.

Lemma find_entry_Some (key : string) (entries : list SerializableCacheEntry)
      (m : Msg) (exp : Z) :
  NoDup (map SKey entries) ->
  find_entry key entries = Some (m, exp) <-> mkSEntry key m exp ∈ entries.
Proof.
  induction entries as [|x rest IH]; intros Hnd; simpl.
  - split; [discriminate|]. intros H. inversion H.
  - simpl in Hnd. apply NoDup_cons in Hnd as [Hx Hnd]. rewrite elem_of_cons.
    destruct (String.eqb_spec (SKey x) key) as [E|Hne].
    + split.
      * intros [= <- <-]. left. destruct x. simpl in E. by subst.
      * intros [<-|Hin]; [reflexivity|].
        exfalso. apply Hx. rewrite E.
        apply list_elem_of_fmap. exists (mkSEntry key m exp). done.
    + rewrite IH by exact Hnd. split; [by right|].
      intros [E|Hin]; [|exact Hin]. subst x. simpl in Hne. done.
Qed.

Lemma cached_heap_grow (c : LRUCache) (h : heap) (m : Msg) (k : string) :
  cache_wf c h -> cached c (h ++ [m]) k = cached c h k.
Proof.
  intros Hwf. unfold cached. destruct (items c !! k) as [e|] eqn:Hl; [|reflexivity].
  apply (wf_map _ _ Hwf) in Hl as [He _]. destruct (wf_refs _ _ Hwf e He) as [_ Hr].
  by rewrite deref_alloc_old.
Qed.

Lemma cached_push_new (c : LRUCache) (h : heap) (entry : CacheEntry) (k : string) :
  cache_wf c h ->
  cached (push_new entry c) h k
  = if decide (k = Key entry)
    then Some (deref h (Response entry), ExpiresAt entry)
    else cached c h k.
Proof.
  intros Hwf. unfold cached. simpl items. case_decide as Hk.
  - subst k. rewrite lookup_insert_eq. by rewrite entry_at_push_new.
  - rewrite lookup_insert_ne by done.
    destruct (items c !! k) as [e|] eqn:Hl; [|reflexivity].
    apply (wf_map _ _ Hwf) in Hl as [He _]. destruct (wf_refs _ _ Hwf e He) as [Hlt _].
    by rewrite entry_at_push_old.
Qed.

(** Loading entries with distinct keys that the cache does not have,
    with room for all of them: the live ones are added, nothing else
    changes. *)
Lemma load_entries_spec (now : Z) (entries : list SerializableCacheEntry) :
  forall (c0 : LRUCache) (h0 : heap),
  cache_wf c0 h0 ->
  NoDup (map SKey entries) ->
  (forall x, x ∈ entries -> items c0 !! SKey x = None) ->
  Z.of_nat (length (evictList c0) + length entries) <= capacity c0 ->
  cache_wf (load_entries c0 h0 now entries).1 (load_entries c0 h0 now entries).2 /\
  forall k,
    cached (load_entries c0 h0 now entries).1 (load_entries c0 h0 now entries).2 k
    = match find_entry k entries with
      | Some (m, exp) => if now <? exp then Some (m, exp) else None
      | None => cached c0 h0 k
      end.
Proof.
  induction entries as [|x rest IH]; intros c0 h0 Hwf Hnd Hnew Hroom.
  - simpl. split; [exact Hwf|reflexivity].
  - simpl in Hnd. apply NoDup_cons in Hnd as [Hx Hnd].
    assert (Hx0 : items c0 !! SKey x = None) by (apply Hnew; apply list_elem_of_here).
    assert (Hwf1 : cache_wf c0 (h0 ++ [SResponse x]))
      by (eapply wf_heap_grow; [exact Hwf|rewrite length_app; lia]).
    simpl load_entries. unfold alloc.
    destruct (Z.ltb_spec now (SExpiresAt x)) as [Hlive|Hdead].
    + destruct (Z.geb_spec (Z.of_nat (length (evictList c0))) (capacity c0)) as [Hfull|_];
        [simpl in Hroom; lia|].
      set (entry := mkEntry (SKey x) (length h0) (SExpiresAt x)).
      assert (Hwf2 : cache_wf (push_new entry c0) (h0 ++ [SResponse x])).
      { apply push_new_wf; try done.
        - simpl. rewrite length_app. simpl. lia.
        - simpl in Hroom. lia. }
      destruct (IH (push_new entry c0) (h0 ++ [SResponse x]) Hwf2 Hnd) as [Hwf' Hc].
      * intros y Hy. simpl. rewrite lookup_insert_ne.
        -- apply Hnew. by apply list_elem_of_further.
        -- intros E. apply Hx. rewrite E. apply list_elem_of_fmap. by exists y.
      * simpl in *. lia.
      * split; [exact Hwf'|]. intros k. rewrite Hc. simpl find_entry.
        rewrite cached_push_new by exact Hwf1. simpl Key. simpl Response. simpl ExpiresAt.
        destruct (String.eqb_spec (SKey x) k) as [E|Hne].
        -- subst k. rewrite find_entry_None by exact Hx.
           rewrite decide_True by reflexivity.
           rewrite deref_alloc_new.
           destruct (Z.ltb_spec now (SExpiresAt x)); [reflexivity|lia].
        -- rewrite decide_False by congruence.
           by rewrite cached_heap_grow.
    + destruct (IH c0 (h0 ++ [SResponse x]) Hwf1 Hnd) as [Hwf' Hc].
      * intros y Hy. apply Hnew. by apply list_elem_of_further.
      * simpl in *. lia.
      * split; [exact Hwf'|]. intros k. rewrite Hc. simpl find_entry.
        rewrite cached_heap_grow by exact Hwf.
        destruct (String.eqb_spec (SKey x) k) as [E|Hne]; [|reflexivity].
        subst k. rewrite find_entry_None by exact Hx.
        destruct (Z.ltb_spec now (SExpiresAt x)); [lia|].
        unfold cached. by rewrite Hx0.
Qed.
End SnapshotFacts.

Section DumpFacts.
Import Dns Cache.

Variable c : LRUCache.
Variable h : heap.
Variable now : Z.
Variable order : list (string * ref).
Hypothesis Hwf : cache_wf c h.
Hypothesis Horder : order ≡ₚ map_to_list (items c).

(** What [DumpToFile] writes for one pair of the map. *)
Lemma dump_entry_of_pair (k : string) (e : ref) (x : SerializableCacheEntry) :
  (k, e) ∈ order ->
  (if now <? ExpiresAt (entry_at c e)
   then Some (mkSEntry (Key (entry_at c e)) (deref h (Response (entry_at c e)))
                       (ExpiresAt (entry_at c e)))
   else None) = Some x ->
  SKey x = k /\ cached c h k = Some (SResponse x, SExpiresAt x) /\ now < SExpiresAt x.
Proof.
  intros Hin Hx. rewrite Horder in Hin. apply elem_of_map_to_list in Hin.
  pose proof Hin as Hin'. apply (wf_map _ _ Hwf) in Hin' as [_ Hkey].
  destruct (Z.ltb_spec now (ExpiresAt (entry_at c e))) as [Hlive|]; [|discriminate].
  injection Hx as <-. simpl. unfold cached. rewrite Hin. done.
Qed.

Lemma dump_entries_elem (k : string) (m : Msg) (exp : Z) :
  mkSEntry k m exp ∈ dump_entries c h now order <->
  cached c h k = Some (m, exp) /\ now < exp.
Proof.
  unfold dump_entries. rewrite list_elem_of_omap. split.
  - intros ([k' e] & Hin & Hx). simpl in Hx.
    destruct (dump_entry_of_pair k' e _ Hin Hx) as (Hk & Hc & Hl).
    simpl in Hk, Hc, Hl. subst k'. done.
  - intros [Hc Hl]. unfold cached in Hc.
    destruct (items c !! k) as [e|] eqn:Hk; [|discriminate].
    injection Hc as <- <-. exists (k, e). split.
    + rewrite Horder. by apply elem_of_map_to_list.
    + simpl. apply (wf_map _ _ Hwf) in Hk as [_ Hkey].
      destruct (Z.ltb_spec now (ExpiresAt (entry_at c e))); [|lia].
      by rewrite Hkey.
Qed.

Lemma dump_entries_keys_sub :
  forall l : list (string * ref),
  (forall kv, kv ∈ l -> kv ∈ order) ->
  NoDup (l.*1) ->
  NoDup (map SKey (dump_entries c h now l)) /\
  (forall x, x ∈ dump_entries c h now l -> SKey x ∈ l.*1) /\
  (length (dump_entries c h now l) <= length l)%nat.
Proof.
  induction l as [|[k e] l IH]; intros Hsub Hnd.
  - simpl. split; [constructor|]. split; [|lia]. intros x Hx. inversion Hx.
  - simpl in Hnd. apply NoDup_cons in Hnd as [Hk Hnd].
    destruct IH as (IH1 & IH2 & IH3); [|exact Hnd|].
    { intros kv Hkv. apply Hsub. by apply list_elem_of_further. }
    unfold dump_entries in *. simpl omap. simpl snd.
    destruct (if now <? ExpiresAt (entry_at c e)
              then Some (mkSEntry (Key (entry_at c e)) (deref h (Response (entry_at c e)))
                                  (ExpiresAt (entry_at c e)))
              else None) as [x|] eqn:Hx.
    + destruct (dump_entry_of_pair k e x) as (Hkx & _); [apply Hsub; apply list_elem_of_here|exact Hx|].
      simpl. split; [|split].
      * apply NoDup_cons. split; [|exact IH1].
        intros Hin. apply list_elem_of_fmap in Hin as (y & Ey & Hy).
        apply IH2 in Hy. apply Hk. rewrite <- Hkx, Ey. exact Hy.
      * intros y Hy. apply elem_of_cons in Hy as [->|Hy].
        -- rewrite Hkx. apply list_elem_of_here.
        -- apply list_elem_of_further. by apply IH2.
      * apply le_n_S. exact IH3.
    + simpl. split; [exact IH1|]. split; [|apply Nat.le_le_succ_r; exact IH3].
      intros y Hy. apply list_elem_of_further. by apply IH2.
Qed.

Lemma dump_entries_NoDup : NoDup (map SKey (dump_entries c h now order)).
Proof.
  apply dump_entries_keys_sub; [done|].
  rewrite Horder. apply NoDup_fst_map_to_list.
Qed.

Lemma dump_entries_length :
  (length (dump_entries c h now order) <= size (items c))%nat.
Proof.
  rewrite <- length_map_to_list, <- Horder.
  apply dump_entries_keys_sub; [done|].
  rewrite Horder. apply NoDup_fst_map_to_list.
Qed.
End DumpFacts.

(** A snapshot that [DumpToFile] has written at [now_dump] - in
    whatever order the map was ranged over, with an encoder whose output
    the decoder reads back - loaded at [now_load] into a new cache with
    room for every entry: the new cache holds for a key exactly what the
    old cache held for it, message and expiry, when that expiry lies
    after both instants, and nothing for every other key. *)
Lemma dump_load_roundtrip
        (file : Type)
        (encode : list Cache.SerializableCacheEntry -> option file)
        (decode : file -> option (list Cache.SerializableCacheEntry))
        (c : Cache.LRUCache) (h : Cache.heap) (now_dump : Z)
        (order : list (string * Cache.ref)) (creatable : bool) (f : file)
        (capacity defaultTTL : Z) (h0 : Cache.heap) (now_load : Z) :
  cache_wf c h ->
  order ≡ₚ map_to_list (Cache.items c) ->
  (forall entries f', encode entries = Some f' -> decode f' = Some entries) ->
  Cache.DumpToFile file encode c h now_dump order creatable = Some f ->
  0 < capacity ->
  Z.of_nat (size (Cache.items c)) <= capacity ->
  exists c' h',
    Cache.LoadFromFile file decode (Cache.NewLRUCache capacity defaultTTL) h0 now_load (Some f)
    = Some (c', h') /\
    cache_wf c' h' /\
    forall k,
      cached c' h' k
      = match cached c h k with
        | Some (m, exp) =>
            if (now_dump <? exp) && (now_load <? exp) then Some (m, exp) else None
        | None => None
        end.
Proof.
  intros Hwf Horder Hcodec Hdump Hcap Hroom.
  unfold Cache.DumpToFile in Hdump. destruct creatable; [|discriminate].
  apply Hcodec in Hdump.
  unfold Cache.LoadFromFile. rewrite Hdump.
  set (entries := Cache.dump_entries c h now_dump order) in *.
  pose proof (dump_entries_NoDup c h now_dump order Hwf Horder) as Hnd.
  pose proof (dump_entries_length c h now_dump order Hwf Horder) as Hlen.
  fold entries in Hnd, Hlen.
  destruct (load_entries_spec now_load entries (Cache.NewLRUCache capacity defaultTTL) h0)
    as [Hwf' Hc].
  - by apply NewLRUCache_wf.
  - exact Hnd.
  - intros x _. apply lookup_empty.
  - simpl. lia.
  - exists (Cache.load_entries (Cache.NewLRUCache capacity defaultTTL) h0 now_load entries).1,
           (Cache.load_entries (Cache.NewLRUCache capacity defaultTTL) h0 now_load entries).2.
    split; [by rewrite <- surjective_pairing|]. split; [exact Hwf'|].
    intros k. rewrite Hc.
    assert (Hnew : cached (Cache.NewLRUCache capacity defaultTTL) h0 k = None)
      by (unfold cached; simpl; by rewrite lookup_empty).
    rewrite Hnew.
    destruct (find_entry k entries) as [[m exp]|] eqn:Hf.
    + apply find_entry_Some in Hf; [|exact Hnd].
      apply (dump_entries_elem c h now_dump order Hwf Horder) in Hf as [Hck Hl].
      rewrite Hck. destruct (Z.ltb_spec now_dump exp); [reflexivity|lia].
    + destruct (cached c h k) as [[m exp]|] eqn:Hck; [|reflexivity].
      destruct (Z.ltb_spec now_dump exp) as [Hl|]; [|reflexivity].
      assert (Hin : Cache.mkSEntry k m exp ∈ entries)
        by (apply (dump_entries_elem c h now_dump order Hwf Horder); done).
      apply find_entry_Some in Hin; [|exact Hnd]. congruence.
Qed.

Section GobFacts.
Import Dns Cache.

Lemma gob_encode_Some (entries : list SerializableCacheEntry) :
  (forall x, x ∈ entries -> gob_encodable (SResponse x) = true) ->
  gob_encode entries = Some entries.
Proof.
  intros H. unfold gob_encode.
  replace (forallb (fun entry => gob_encodable (SResponse entry)) entries) with true;
    [reflexivity|].
  symmetry. apply forallb_forall. intros x Hx. apply H. by apply list_elem_of_In.
Qed.

Lemma gob_encode_None (entries : list SerializableCacheEntry) (x : SerializableCacheEntry) :
  x ∈ entries -> gob_encodable (SResponse x) = false ->
  gob_encode entries = None.
Proof.
  intros Hx Hn. unfold gob_encode.
  destruct (forallb (fun entry => gob_encodable (SResponse entry)) entries) eqn:E;
    [|reflexivity].
  rewrite forallb_forall in E. rewrite (E x) in Hn; [discriminate|].
  by apply list_elem_of_In.
Qed.

Lemma gob_codec (entries f : list SerializableCacheEntry) :
  gob_encode entries = Some f -> gob_decode f = Some entries.
Proof.
  unfold gob_encode, gob_decode.
  destruct (forallb _ entries); [|discriminate]. by intros [= <-].
Qed.
End GobFacts.

(** C9, where the code departs from it.  Take a cache that satisfies the
    invariants of the data model, a restart that dumps it at [now_dump]
    and loads the file at [now_load] into a new cache with room for
    every entry.  When no live entry holds a message with a resource
    record, the new cache holds for a key exactly what the old cache
    held for it, message and expiry, when that expiry lies after both
    instants, and nothing for every other key.  But one live entry whose
    message has a resource record makes the encoder fail: [DumpToFile]
    returns an error, and the new cache starts empty - also the entries
    without records are lost. *)
Theorem snapshot_restore_loses_records
        (c : Cache.LRUCache) (h : Cache.heap) (now_dump : Z)
        (order : list (string * Cache.ref))
        (capacity defaultTTL : Z) (h0 : Cache.heap) (now_load : Z) :
  cache_wf c h ->
  order ≡ₚ map_to_list (Cache.items c) ->
  0 < capacity ->
  Z.of_nat (size (Cache.items c)) <= capacity ->
  let restored := restart c h now_dump order capacity defaultTTL h0 now_load in
  ((forall k m exp,
      cached c h k = Some (m, exp) -> now_dump < exp -> Cache.gob_encodable m = true) ->
   Cache.DumpToFile _ Cache.gob_encode c h now_dump order true
   = Some (Cache.dump_entries c h now_dump order) /\
   cache_wf restored.1 restored.2 /\
   forall k,
     cached restored.1 restored.2 k
     = match cached c h k with
       | Some (m, exp) =>
           if (now_dump <? exp) && (now_load <? exp) then Some (m, exp) else None
       | None => None
       end) /\
  (forall k m exp,
     cached c h k = Some (m, exp) -> now_dump < exp -> Cache.gob_encodable m = false ->
     Cache.DumpToFile _ Cache.gob_encode c h now_dump order true = None /\
     restored = (Cache.NewLRUCache capacity defaultTTL, h0) /\
     forall k', cached restored.1 restored.2 k' = None).
Proof.
  intros Hwf Horder Hcap Hroom restored. subst restored. unfold restart. split.
  - intros Hall.
    assert (Hd : Cache.DumpToFile _ Cache.gob_encode c h now_dump order true
                 = Some (Cache.dump_entries c h now_dump order)).
    { unfold Cache.DumpToFile. apply gob_encode_Some. intros [k m exp] Hx.
      apply (dump_entries_elem c h now_dump order Hwf Horder) in Hx as [Hc Hl].
      simpl. eapply Hall; eauto. }
    destruct (dump_load_roundtrip _ Cache.gob_encode Cache.gob_decode c h now_dump order
                true _ capacity defaultTTL h0 now_load Hwf Horder gob_codec Hd Hcap Hroom)
      as (c' & h' & Hload & Hwf' & Hc').
    rewrite Hd, Hload. simpl. done.
  - intros k m exp Hc Hl Hn.
    assert (Hd : Cache.DumpToFile _ Cache.gob_encode c h now_dump order true = None).
    { unfold Cache.DumpToFile. apply (gob_encode_None _ (Cache.mkSEntry k m exp)); [|exact Hn].
      by apply (dump_entries_elem c h now_dump order Hwf Horder). }
    rewrite Hd. simpl. split; [reflexivity|]. split; [reflexivity|].
    intros k'. unfold cached. simpl. by rewrite lookup_empty.
Qed.

(** The theorem at the cache [two_entries], whose two messages each hold
    an A record, dumped at 100 s when the entry of ["a.test.:A:IN"] is
    live until 310 s, and restarted at 200 s with a capacity of 5: the
    dump fails and the new cache holds nothing for the key. *)
Lemma snapshot_restore_loses_records_witness :
  cache_wf two_entries.1 two_entries.2 /\
  map_to_list (Cache.items two_entries.1) ≡ₚ map_to_list (Cache.items two_entries.1) /\
  0 < 5 /\
  Z.of_nat (size (Cache.items two_entries.1)) <= 5 /\
  cached two_entries.1 two_entries.2 "a.test.:A:IN"
  = Some (answer_with_ttl 300, 310 * Second) /\
  100 * Second < 310 * Second /\
  200 * Second < 310 * Second /\
  Cache.gob_encodable (answer_with_ttl 300) = false /\
  Cache.DumpToFile _ Cache.gob_encode two_entries.1 two_entries.2 (100 * Second)
                   (map_to_list (Cache.items two_entries.1)) true = None /\
  restart two_entries.1 two_entries.2 (100 * Second)
          (map_to_list (Cache.items two_entries.1)) 5 (300 * Second) [] (200 * Second)
  = (Cache.NewLRUCache 5 (300 * Second), []) /\
  cached (restart two_entries.1 two_entries.2 (100 * Second)
                  (map_to_list (Cache.items two_entries.1)) 5 (300 * Second) []
                  (200 * Second)).1
         (restart two_entries.1 two_entries.2 (100 * Second)
                  (map_to_list (Cache.items two_entries.1)) 5 (300 * Second) []
                  (200 * Second)).2
         "a.test.:A:IN" = None.
Proof.
  assert (H2 : map_to_list (Cache.items two_entries.1)
               ≡ₚ map_to_list (Cache.items two_entries.1)) by reflexivity.
  assert (H3 : 0 < 5) by lia.
  assert (H4 : Z.of_nat (size (Cache.items two_entries.1)) <= 5)
    by (vm_compute; discriminate).
  assert (H5 : cached two_entries.1 two_entries.2 "a.test.:A:IN"
               = Some (answer_with_ttl 300, 310 * Second)) by (vm_compute; reflexivity).
  assert (H6 : 100 * Second < 310 * Second) by (vm_compute; reflexivity).
  assert (H7 : 200 * Second < 310 * Second) by (vm_compute; reflexivity).
  assert (H8 : Cache.gob_encodable (answer_with_ttl 300) = false) by reflexivity.
  split; [exact two_entries_wf|]. split; [exact H2|]. split; [exact H3|].
  split; [exact H4|]. split; [exact H5|]. split; [exact H6|]. split; [exact H7|].
  split; [exact H8|].
  destruct (proj2 (snapshot_restore_loses_records
                     two_entries.1 two_entries.2 (100 * Second)
                     (map_to_list (Cache.items two_entries.1)) 5 (300 * Second) []
                     (200 * Second) two_entries_wf H2 H3 H4)
                  "a.test.:A:IN" (answer_with_ttl 300) (310 * Second) H5 H6 H8)
    as (D & R & N).
  split; [exact D|]. split; [exact R|]. exact (N "a.test.:A:IN").
Defined.

(** ** What the other operations keep *)

Section Sweeps.
Import Dns Cache.

Lemma without_each_wf (h : heap) (l : list ref) :
  forall c : LRUCache,
  cache_wf c h -> NoDup l -> (forall e, e ∈ l -> e ∈ evictList c) ->
  cache_wf (fold_left (fun c e => without e c) l c) h.
Proof.
  induction l as [|e l IH]; intros c Hwf Hnd Hin; simpl; [exact Hwf|].
  apply NoDup_cons in Hnd as [He Hnd]. apply IH.
  - apply without_wf; [exact Hwf|]. apply Hin, list_elem_of_here.
  - exact Hnd.
  - intros e' He'. simpl. apply Remove_elem; [exact (wf_nodup _ _ Hwf)|]. split.
    + apply Hin. by apply list_elem_of_further.
    + intros ->. by apply He.
Qed.

Lemma removeExpired_wf (c : LRUCache) (h : heap) (now : Z) :
  cache_wf c h -> cache_wf (removeExpired c now) h.
Proof.
  intros Hwf. unfold removeExpired.
  apply (without_each_wf h _ c Hwf).
  - apply NoDup_ListNoDup, List.NoDup_filter, List.NoDup_rev, NoDup_ListNoDup.
    exact (wf_nodup _ _ Hwf).
  - intros e He. apply list_elem_of_In, List.filter_In in He as [He _].
    apply List.in_rev in He. by apply list_elem_of_In.
Qed.

(** In a cache that satisfies the invariants the map has as many keys as
    the list has elements. *)
Lemma wf_size (c : LRUCache) (h : heap) :
  cache_wf c h -> size (items c) = length (evictList c).
Proof.
  intros Hwf. rewrite <- length_map_to_list.
  rewrite <- (length_fmap snd (map_to_list (items c))).
  apply Permutation_length, NoDup_Permutation.
  - apply NoDup_fmap_2_strong; [|apply NoDup_map_to_list].
    intros [k1 e1] [k2 e2] H1 H2 E. simpl in E. subst e2.
    apply elem_of_map_to_list in H1, H2.
    apply (wf_map _ _ Hwf) in H1 as [_ <-]. apply (wf_map _ _ Hwf) in H2 as [_ <-].
    reflexivity.
  - exact (wf_nodup _ _ Hwf).
  - intros e. rewrite list_elem_of_fmap. split.
    + intros ([k e'] & -> & Hin). apply elem_of_map_to_list in Hin.
      by apply (wf_map _ _ Hwf) in Hin as [He _].
    + intros He. exists (Key (entry_at c e), e). split; [reflexivity|].
      apply elem_of_map_to_list. apply (wf_map _ _ Hwf). done.
Qed.

Lemma wf_list_matches_map (c : LRUCache) (h : heap) :
  cache_wf c h -> list_matches_map c.
Proof.
  intros Hwf e. split.
  - intros He. exists (Key (entry_at c e)). apply (wf_map _ _ Hwf). done.
  - intros [k Hk]. by apply (wf_map _ _ Hwf) in Hk as [He _].
Qed.

(** Every operation but the restore keeps the invariants; so after any
    sequence of such operations on a new cache of positive capacity the
    size is within the capacity, and the list and the map agree. *)
Lemma step_wf (s : LRUCache * heap) (op : cache_op) :
  (forall entries now, op <> OpRestore entries now) ->
  cache_wf s.1 s.2 -> cache_wf (step s op).1 (step s op).2.
Proof.
  intros Hop Hwf. destruct op as [key now|key response ttl now|key| |entries now|now]; simpl.
  - by apply Get_wf.
  - apply Set_wf. eapply wf_heap_grow; [exact Hwf|]. rewrite length_app. lia.
  - by apply Delete_wf.
  - by apply Clear_wf.
  - by destruct (Hop entries now).
  - by apply removeExpired_wf.
Qed.

Lemma removeOldest_capacity (c : LRUCache) : capacity (removeOldest c) = capacity c.
Proof. unfold removeOldest. by destruct (Back (evictList c)). Qed.

Lemma load_entries_capacity (now : Z) (entries : list SerializableCacheEntry) :
  forall c h, capacity (load_entries c h now entries).1 = capacity c.
Proof.
  induction entries as [|x rest IH]; intros c h; [reflexivity|].
  simpl. destruct (now <? SExpiresAt x); [|apply IH].
  rewrite IH. simpl.
  destruct (Z.of_nat (length (evictList c)) >=? capacity c); [|reflexivity].
  apply removeOldest_capacity.
Qed.

Lemma step_capacity (s : LRUCache * heap) (op : cache_op) :
  capacity (step s op).1 = capacity s.1.
Proof.
  destruct s as [c h].
  destruct op as [key now|key response ttl now|key| |entries now|now]; simpl.
  - unfold Get. destruct (items c !! key) as [e|] eqn:Hl; [|reflexivity].
    destruct (now >? ExpiresAt (entry_at c e)); [|reflexivity].
    unfold Delete. simpl. by rewrite Hl.
  - unfold Set_. simpl. destruct (items c !! key); [reflexivity|]. simpl.
    destruct (Z.of_nat (length (evictList c)) >=? capacity c); [|reflexivity].
    apply removeOldest_capacity.
  - unfold Delete. by destruct (items c !! key).
  - reflexivity.
  - apply load_entries_capacity.
  - unfold removeExpired.
    generalize (List.filter (fun e => now >? ExpiresAt (entry_at c e)) (rev (evictList c))).
    intros l. revert c. induction l as [|e l IHl]; intros c; [reflexivity|].
    simpl. by rewrite IHl.
Qed.

Lemma run_capacity (cap defaultTTL : Z) (ops : list cache_op) :
  capacity (run cap defaultTTL ops).1 = cap.
Proof.
  unfold run.
  assert (H0 : capacity (NewLRUCache cap defaultTTL, @nil Msg).1 = cap) by reflexivity.
  revert H0. generalize (NewLRUCache cap defaultTTL, @nil Msg).
  induction ops as [|op ops IH]; intros s Hs; simpl; [exact Hs|].
  apply IH. by rewrite step_capacity.
Qed.

(** X6.  After any sequence of [Get], [Set], [Delete], [Clear] and
    sweeps of [removeExpired] on a new cache of positive capacity, the
    size is within the capacity, the map has as many keys as the list has
    elements, and the list holds exactly the entries of the map. *)
Lemma run_without_restore (cap defaultTTL : Z) (ops : list cache_op) :
  0 < cap ->
  Forall (fun op => forall entries now, op <> OpRestore entries now) ops ->
  let c := (run cap defaultTTL ops).1 in
  0 <= Size c <= cap /\ Size c = Z.of_nat (length (evictList c)) /\
  list_matches_map c.
Proof.
  intros Hcap Hops c.
  assert (Hwf : cache_wf (run cap defaultTTL ops).1 (run cap defaultTTL ops).2).
  { unfold run.
    assert (H0 : cache_wf (NewLRUCache cap defaultTTL, @nil Msg).1
                          (NewLRUCache cap defaultTTL, @nil Msg).2)
      by (by apply NewLRUCache_wf).
    revert H0. generalize (NewLRUCache cap defaultTTL, @nil Msg).
    induction Hops as [|op ops Hop _ IH]; intros s Hs; simpl; [exact Hs|].
    apply IH. by apply step_wf. }
  fold c in Hwf. pose proof (wf_size c _ Hwf) as Hsize.
  pose proof (wf_bound _ _ Hwf) as Hb.
  pose proof (run_capacity cap defaultTTL ops) as Hc. fold c in Hc.
  unfold Size. rewrite Hsize. split; [lia|].
  split; [reflexivity|by eapply wf_list_matches_map].
Qed.
End Sweeps.

(** ** The local resolver: where the wildcard fallback is not used *)

(** A question of a type outside the five wildcard types that has no
    exact record is a miss, whatever wildcards the tables hold. *)
Lemma Resolve_other_types_miss
      (ParseIP : string -> option Dns.IP) (To4 To16 : Dns.IP -> option Dns.IP)
      (records : Config.RecordsConfig) (depth : nat) (question : Dns.Question) :
  Dns.Qtype question ∉ wildcard_types ->
  Resolver.lookup ParseIP To4 To16 records (Dns.Qtype question)
                  (GoStrings.ToLower (GoStrings.TrimSuffixDot (Dns.QName question)))
                  (Dns.QName question) = None ->
  Resolver.Resolve ParseIP To4 To16 records (S depth) question = Resolver.Done None.
Proof.
  intros Hty Hmiss. rewrite Resolve_miss by exact Hmiss.
  by rewrite hasWildcardMatch_other_types.
Qed.

(** * Further properties of the code *)

(** ** The upstream forwarder under cancellation, and its cost *)

Section UpstreamMore.
Import Dns Upstream.

Lemma servers_loop_prefix (e : env) (srvs : list string) :
  forall (lastErr : option error) (w : world),
  exists j,
    trace (servers_loop e srvs lastErr w).2 = trace w ++ map EvExchange (take j srvs) /\
    (forall le, (servers_loop e srvs lastErr w).1 = Next le ->
                trace (servers_loop e srvs lastErr w).2 = trace w ++ map EvExchange srvs).
Proof.
  induction srvs as [|s rest IH]; intros lastErr w.
  - exists O. simpl. rewrite app_nil_r. done.
  - simpl servers_loop. destruct (ctx_done e (polls w)).
    + exists O. simpl. rewrite app_nil_r. split; [done|discriminate].
    + unfold queryServer. simpl.
      assert (Hstep : forall le,
                 exists j,
                   trace (servers_loop e rest le (exchanged s (poll w))).2
                   = trace w ++ map EvExchange (take j (s :: rest)) /\
                   (forall le', (servers_loop e rest le (exchanged s (poll w))).1 = Next le' ->
                                trace (servers_loop e rest le (exchanged s (poll w))).2
                                = trace w ++ map EvExchange (s :: rest))).
      { intros le. destruct (IH le (exchanged s (poll w))) as (j & Hj & Hn).
        exists (S j). simpl in *. split.
        - rewrite Hj, <- app_assoc. reflexivity.
        - intros le' Hle. rewrite (Hn le' Hle), <- app_assoc. reflexivity. }
      destruct (exchange e (exchanges w) s) as [m|cause]; simpl.
      * destruct ((Rcode m =? RcodeSuccess) || (Rcode m =? RcodeNameError)).
        -- exists 1%nat. simpl. split; [reflexivity|discriminate].
        -- apply Hstep.
      * apply Hstep.
Qed.

Lemma attempts_loop_prefix (e : env) (r : UpstreamResolver) :
  retries r <= 92233720368 ->
  forall (n : nat) (attempt : Z) (lastErr : option error) (w : world),
  0 <= attempt ->
  exists added rest,
    trace (attempts_loop e r n attempt lastErr w).2 = trace w ++ added /\
    rounds r n attempt = added ++ rest.
Proof.
  intros Hret. induction n as [|n IH]; intros attempt lastErr w Hat.
  - exists [], []. simpl. by rewrite app_nil_r.
  - simpl attempts_loop. simpl rounds.
    destruct (servers_loop_prefix e (servers r) lastErr w) as (j & Hj & Hnext).
    destruct (servers_loop e (servers r) lastErr w) as [[res|lastErr'] w1] eqn:Es;
      simpl in Hj, Hnext.
    + exists (map EvExchange (take j (servers r))). eexists. split; [exact Hj|].
      rewrite <- (take_drop j (servers r)) at 1. rewrite map_app, <- app_assoc.
      reflexivity.
    + specialize (Hnext lastErr' eq_refl).
      destruct (Z.ltb_spec attempt (retries r)) as [Hlt|Hge].
      * destruct (ctx_done e (polls w1)).
        -- exists (map EvExchange (servers r)). eexists. split; [exact Hnext|reflexivity].
        -- rewrite backoff_exact by lia.
           destruct (IH (attempt + 1) lastErr'
                        (slept ((attempt + 1) * 100 * Millisecond) (poll w1)) ltac:(lia))
             as (added & rest & Ht & Hr).
           exists (map EvExchange (servers r)
                   ++ [EvSleep ((attempt + 1) * 100 * Millisecond)] ++ added), rest.
           split.
           ++ rewrite Ht. simpl trace. rewrite Hnext. by rewrite <- !app_assoc.
           ++ rewrite Hr. by rewrite <- !app_assoc.
      * destruct (IH (attempt + 1) lastErr' w1 ltac:(lia)) as (added & rest & Ht & Hr).
        exists (map EvExchange (servers r) ++ added), rest. split.
        -- rewrite Ht, Hnext. by rewrite <- app_assoc.
        -- rewrite Hr. simpl. by rewrite <- app_assoc.
Qed.

Lemma rounds_cost (r : UpstreamResolver) :
  forall (n : nat) (attempt : Z),
  0 <= attempt -> attempt + Z.of_nat n = retries r + 1 ->
  exchange_count (rounds r n attempt) = (n * length (servers r))%nat /\
  (n <> O ->
   total_sleep (rounds r n attempt)
   = 50 * (retries r * (retries r + 1) - attempt * (attempt + 1)) * Millisecond).
Proof.
  assert (Hex : forall l rest, exchange_count (map EvExchange l ++ rest)
                               = (length l + exchange_count rest)%nat).
  { induction l as [|s l IHl]; intros rest; simpl; [reflexivity|]. by rewrite IHl. }
  assert (Hsl : forall l rest, total_sleep (map EvExchange l ++ rest) = total_sleep rest).
  { induction l as [|s l IHl]; intros rest; simpl; [reflexivity|]. apply IHl. }
  induction n as [|n IH]; intros attempt Hat Hsum.
  - simpl. split; [reflexivity|done].
  - simpl rounds. rewrite Hex, Hsl.
    destruct (Z.ltb_spec attempt (retries r)) as [Hlt|Hge].
    + destruct (IH (attempt + 1)) as [IH1 IH2]; [lia|lia|].
      simpl. rewrite IH1. split; [lia|]. intros _.
      rewrite IH2 by lia. unfold Millisecond. lia.
    + assert (n = O) by lia. subst n. simpl. split; [lia|]. intros _.
      replace attempt with (retries r) by lia. lia.
Qed.
End UpstreamMore.

(** X1.  Whatever the context does, what a call of [Resolve] has done
    when it returns is an initial part of the full schedule: servers in
    list order, round after round, with the back-off sleeps between
    rounds only. *)
Theorem Resolve_trace_prefix_of_schedule
        (e : Upstream.env) (r : Upstream.UpstreamResolver) (question : Dns.Question) :
  Upstream.retries r <= 92233720368 ->
  exists rest,
    Upstream.full_trace r = Upstream.trace (Upstream.Resolve e r question).2 ++ rest.
Proof.
  intros Hret. unfold Upstream.Resolve, Upstream.full_trace.
  destruct (attempts_loop_prefix e r Hret (Z.to_nat (Upstream.retries r + 1)) 0 None
                                 Upstream.start ltac:(lia)) as (added & rest & Ht & Hr).
  exists rest.
  destruct (Upstream.attempts_loop e r (Z.to_nat (Upstream.retries r + 1)) 0 None
                                   Upstream.start) as [[res|lastErr] w];
    simpl in *; by rewrite Ht, Hr.
Qed.

Lemma Resolve_trace_prefix_of_schedule_witness :
  Upstream.retries failover_resolver <= 92233720368 /\
  exists rest,
    Upstream.full_trace failover_resolver
    = Upstream.trace
        (Upstream.Resolve failover_env failover_resolver
                          (Dns.mkQuestion "example.com." 1 1)).2 ++ rest.
Proof.
  assert (H : Upstream.retries failover_resolver <= 92233720368) by (simpl; lia).
  split; [exact H|].
  exact (Resolve_trace_prefix_of_schedule failover_env failover_resolver
           (Dns.mkQuestion "example.com." 1 1) H).
Defined.

(** X2.  A call whose context is already done contacts no server and
    returns the error of the context, provided there is a server to try
    and the number of retries is not negative. *)
Theorem Resolve_cancelled_before_first_exchange
        (e : Upstream.env) (r : Upstream.UpstreamResolver) (question : Dns.Question) :
  Upstream.ctx_done e 0 = true ->
  Upstream.servers r <> [] ->
  0 <= Upstream.retries r ->
  (Upstream.Resolve e r question).1 = inr Upstream.ErrCtx /\
  Upstream.trace (Upstream.Resolve e r question).2 = [].
Proof.
  intros Hctx Hsrv Hret. unfold Upstream.Resolve.
  destruct (Z.to_nat (Upstream.retries r + 1)) as [|n] eqn:En; [lia|].
  destruct (Upstream.servers r) as [|s rest] eqn:Es; [done|].
  simpl. rewrite Es. simpl. rewrite Hctx. simpl. done.
Qed.

Lemma Resolve_cancelled_before_first_exchange_witness :
  Upstream.ctx_done cancelled_env 0 = true /\
  Upstream.servers failover_resolver <> [] /\
  0 <= Upstream.retries failover_resolver /\
  (Upstream.Resolve cancelled_env failover_resolver (Dns.mkQuestion "example.com." 1 1)).1
  = inr Upstream.ErrCtx /\
  Upstream.trace
    (Upstream.Resolve cancelled_env failover_resolver (Dns.mkQuestion "example.com." 1 1)).2
  = [].
Proof.
  assert (H1 : Upstream.ctx_done cancelled_env 0 = true) by reflexivity.
  assert (H2 : Upstream.servers failover_resolver <> []) by discriminate.
  assert (H3 : 0 <= Upstream.retries failover_resolver) by (simpl; lia).
  split; [exact H1|]. split; [exact H2|]. split; [exact H3|].
  exact (Resolve_cancelled_before_first_exchange cancelled_env failover_resolver
           (Dns.mkQuestion "example.com." 1 1) H1 H2 H3).
Defined.

(** X3.  The cost of a call in which no response is final and the
    context stays live: every server is contacted once per attempt, and
    the time slept is 100 ms + 200 ms + ... + retries * 100 ms. *)
Theorem Resolve_worst_case_cost
        (e : Upstream.env) (r : Upstream.UpstreamResolver) (question : Dns.Question) :
  (forall p, Upstream.ctx_done e p = false) ->
  0 <= Upstream.retries r <= 92233720368 ->
  Upstream.first_final e 0 (Upstream.schedule r) = None ->
  exchange_count (Upstream.trace (Upstream.Resolve e r question).2)
  = (Z.to_nat (Upstream.retries r + 1) * length (Upstream.servers r))%nat /\
  total_sleep (Upstream.trace (Upstream.Resolve e r question).2)
  = 50 * Upstream.retries r * (Upstream.retries r + 1) * Millisecond.
Proof.
  intros Hctx Hret Hnone. unfold Upstream.Resolve.
  destruct (attempts_loop_spec e r Hctx (proj2 Hret)
              (Z.to_nat (Upstream.retries r + 1)) 0 None Upstream.start ltac:(lia))
    as (w' & Hr & Ht).
  unfold Upstream.schedule in Hnone. simpl Upstream.exchanges in Hr, Ht.
  rewrite Hnone in Hr, Ht. rewrite Hr. simpl in Ht |- *. rewrite Ht.
  destruct (rounds_cost r (Z.to_nat (Upstream.retries r + 1)) 0) as [H1 H2]; [lia|lia|].
  split; [exact H1|]. rewrite H2 by lia. lia.
Qed.

Lemma Resolve_worst_case_cost_witness :
  (forall p, Upstream.ctx_done servfail_env p = false) /\
  0 <= Upstream.retries failover_resolver <= 92233720368 /\
  Upstream.first_final servfail_env 0 (Upstream.schedule failover_resolver) = None /\
  exchange_count
    (Upstream.trace
       (Upstream.Resolve servfail_env failover_resolver (Dns.mkQuestion "example.com." 1 1)).2)
  = 8%nat /\
  total_sleep
    (Upstream.trace
       (Upstream.Resolve servfail_env failover_resolver (Dns.mkQuestion "example.com." 1 1)).2)
  = 600 * Millisecond.
Proof.
  assert (H1 : forall p, Upstream.ctx_done servfail_env p = false) by reflexivity.
  assert (H2 : 0 <= Upstream.retries failover_resolver <= 92233720368) by (simpl; lia).
  assert (H3 : Upstream.first_final servfail_env 0 (Upstream.schedule failover_resolver)
               = None) by reflexivity.
  split; [exact H1|]. split; [exact H2|]. split; [exact H3|].
  exact (Resolve_worst_case_cost servfail_env failover_resolver
           (Dns.mkQuestion "example.com." 1 1) H1 H2 H3).
Defined.

Section UpstreamErrors.
Import Dns Upstream.

(** The error a schedule leaves behind is that of its last exchange. *)
Lemma last_recorded_last (e : env) (sched : list string) (s : string) :
  last sched = Some s ->
  forall k lastErr,
  last_recorded e k sched lastErr
  = Some (recorded s (exchange e (k + length sched - 1) s)).
Proof.
  induction sched as [|s0 rest IH]; intros Hlast k lastErr; [discriminate|].
  destruct rest as [|s1 rest'].
  - simpl in *. injection Hlast as ->. do 3 f_equal. lia.
  - change (last_recorded e k (s0 :: s1 :: rest') lastErr)
      with (last_recorded e (S k) (s1 :: rest') (Some (recorded s0 (exchange e k s0)))).
    rewrite IH by exact Hlast.
    do 3 f_equal. simpl. lia.
Qed.

Lemma first_final_None_last (e : env) (sched : list string) (s : string) :
  last sched = Some s ->
  forall k, first_final e k sched = None ->
  final (exchange e (k + length sched - 1) s) = None.
Proof.
  induction sched as [|s0 rest IH]; intros Hlast k Hnone; [discriminate|].
  simpl in Hnone. destruct (final (exchange e k s0)) eqn:Ef; [discriminate|].
  destruct rest as [|s1 rest'].
  - simpl in *. injection Hlast as <-.
    by replace (k + 1 - 1)%nat with k by lia.
  - destruct (first_final e (S k) (s1 :: rest')) as [[j m]|] eqn:Er; [discriminate|].
    replace (k + length (s0 :: s1 :: rest') - 1)%nat
      with (S k + length (s1 :: rest') - 1)%nat by (simpl; lia).
    by apply IH.
Qed.

Lemma schedule_length (r : UpstreamResolver) :
  length (schedule r) = (Z.to_nat (retries r + 1) * length (servers r))%nat.
Proof.
  unfold schedule. induction (Z.to_nat (retries r + 1)) as [|n IH]; simpl; [reflexivity|].
  by rewrite length_app, IH.
Qed.

Lemma schedule_last (r : UpstreamResolver) (s : string) :
  last (servers r) = Some s -> 0 <= retries r -> last (schedule r) = Some s.
Proof.
  intros Hl Hr. unfold schedule.
  destruct (Z.to_nat (retries r + 1)) as [|n] eqn:En; [lia|]. clear En.
  induction n as [|n IH]; simpl in *.
  - by rewrite app_nil_r.
  - by rewrite last_app, IH.
Qed.
End UpstreamErrors.

(** X4.  With at least one server, a non-negative number of retries and
    a live context, the synthesized error "all upstream servers failed"
    is never the cause of the error [Resolve] returns.  The cause is the
    error recorded for the last exchange of the call: the exchange
    number [(retries+1) * len(servers)], made with the last server of
    the list, whose outcome was a transport error or a response with an
    rcode other than NOERROR and NXDOMAIN. *)
Theorem Resolve_error_names_a_server
        (e : Upstream.env) (r : Upstream.UpstreamResolver) (question : Dns.Question)
        (err : Upstream.error) :
  (forall p, Upstream.ctx_done e p = false) ->
  Upstream.servers r <> [] ->
  0 <= Upstream.retries r <= 92233720368 ->
  (Upstream.Resolve e r question).1 = inr err ->
  let n := (Z.to_nat (Upstream.retries r + 1) * length (Upstream.servers r))%nat in
  exists server,
    last (Upstream.servers r) = Some server /\
    Upstream.final (Upstream.exchange e (n - 1) server) = None /\
    err = Upstream.ErrResolve (Dns.QName question) (Upstream.retries r + 1)
            (Upstream.recorded server (Upstream.exchange e (n - 1) server)).
Proof.
  intros Hctx Hsrv Hret Herr n. unfold Upstream.Resolve in Herr.
  destruct (attempts_loop_spec e r Hctx (proj2 Hret)
              (Z.to_nat (Upstream.retries r + 1)) 0 None Upstream.start ltac:(lia))
    as (w' & Hr & _).
  rewrite Hr in Herr. simpl Upstream.exchanges in Herr. fold (Upstream.schedule r) in Herr.
  destruct (Upstream.first_final e 0 (Upstream.schedule r)) as [[j m]|] eqn:Ef;
    [discriminate|].
  destruct (last (Upstream.servers r)) as [server|] eqn:Hlast.
  2: { apply last_None in Hlast. done. }
  pose proof (schedule_last r server Hlast (proj1 Hret)) as Hsl.
  rewrite (last_recorded_last e _ server Hsl) in Herr.
  pose proof (first_final_None_last e _ server Hsl 0%nat Ef) as Hfin.
  rewrite schedule_length in Herr, Hfin. fold n in Herr, Hfin. simpl in Herr, Hfin.
  injection Herr as <-.
  exists server. split; [reflexivity|]. split; [exact Hfin|].
  by rewrite wrap64_small by lia.
Qed.

Lemma Resolve_error_names_a_server_witness :
  (forall p, Upstream.ctx_done servfail_env p = false) /\
  Upstream.servers failover_resolver <> [] /\
  0 <= Upstream.retries failover_resolver <= 92233720368 /\
  (Upstream.Resolve servfail_env failover_resolver (Dns.mkQuestion "example.com." 1 1)).1
  = inr (Upstream.ErrResolve "example.com." 4 (Upstream.ErrRcode 2)) /\
  exists server,
    last (Upstream.servers failover_resolver) = Some server /\
    Upstream.final (Upstream.exchange servfail_env 7 server) = None /\
    Upstream.ErrResolve "example.com." 4 (Upstream.ErrRcode 2)
    = Upstream.ErrResolve "example.com." 4
        (Upstream.recorded server (Upstream.exchange servfail_env 7 server)).
Proof.
  assert (H1 : forall p, Upstream.ctx_done servfail_env p = false) by reflexivity.
  assert (H2 : Upstream.servers failover_resolver <> []) by discriminate.
  assert (H3 : 0 <= Upstream.retries failover_resolver <= 92233720368) by (simpl; lia).
  assert (H4 : (Upstream.Resolve servfail_env failover_resolver
                  (Dns.mkQuestion "example.com." 1 1)).1
               = inr (Upstream.ErrResolve "example.com." 4 (Upstream.ErrRcode 2)))
    by reflexivity.
  split; [exact H1|]. split; [exact H2|]. split; [exact H3|]. split; [exact H4|].
  exact (Resolve_error_names_a_server servfail_env failover_resolver
           (Dns.mkQuestion "example.com." 1 1) _ H1 H2 H3 H4).
Defined.

(** X5.  [SetServers] ignores an empty list and [SetRetries] a negative
    number, so a resolver that has a server and a non-negative number of
    retries keeps both through any sequence of calls of the setters. *)
Theorem setters_keep_servers_and_retries
        (r : Upstream.UpstreamResolver) (calls : list UpstreamSetters.setter) :
  Upstream.servers r <> [] ->
  0 <= Upstream.retries r ->
  Upstream.servers (fold_left UpstreamSetters.apply_setter calls r) <> [] /\
  0 <= Upstream.retries (fold_left UpstreamSetters.apply_setter calls r).
Proof.
  revert r. induction calls as [|s calls IH]; intros r Hs Hr; simpl; [done|].
  apply IH; destruct s as [srvs|n]; simpl;
    unfold UpstreamSetters.SetServers, UpstreamSetters.SetRetries.
  - destruct srvs; simpl; [exact Hs|discriminate].
  - destruct (Z.geb_spec n 0); simpl; exact Hs.
  - destruct srvs; simpl; exact Hr.
  - destruct (Z.geb_spec n 0); simpl; [lia|exact Hr].
Qed.

Lemma setters_keep_servers_and_retries_witness :
  Upstream.servers failover_resolver <> [] /\
  0 <= Upstream.retries failover_resolver /\
  Upstream.servers
    (fold_left UpstreamSetters.apply_setter
               [UpstreamSetters.CallSetServers []; UpstreamSetters.CallSetRetries (-1);
                UpstreamSetters.CallSetServers ["9.9.9.9:53"]]
               failover_resolver) <> [] /\
  0 <= Upstream.retries
         (fold_left UpstreamSetters.apply_setter
                    [UpstreamSetters.CallSetServers []; UpstreamSetters.CallSetRetries (-1);
                     UpstreamSetters.CallSetServers ["9.9.9.9:53"]]
                    failover_resolver).
Proof.
  assert (H1 : Upstream.servers failover_resolver <> []) by discriminate.
  assert (H2 : 0 <= Upstream.retries failover_resolver) by (simpl; lia).
  split; [exact H1|]. split; [exact H2|].
  exact (setters_keep_servers_and_retries failover_resolver _ H1 H2).
Defined.

(** ** The cache: the other methods, and how they compose *)

Lemma run_without_restore_witness :
  0 < 2 /\
  Forall (fun op => forall entries now, op <> OpRestore entries now) busy_ops /\
  0 <= Cache.Size (run 2 (300 * Second) busy_ops).1 <= 2 /\
  Cache.Size (run 2 (300 * Second) busy_ops).1
  = Z.of_nat (length (Cache.evictList (run 2 (300 * Second) busy_ops).1)) /\
  list_matches_map (run 2 (300 * Second) busy_ops).1.
Proof.
  assert (H1 : 0 < 2) by lia.
  assert (H2 : Forall (fun op => forall entries now, op <> OpRestore entries now) busy_ops)
    by (repeat constructor; intros; discriminate).
  split; [exact H1|]. split; [exact H2|].
  exact (run_without_restore 2 (300 * Second) busy_ops H1 H2).
Defined.

Section CacheMore.
Import Dns Cache.

Lemma cached_without (c : LRUCache) (h : heap) (e : ref) (k : string) :
  cache_wf c h -> e ∈ evictList c ->
  cached (without e c) h k
  = if decide (k = Key (entry_at c e)) then None else cached c h k.
Proof.
  intros Hwf He. unfold cached. simpl items. case_decide as Hk.
  - subst k. by rewrite lookup_delete_eq.
  - by rewrite lookup_delete_ne.
Qed.

Lemma without_size (c : LRUCache) (h : heap) (e : ref) :
  cache_wf c h -> e ∈ evictList c -> Size (without e c) = Size c - 1.
Proof.
  intros Hwf He. unfold Size.
  rewrite (wf_size _ h (without_wf c h e Hwf He)), (wf_size c h Hwf). simpl.
  pose proof (Remove_length e _ He). lia.
Qed.

(** The sweep as a fold: the elements of [l] go, the others stay. *)
Lemma without_each_cached (h : heap) (l : list ref) :
  forall c : LRUCache,
  cache_wf c h -> NoDup l -> (forall e, e ∈ l -> e ∈ evictList c) ->
  forall k,
    cached (fold_left (fun c e => without e c) l c) h k
    = match items c !! k with
      | Some e => if decide (e ∈ l) then None else cached c h k
      | None => None
      end.
Proof.
  induction l as [|e l IH]; intros c Hwf Hnd Hin k.
  - simpl fold_left. unfold cached. destruct (items c !! k) as [e|]; [|reflexivity].
    destruct (decide (e ∈ [])) as [H|_]; [inversion H|reflexivity].
  - apply NoDup_cons in Hnd as [He Hnd].
    assert (Hec : e ∈ evictList c) by (apply Hin, list_elem_of_here).
    simpl fold_left. rewrite IH.
    + simpl items. destruct (decide (k = Key (entry_at c e))) as [->|Hk].
      * rewrite lookup_delete_eq.
        assert (Hl : items c !! Key (entry_at c e) = Some e)
          by (apply (wf_map _ _ Hwf); done).
        rewrite Hl. rewrite decide_True; [reflexivity|apply list_elem_of_here].
      * rewrite lookup_delete_ne by done.
        destruct (items c !! k) as [e'|] eqn:Hl; [|reflexivity].
        assert (Hne : e' <> e).
        { intros ->. apply (wf_map _ _ Hwf) in Hl as [_ Hl]. by apply Hk. }
        rewrite cached_without by done.
        rewrite (decide_False (P := k = Key (entry_at c e))) by done.
        destruct (decide (e' ∈ l)) as [Hd|Hd].
        -- rewrite decide_True; [reflexivity|by apply list_elem_of_further].
        -- rewrite decide_False; [reflexivity|].
           intros H. apply elem_of_cons in H as [H|H]; done.
    + by apply without_wf.
    + exact Hnd.
    + intros e' He'. simpl. apply Remove_elem; [exact (wf_nodup _ _ Hwf)|]. split.
      * apply Hin. by apply list_elem_of_further.
      * intros ->. by apply He.
Qed.
End CacheMore.

(** X7.  [Delete] in a cache that satisfies the invariants: the key is
    gone, every other key keeps its message and expiry, the size drops by
    one exactly when the key was there, the invariants are kept, and a
    second [Delete] of the key changes nothing. *)
Theorem Delete_removes_exactly_the_key
        (c : Cache.LRUCache) (h : Cache.heap) (key : string) :
  cache_wf c h ->
  cache_wf (Cache.Delete c key) h /\
  cached (Cache.Delete c key) h key = None /\
  (forall k, k <> key -> cached (Cache.Delete c key) h k = cached c h k) /\
  Cache.Size (Cache.Delete c key)
  = Cache.Size c - match Cache.items c !! key with Some _ => 1 | None => 0 end /\
  Cache.Delete (Cache.Delete c key) key = Cache.Delete c key.
Proof.
  intros Hwf. split; [by apply Delete_wf|].
  destruct (Cache.items c !! key) as [e|] eqn:Hl.
  - rewrite (Delete_hit c h key e Hwf Hl).
    pose proof Hl as Hl'. apply (wf_map _ _ Hwf) in Hl' as [He Hkey].
    split; [|split; [|split]].
    + rewrite (cached_without c h e) by done. rewrite decide_True; done.
    + intros k Hk. rewrite (cached_without c h e) by done.
      rewrite decide_False; congruence.
    + by apply (without_size c h e).
    + unfold Cache.Delete at 1. simpl. rewrite Hkey. by rewrite lookup_delete_eq.
  - unfold Cache.Delete. rewrite Hl. rewrite Hl.
    split; [|split; [done|split; [lia|reflexivity]]].
    unfold cached. by rewrite Hl.
Qed.

Lemma Delete_removes_exactly_the_key_witness :
  cache_wf two_entries.1 two_entries.2 /\
  cached (Cache.Delete two_entries.1 "a.test.:A:IN") two_entries.2 "a.test.:A:IN" = None /\
  Cache.Size (Cache.Delete two_entries.1 "a.test.:A:IN") = 1.
Proof.
  split; [exact two_entries_wf|].
  pose proof (Delete_removes_exactly_the_key two_entries.1 two_entries.2 "a.test.:A:IN"
                two_entries_wf) as (_ & H1 & _ & H2 & _).
  split; [exact H1|exact H2].
Defined.

(** X8.  A sweep of [removeExpired] at [now], in a cache that satisfies
    the invariants: exactly the entries with [now] after their expiry go,
    every other key keeps its message and expiry, and the invariants are
    kept. *)
Theorem removeExpired_removes_exactly_expired
        (c : Cache.LRUCache) (h : Cache.heap) (now : Z) :
  cache_wf c h ->
  cache_wf (Cache.removeExpired c now) h /\
  forall k,
    cached (Cache.removeExpired c now) h k
    = match cached c h k with
      | Some (m, exp) => if now >? exp then None else Some (m, exp)
      | None => None
      end.
Proof.
  intros Hwf. split; [by apply removeExpired_wf|].
  intros k. unfold Cache.removeExpired.
  change (fold_left _ ?l c) with (fold_left (fun c e => without e c) l c).
  rewrite (without_each_cached h _ c Hwf).
  - unfold cached. destruct (Cache.items c !! k) as [e|] eqn:Hl; [|reflexivity].
    apply (wf_map _ _ Hwf) in Hl as [He _].
    destruct (now >? Cache.ExpiresAt (Cache.entry_at c e)) eqn:Hexp.
    + rewrite decide_True; [reflexivity|].
      apply list_elem_of_In, List.filter_In. split; [|exact Hexp].
      apply List.in_rev. rewrite rev_involutive. by apply list_elem_of_In.
    + rewrite decide_False; [reflexivity|].
      intros Hin. apply list_elem_of_In, List.filter_In in Hin as [_ Hin]. congruence.
  - apply NoDup_ListNoDup, List.NoDup_filter, List.NoDup_rev, NoDup_ListNoDup.
    exact (wf_nodup _ _ Hwf).
  - intros e He. apply list_elem_of_In, List.filter_In in He as [He _].
    apply List.in_rev in He. by apply list_elem_of_In.
Qed.

Lemma removeExpired_removes_exactly_expired_witness :
  cache_wf two_entries.1 two_entries.2 /\
  cached (Cache.removeExpired two_entries.1 (100 * Second)) two_entries.2 "b.test.:A:IN"
  = None /\
  cached (Cache.removeExpired two_entries.1 (100 * Second)) two_entries.2 "a.test.:A:IN"
  = Some (answer_with_ttl 300, 310 * Second).
Proof.
  split; [exact two_entries_wf|].
  pose proof (proj2 (removeExpired_removes_exactly_expired two_entries.1 two_entries.2
                       (100 * Second) two_entries_wf)) as H.
  split; [exact (H "b.test.:A:IN")|exact (H "a.test.:A:IN")].
Defined.

(** X9.  [Set] followed by [Get] of the same key, in a cache that
    satisfies the invariants: up to the instant [now + ttl] (the default
    TTL for [ttl = 0]) the [Get] returns a new location that holds what
    the caller's message held at the [Set]; after that instant it reports
    a miss and the key is gone. *)
Theorem Set_then_Get
        (c : Cache.LRUCache) (h : Cache.heap) (key : string) (response : Cache.loc)
        (ttl now now' : Z) :
  cache_wf c h ->
  let ttl' := if ttl =? 0 then Cache.defaultTTL c else ttl in
  let c1 := (Cache.Set_ c h key response ttl now).1 in
  let h1 := (Cache.Set_ c h key response ttl now).2 in
  (now' <= now + ttl' ->
   (Cache.Get c1 h1 key now').1.1 = Some (length h1) /\
   Cache.deref (Cache.Get c1 h1 key now').2 (length h1) = Cache.deref h response) /\
  (now + ttl' < now' ->
   (Cache.Get c1 h1 key now').1.1 = None /\
   cached (Cache.Get c1 h1 key now').1.2 (Cache.Get c1 h1 key now').2 key = None).
Proof.
  intros Hwf ttl' c1 h1.
  pose proof (Set_cached c h key response ttl now Hwf) as Hc.
  fold c1 h1 ttl' in Hc. unfold cached in Hc.
  destruct (Cache.items c1 !! key) as [e|] eqn:Hl; [|discriminate].
  injection Hc as Hd Hexp. unfold Cache.Get, Cache.Copy, Cache.alloc. rewrite Hl, Hexp.
  split.
  - intros Hlive. destruct (Z.gtb_spec now' (now + ttl')); [lia|]. simpl.
    split; [reflexivity|]. by rewrite deref_alloc_new.
  - intros Hdead. destruct (Z.gtb_spec now' (now + ttl')); [|lia]. simpl.
    split; [reflexivity|]. unfold cached, Cache.Delete. rewrite Hl. simpl.
    by rewrite lookup_delete_eq.
Qed.

Lemma Set_then_Get_witness :
  cache_wf two_entries.1 two_entries.2 /\
  45 * Second <= 30 * Second + 300 * Second /\
  (Cache.Get (Cache.Set_ two_entries.1 two_entries.2 "c.test.:A:IN" 1%nat 0 (30 * Second)).1
             (Cache.Set_ two_entries.1 two_entries.2 "c.test.:A:IN" 1%nat 0 (30 * Second)).2
             "c.test.:A:IN" (45 * Second)).1.1 = Some 5%nat /\
  Cache.deref
    (Cache.Get (Cache.Set_ two_entries.1 two_entries.2 "c.test.:A:IN" 1%nat 0 (30 * Second)).1
               (Cache.Set_ two_entries.1 two_entries.2 "c.test.:A:IN" 1%nat 0 (30 * Second)).2
               "c.test.:A:IN" (45 * Second)).2 5%nat
  = answer_with_ttl 60.
Proof.
  assert (H : 45 * Second <= 30 * Second + 300 * Second) by (vm_compute; discriminate).
  split; [exact two_entries_wf|]. split; [exact H|].
  exact (proj1 (Set_then_Get two_entries.1 two_entries.2 "c.test.:A:IN" 1%nat 0
                             (30 * Second) (45 * Second) two_entries_wf) H).
Defined.

Section RestoreCapacity.
Import Dns Cache.

Lemma load_entries_wf (now : Z) (entries : list SerializableCacheEntry) :
  forall (c0 : LRUCache) (h0 : heap),
  cache_wf c0 h0 ->
  NoDup (map SKey entries) ->
  (forall x, x ∈ entries -> items c0 !! SKey x = None) ->
  cache_wf (load_entries c0 h0 now entries).1 (load_entries c0 h0 now entries).2.
Proof.
  induction entries as [|x rest IH]; intros c0 h0 Hwf Hnd Hnew; [exact Hwf|].
  simpl in Hnd. apply NoDup_cons in Hnd as [Hx Hnd].
  assert (Hwf1 : cache_wf c0 (h0 ++ [SResponse x]))
    by (eapply wf_heap_grow; [exact Hwf|rewrite length_app; lia]).
  simpl load_entries. unfold alloc.
  destruct (now <? SExpiresAt x).
  - destruct (make_room c0 (h0 ++ [SResponse x]) Hwf1) as (Hwf2 & Hroom & Hnone).
    simpl in Hwf2, Hroom, Hnone. apply IH.
    + apply push_new_wf; try done.
      * simpl. apply Hnone, Hnew, list_elem_of_here.
      * simpl. rewrite length_app. simpl. lia.
    + exact Hnd.
    + intros y Hy. simpl. rewrite lookup_insert_ne.
      * apply Hnone, Hnew. by apply list_elem_of_further.
      * intros E. apply Hx. rewrite E. apply list_elem_of_fmap. by exists y.
  - apply IH; [exact Hwf1|exact Hnd|].
    intros y Hy. apply Hnew. by apply list_elem_of_further.
Qed.
End RestoreCapacity.

(** X10.  [LoadFromFile] honours the capacity: loading entries with
    distinct keys into a new cache of any positive capacity, however many
    entries the file has, leaves a cache within its capacity in which the
    list and the map agree. *)
Theorem restore_into_new_cache_within_capacity
        (cap defaultTTL now : Z) (h0 : Cache.heap)
        (entries : list Cache.SerializableCacheEntry) :
  0 < cap ->
  NoDup (map Cache.SKey entries) ->
  let c := (Cache.load_entries (Cache.NewLRUCache cap defaultTTL) h0 now entries).1 in
  0 <= Cache.Size c <= cap /\
  Cache.Size c = Z.of_nat (length (Cache.evictList c)) /\
  list_matches_map c.
Proof.
  intros Hcap Hnd c.
  assert (Hwf : cache_wf c (Cache.load_entries (Cache.NewLRUCache cap defaultTTL)
                                               h0 now entries).2).
  { apply load_entries_wf; [by apply NewLRUCache_wf|exact Hnd|].
    intros x _. apply lookup_empty. }
  pose proof (wf_size c _ Hwf) as Hsize. pose proof (wf_bound _ _ Hwf) as Hb.
  assert (Hc : Cache.capacity c = cap) by apply load_entries_capacity.
  unfold Cache.Size. rewrite Hsize. split; [lia|].
  split; [reflexivity|by eapply wf_list_matches_map].
Qed.

Lemma restore_into_new_cache_within_capacity_witness :
  0 < 2 /\
  NoDup (map Cache.SKey three_entries_snapshot) /\
  0 <= Cache.Size (Cache.load_entries (Cache.NewLRUCache 2 (300 * Second)) []
                                      (100 * Second) three_entries_snapshot).1 <= 2 /\
  Cache.Size (Cache.load_entries (Cache.NewLRUCache 2 (300 * Second)) []
                                 (100 * Second) three_entries_snapshot).1
  = Z.of_nat (length (Cache.evictList
                        (Cache.load_entries (Cache.NewLRUCache 2 (300 * Second)) []
                                            (100 * Second) three_entries_snapshot).1)) /\
  list_matches_map (Cache.load_entries (Cache.NewLRUCache 2 (300 * Second)) []
                                       (100 * Second) three_entries_snapshot).1.
Proof.
  assert (H1 : 0 < 2) by lia.
  assert (H2 : NoDup (map Cache.SKey three_entries_snapshot)).
  { simpl. repeat (apply NoDup_cons; split; [rewrite ?elem_of_cons, elem_of_nil; intros H; repeat destruct H as [H|H]; try discriminate; done|]). constructor. }
  split; [exact H1|]. split; [exact H2|].
  exact (restore_into_new_cache_within_capacity 2 (300 * Second) (100 * Second) []
           three_entries_snapshot H1 H2).
Defined.

(** ** The request handler: answers from the cache and from upstream *)

(** X11.  The TTL the handler caches a response for is always between
    60 and 3600 seconds; in particular it is positive, so the test
    [ttl > 0] in front of [cache.Set] never fails. *)
Theorem extractTTL_between_one_minute_and_one_hour (msg : Dns.Msg) :
  60 * Second <= TTL.extractTTL msg <= 3600 * Second.
Proof.
  unfold TTL.extractTTL, Second, Millisecond.
  destruct (Dns.Answer msg) as [|rr rrs]; [lia|].
  pose proof (minTTL_loop_le_init (rr :: rrs) 3600) as Hle.
  destruct (Z.ltb_spec (TTL.minTTL_loop 3600 (rr :: rrs)) 60); lia.
Qed.

Section HandlerMore.
Import Dns Cache TTL Handler.

Lemma Get_hit (c : LRUCache) (h : heap) (key : string) (now : Z) (m : Msg) (exp : Z) :
  cache_wf c h ->
  cached c h key = Some (m, exp) ->
  now <= exp ->
  (Get c h key now).1.1 = Some (length h) /\
  (Get c h key now).2 = h ++ [m] /\
  cache_wf (Get c h key now).1.2 (Get c h key now).2 /\
  (forall m' k, cached (Get c h key now).1.2 (store (Get c h key now).2 (length h) m') k
                = cached c h k).
Proof.
  intros Hwf Hc Hlive. pose proof (Get_wf c h key now Hwf) as Hwf'.
  revert Hwf'. unfold cached in Hc. unfold Get, Copy, alloc.
  destruct (items c !! key) as [e|] eqn:Hl; [|discriminate].
  injection Hc as Hd Hexp. rewrite Hexp, Hd.
  destruct (Z.gtb_spec now exp); [lia|]. simpl. intros Hwf'.
  split; [reflexivity|]. split; [reflexivity|]. split; [exact Hwf'|].
  intros m' k. unfold cached. simpl.
  destruct (items c !! k) as [e'|] eqn:Hk; [|reflexivity].
  change (entry_at (with_list _ c) e') with (entry_at c e').
  apply (wf_map _ _ Hwf) in Hk as [He' _]. destruct (wf_refs _ _ Hwf e' He') as [_ Hr].
  rewrite deref_store_other by lia. by rewrite deref_alloc_old.
Qed.

Lemma cache_and_write_full (c : LRUCache) (h : heap) (cacheKey : string)
      (r fresh : Msg) (now : Z) :
  cache_wf c h ->
  exists c' h',
    cache_and_write c h cacheKey r fresh now = Served (set_Id (Id r) fresh) c' h' /\
    cached c' h' cacheKey = Some (set_Id (Id r) fresh, now + extractTTL fresh) /\
    cache_wf c' h'.
Proof.
  intros Hwf. unfold cache_and_write, alloc.
  set (l := length h).
  set (h2 := store (h ++ [fresh]) l (set_Id (Id r) (deref (h ++ [fresh]) l))).
  assert (Hlen : length h2 = S (length h)).
  { subst h2. unfold store. rewrite length_insert, length_app. simpl. lia. }
  assert (Hd : deref h2 l = set_Id (Id r) fresh).
  { subst h2 l. rewrite deref_store_same by (rewrite length_app; simpl; lia).
    by rewrite deref_alloc_new. }
  rewrite Hd, extractTTL_set_Id.
  pose proof (extractTTL_positive fresh) as Hpos.
  destruct (Z.gtb_spec (extractTTL fresh) 0) as [_|Hle]; [|lia].
  assert (Hwf2 : cache_wf c h2) by (eapply wf_heap_grow; [exact Hwf|lia]).
  pose proof (Set_heap c h2 cacheKey l (extractTTL fresh) now) as Hh.
  pose proof (Set_cached c h2 cacheKey l (extractTTL fresh) now Hwf2) as Hc.
  pose proof (Set_wf c h2 cacheKey l (extractTTL fresh) now Hwf2) as Hwf3.
  destruct (Set_ c h2 cacheKey l (extractTTL fresh) now) as [c' h3].
  simpl in Hh, Hc, Hwf3.
  exists c', h3. split; [|split; [|exact Hwf3]].
  - f_equal. rewrite Hh, deref_alloc_old by (subst l; lia). exact Hd.
  - rewrite Hc, Hd. destruct (Z.eqb_spec (extractTTL fresh) 0); [lia|reflexivity].
Qed.
End HandlerMore.

(** X12.  A query whose key the cache holds unexpired is answered from
    the cache whatever the local records and the upstream resolver are:
    the reply is the stored message with the id of the query, and what
    the cache holds - the stored id included - is as before for every
    key. *)
Theorem ServeDNS_answers_from_cache
        (ParseIP : string -> option Dns.IP) (To4 To16 : Dns.IP -> option Dns.IP)
        (TypeToString ClassToString : Z -> string)
        (records : Config.RecordsConfig) (depth : nat)
        (upstream_error : Type) (resolver : Dns.Question -> Dns.Msg + upstream_error)
        (c : Cache.LRUCache) (h : Cache.heap) (r : Dns.Msg)
        (q : Dns.Question) (rest : list Dns.Question) (m : Dns.Msg) (exp : Z)
        (now_get now_set : Z) :
  cache_wf c h ->
  Dns.Question_ r = q :: rest ->
  Dns.Qtype q ∈ supported_types ->
  cached c h (Cache.GenerateCacheKey TypeToString ClassToString q) = Some (m, exp) ->
  now_get <= exp ->
  exists c' h',
    Handler.ServeDNS ParseIP To4 To16 TypeToString ClassToString records depth
                     upstream_error resolver c h r now_get now_set
    = Handler.Served (Dns.set_Id (Dns.Id r) m) c' h' /\
    cache_wf c' h' /\
    forall k, cached c' h' k = cached c h k.
Proof.
  intros Hwf Eq Hs Hc Hlive. unfold Handler.ServeDNS. rewrite Eq.
  apply isSupportedType_spec in Hs. rewrite Hs. simpl negb. cbv iota.
  destruct (Get_hit c h _ now_get m exp Hwf Hc Hlive) as (Hl & Hh & Hwf' & Hsame).
  destruct (Cache.Get c h (Cache.GenerateCacheKey TypeToString ClassToString q) now_get)
    as [[o c1] h1].
  simpl in Hl, Hh, Hwf', Hsame. subst o h1.
  assert (Hd : Cache.deref (h ++ [m]) (length h) = m) by apply deref_alloc_new.
  rewrite Hd. eexists _, _. split; [|split].
  - f_equal. apply deref_store_same. rewrite length_app. simpl. lia.
  - eapply wf_heap_grow; [exact Hwf'|]. unfold Cache.store. by rewrite length_insert.
  - intros k. apply Hsame.
Qed.

(** X13.  When the cache and the local resolver miss and the upstream
    resolver returns a response, whatever its rcode, the reply is that
    response with the id of the query, and the cache then holds the same
    message for the key of the question, for the extracted TTL. *)
Theorem ServeDNS_caches_upstream_answer
        (ParseIP : string -> option Dns.IP) (To4 To16 : Dns.IP -> option Dns.IP)
        (TypeToString ClassToString : Z -> string)
        (records : Config.RecordsConfig) (depth : nat)
        (upstream_error : Type) (resolver : Dns.Question -> Dns.Msg + upstream_error)
        (c : Cache.LRUCache) (h : Cache.heap) (r : Dns.Msg)
        (q : Dns.Question) (rest : list Dns.Question) (m : Dns.Msg)
        (now_get now_set : Z) :
  cache_wf c h ->
  Dns.Question_ r = q :: rest ->
  Dns.Qtype q ∈ supported_types ->
  (Cache.Get c h (Cache.GenerateCacheKey TypeToString ClassToString q) now_get).1.1 = None ->
  Resolver.Resolve ParseIP To4 To16 records depth q = Resolver.Done None ->
  resolver q = inl m ->
  exists c' h',
    Handler.ServeDNS ParseIP To4 To16 TypeToString ClassToString records depth
                     upstream_error resolver c h r now_get now_set
    = Handler.Served (Dns.set_Id (Dns.Id r) m) c' h' /\
    cached c' h' (Cache.GenerateCacheKey TypeToString ClassToString q)
    = Some (Dns.set_Id (Dns.Id r) m, now_set + TTL.extractTTL m) /\
    cache_wf c' h'.
Proof.
  intros Hwf Eq Hs Hmiss Hlocal Hup. unfold Handler.ServeDNS. rewrite Eq.
  apply isSupportedType_spec in Hs. rewrite Hs. simpl negb. cbv iota.
  pose proof (Get_wf c h (Cache.GenerateCacheKey TypeToString ClassToString q) now_get Hwf)
    as Hwf1.
  destruct (Get_miss_adds_nothing c h _ now_get Hmiss) as (Hh & _).
  destruct (Cache.Get c h (Cache.GenerateCacheKey TypeToString ClassToString q) now_get)
    as [[o c1] h1].
  simpl in Hmiss, Hh, Hwf1. subst o h1. rewrite Hlocal, Hup.
  apply cache_and_write_full. exact Hwf1.
Qed.

Lemma ServeDNS_answers_from_cache_witness :
  cache_wf two_entries.1 two_entries.2 /\
  Dns.Question_ (query 77 "a.test." 1) = [Dns.mkQuestion "a.test." 1 Dns.ClassINET] /\
  1 ∈ supported_types /\
  cached two_entries.1 two_entries.2
         (Cache.GenerateCacheKey example_TypeToString example_ClassToString
                                 (Dns.mkQuestion "a.test." 1 Dns.ClassINET))
  = Some (answer_with_ttl 300, 310 * Second) /\
  30 * Second <= 310 * Second /\
  exists c' h',
    Handler.ServeDNS example_ParseIP example_To4 example_To16
                     example_TypeToString example_ClassToString example_records 10
                     Upstream.error failing_upstream
                     two_entries.1 two_entries.2 (query 77 "a.test." 1)
                     (30 * Second) (31 * Second)
    = Handler.Served (Dns.set_Id 77 (answer_with_ttl 300)) c' h' /\
    cache_wf c' h' /\
    forall k, cached c' h' k = cached two_entries.1 two_entries.2 k.
Proof.
  assert (H1 : Dns.Question_ (query 77 "a.test." 1)
               = [Dns.mkQuestion "a.test." 1 Dns.ClassINET]) by reflexivity.
  assert (H2 : 1 ∈ supported_types) by apply list_elem_of_here.
  assert (H3 : cached two_entries.1 two_entries.2
                 (Cache.GenerateCacheKey example_TypeToString example_ClassToString
                    (Dns.mkQuestion "a.test." 1 Dns.ClassINET))
               = Some (answer_with_ttl 300, 310 * Second)) by (vm_compute; reflexivity).
  assert (H4 : 30 * Second <= 310 * Second) by (vm_compute; discriminate).
  split; [exact two_entries_wf|]. split; [exact H1|]. split; [exact H2|].
  split; [exact H3|]. split; [exact H4|].
  exact (ServeDNS_answers_from_cache
           example_ParseIP example_To4 example_To16
           example_TypeToString example_ClassToString example_records 10
           Upstream.error failing_upstream
           two_entries.1 two_entries.2 (query 77 "a.test." 1)
           (Dns.mkQuestion "a.test." 1 Dns.ClassINET) []
           (answer_with_ttl 300) (310 * Second) (30 * Second) (31 * Second)
           two_entries_wf H1 H2 H3 H4).
Defined.

Lemma ServeDNS_caches_upstream_answer_witness :
  cache_wf two_entries.1 two_entries.2 /\
  Dns.Question_ (query 78 "up.test." 1) = [Dns.mkQuestion "up.test." 1 Dns.ClassINET] /\
  1 ∈ supported_types /\
  (Cache.Get two_entries.1 two_entries.2
             (Cache.GenerateCacheKey example_TypeToString example_ClassToString
                                     (Dns.mkQuestion "up.test." 1 Dns.ClassINET))
             (30 * Second)).1.1 = None /\
  Resolver.Resolve example_ParseIP example_To4 example_To16 example_records 10
                   (Dns.mkQuestion "up.test." 1 Dns.ClassINET) = Resolver.Done None /\
  exists c' h',
    Handler.ServeDNS example_ParseIP example_To4 example_To16
                     example_TypeToString example_ClassToString example_records 10
                     Upstream.error answering_upstream
                     two_entries.1 two_entries.2 (query 78 "up.test." 1)
                     (30 * Second) (31 * Second)
    = Handler.Served (Dns.set_Id 78 (answer_with_ttl 5)) c' h' /\
    cached c' h' (Cache.GenerateCacheKey example_TypeToString example_ClassToString
                                         (Dns.mkQuestion "up.test." 1 Dns.ClassINET))
    = Some (Dns.set_Id 78 (answer_with_ttl 5), 31 * Second + 60 * Second) /\
    cache_wf c' h'.
Proof.
  assert (H1 : Dns.Question_ (query 78 "up.test." 1)
               = [Dns.mkQuestion "up.test." 1 Dns.ClassINET]) by reflexivity.
  assert (H2 : 1 ∈ supported_types) by apply list_elem_of_here.
  assert (H3 : (Cache.Get two_entries.1 two_entries.2
                  (Cache.GenerateCacheKey example_TypeToString example_ClassToString
                     (Dns.mkQuestion "up.test." 1 Dns.ClassINET))
                  (30 * Second)).1.1 = None) by (vm_compute; reflexivity).
  assert (H4 : Resolver.Resolve example_ParseIP example_To4 example_To16 example_records 10
                 (Dns.mkQuestion "up.test." 1 Dns.ClassINET) = Resolver.Done None)
    by (vm_compute; reflexivity).
  split; [exact two_entries_wf|]. split; [exact H1|]. split; [exact H2|].
  split; [exact H3|]. split; [exact H4|].
  exact (ServeDNS_caches_upstream_answer
           example_ParseIP example_To4 example_To16
           example_TypeToString example_ClassToString example_records 10
           Upstream.error answering_upstream
           two_entries.1 two_entries.2 (query 78 "up.test." 1)
           (Dns.mkQuestion "up.test." 1 Dns.ClassINET) []
           (answer_with_ttl 5) (30 * Second) (31 * Second)
           two_entries_wf H1 H2 H3 H4 eq_refl).
Defined.

(** X14.  After a query answered from upstream, a second query with the
    same first question that arrives within 60 seconds of the write-back
    gets the same message with its own id, although this time the local
    records and the upstream resolver are not consulted: they may be any,
    a failing resolver included. *)
Theorem ServeDNS_second_query_within_a_minute
        (ParseIP : string -> option Dns.IP) (To4 To16 : Dns.IP -> option Dns.IP)
        (TypeToString ClassToString : Z -> string)
        (records records' : Config.RecordsConfig) (depth depth' : nat)
        (upstream_error : Type)
        (resolver resolver' : Dns.Question -> Dns.Msg + upstream_error)
        (c : Cache.LRUCache) (h : Cache.heap) (r r' : Dns.Msg)
        (q : Dns.Question) (rest rest' : list Dns.Question) (m : Dns.Msg)
        (now_get now_set now_get' now_set' : Z) :
  cache_wf c h ->
  Dns.Question_ r = q :: rest ->
  Dns.Question_ r' = q :: rest' ->
  Dns.Qtype q ∈ supported_types ->
  (Cache.Get c h (Cache.GenerateCacheKey TypeToString ClassToString q) now_get).1.1 = None ->
  Resolver.Resolve ParseIP To4 To16 records depth q = Resolver.Done None ->
  resolver q = inl m ->
  now_get' <= now_set + 60 * Second ->
  exists c1 h1 c2 h2,
    Handler.ServeDNS ParseIP To4 To16 TypeToString ClassToString records depth
                     upstream_error resolver c h r now_get now_set
    = Handler.Served (Dns.set_Id (Dns.Id r) m) c1 h1 /\
    Handler.ServeDNS ParseIP To4 To16 TypeToString ClassToString records' depth'
                     upstream_error resolver' c1 h1 r' now_get' now_set'
    = Handler.Served (Dns.set_Id (Dns.Id r') m) c2 h2.
Proof.
  intros Hwf Eq Eq' Hs Hmiss Hlocal Hup Hsoon.
  set (key := Cache.GenerateCacheKey TypeToString ClassToString q) in *.
  assert (Hfirst : exists c1 h1,
             Handler.ServeDNS ParseIP To4 To16 TypeToString ClassToString records depth
                              upstream_error resolver c h r now_get now_set
             = Handler.Served (Dns.set_Id (Dns.Id r) m) c1 h1 /\
             cached c1 h1 key = Some (Dns.set_Id (Dns.Id r) m, now_set + TTL.extractTTL m) /\
             cache_wf c1 h1).
  { unfold Handler.ServeDNS. rewrite Eq. fold key.
    rewrite (proj2 (isSupportedType_spec _) Hs). simpl negb. cbv iota.
    pose proof (Get_wf c h key now_get Hwf) as Hwf1.
    destruct (Get_miss_adds_nothing c h key now_get Hmiss) as (Hh & _).
    destruct (Cache.Get c h key now_get) as [[o c1] h1].
    simpl in Hmiss, Hh, Hwf1. subst o h1. rewrite Hlocal, Hup.
    apply cache_and_write_full. exact Hwf1. }
  destruct Hfirst as (c1 & h1 & Hserved & Hc1 & Hwf1).
  exists c1, h1. 
  pose proof (extractTTL_positive m) as Hpos.
  assert (Hlive : now_get' <= now_set + TTL.extractTTL m).
  { assert (60 * Second <= TTL.extractTTL m); [|lia].
    unfold TTL.extractTTL, Second, Millisecond.
    destruct (Dns.Answer m) as [|rr rrs]; [lia|].
    destruct (Z.ltb_spec (TTL.minTTL_loop 3600 (rr :: rrs)) 60); lia. }
  destruct (Get_hit c1 h1 key now_get' _ _ Hwf1 Hc1 Hlive) as (Hl & Hh & _ & _).
  unfold Handler.ServeDNS at 2. rewrite Eq'. fold key.
  rewrite (proj2 (isSupportedType_spec _) Hs). simpl negb. cbv iota.
  destruct (Cache.Get c1 h1 key now_get') as [[o c2] h2].
  simpl in Hl, Hh. subst o h2.
  eexists _, _. split; [exact Hserved|].
  f_equal. rewrite deref_alloc_new.
  rewrite deref_store_same by (rewrite length_app; simpl; lia). reflexivity.
Qed.

Lemma ServeDNS_second_query_within_a_minute_witness :
  cache_wf two_entries.1 two_entries.2 /\
  Dns.Question_ (query 78 "up.test." 1) = [Dns.mkQuestion "up.test." 1 Dns.ClassINET] /\
  Dns.Question_ (query 79 "up.test." 1) = [Dns.mkQuestion "up.test." 1 Dns.ClassINET] /\
  1 ∈ supported_types /\
  (Cache.Get two_entries.1 two_entries.2
             (Cache.GenerateCacheKey example_TypeToString example_ClassToString
                                     (Dns.mkQuestion "up.test." 1 Dns.ClassINET))
             (30 * Second)).1.1 = None /\
  Resolver.Resolve example_ParseIP example_To4 example_To16 example_records 10
                   (Dns.mkQuestion "up.test." 1 Dns.ClassINET) = Resolver.Done None /\
  61 * Second <= 31 * Second + 60 * Second /\
  exists c1 h1 c2 h2,
    Handler.ServeDNS example_ParseIP example_To4 example_To16
                     example_TypeToString example_ClassToString example_records 10
                     Upstream.error answering_upstream
                     two_entries.1 two_entries.2 (query 78 "up.test." 1)
                     (30 * Second) (31 * Second)
    = Handler.Served (Dns.set_Id 78 (answer_with_ttl 5)) c1 h1 /\
    Handler.ServeDNS example_ParseIP example_To4 example_To16
                     example_TypeToString example_ClassToString Config.noRecords 0
                     Upstream.error failing_upstream
                     c1 h1 (query 79 "up.test." 1) (61 * Second) (62 * Second)
    = Handler.Served (Dns.set_Id 79 (answer_with_ttl 5)) c2 h2.
Proof.
  assert (H1 : Dns.Question_ (query 78 "up.test." 1)
               = [Dns.mkQuestion "up.test." 1 Dns.ClassINET]) by reflexivity.
  assert (H1' : Dns.Question_ (query 79 "up.test." 1)
                = [Dns.mkQuestion "up.test." 1 Dns.ClassINET]) by reflexivity.
  assert (H2 : 1 ∈ supported_types) by apply list_elem_of_here.
  assert (H3 : (Cache.Get two_entries.1 two_entries.2
                  (Cache.GenerateCacheKey example_TypeToString example_ClassToString
                     (Dns.mkQuestion "up.test." 1 Dns.ClassINET))
                  (30 * Second)).1.1 = None) by (vm_compute; reflexivity).
  assert (H4 : Resolver.Resolve example_ParseIP example_To4 example_To16 example_records 10
                 (Dns.mkQuestion "up.test." 1 Dns.ClassINET) = Resolver.Done None)
    by (vm_compute; reflexivity).
  assert (H5 : 61 * Second <= 31 * Second + 60 * Second) by (vm_compute; discriminate).
  split; [exact two_entries_wf|]. split; [exact H1|]. split; [exact H1'|].
  split; [exact H2|]. split; [exact H3|]. split; [exact H4|]. split; [exact H5|].
  exact (ServeDNS_second_query_within_a_minute
           example_ParseIP example_To4 example_To16
           example_TypeToString example_ClassToString example_records Config.noRecords 10 0
           Upstream.error answering_upstream failing_upstream
           two_entries.1 two_entries.2 (query 78 "up.test." 1) (query 79 "up.test." 1)
           (Dns.mkQuestion "up.test." 1 Dns.ClassINET) [] []
           (answer_with_ttl 5) (30 * Second) (31 * Second) (61 * Second) (62 * Second)
           two_entries_wf H1 H1' H2 H3 H4 eq_refl H5).
Defined.

(** ** The local resolver: exact matches, and what the outcome depends on *)

Section ResolverMore.
Import GoStrings Dns Config Resolver.

Variable ParseIP : string -> option IP.
Variable To4 To16 : IP -> option IP.
Variable records : RecordsConfig.

Lemma HasSuffixDot_app_dot (s : string) : HasSuffixDot (s +:+ ".") = true.
Proof.
  induction s as [|c t IH]; [reflexivity|].
  change (String c t +:+ ".") with (String c (t +:+ ".")). simpl.
  rewrite IH. by destruct t.
Qed.

Lemma dotted_ends_with_dot (target : string) : HasSuffixDot (dotted target) = true.
Proof.
  unfold dotted. destruct (HasSuffixDot target) eqn:E; [exact E|].
  apply HasSuffixDot_app_dot.
Qed.

(** The payload of a record does not depend on the owner name. *)
Lemma lookup_payload (qtype : Z) (domain name name' : string) :
  Data <$> lookup ParseIP To4 To16 records qtype domain name
  = Data <$> lookup ParseIP To4 To16 records qtype domain name'.
Proof.
  unfold lookup. repeat case_match; reflexivity.
Qed.

Lemma map_Data_set_Name (name : string) (l : list RR) :
  map Data (map (set_Name name) l) = map Data l.
Proof.
  induction l as [|a l IH]; simpl; [reflexivity|]. by rewrite IH.
Qed.

Lemma wildcard_loop_payload (resolve resolve' : Question -> outcome)
      (question question' : Question) (candidates : list string) :
  Qtype question = Qtype question' ->
  (forall w, payload (resolve (mkQuestion (w +:+ ".") (Qtype question) (Qclass question)))
             = payload (resolve' (mkQuestion (w +:+ ".") (Qtype question') (Qclass question')))) ->
  payload (wildcard_loop resolve question candidates)
  = payload (wildcard_loop resolve' question' candidates).
Proof.
  intros Ety Hres. induction candidates as [|w ws IH]; [reflexivity|].
  simpl. specialize (Hres w).
  destruct (resolve (mkQuestion (w +:+ ".") (Qtype question) (Qclass question)))
    as [|[resp|]];
    destruct (resolve' (mkQuestion (w +:+ ".") (Qtype question') (Qclass question')))
      as [|[resp'|]]; simpl in Hres; try discriminate; try reflexivity.
  - simpl. injection Hres as Hres. rewrite !map_Data_set_Name. by rewrite Hres.
  - exact IH.
Qed.

(** X17.  The local resolver ignores the case of the question name, one
    trailing dot and the class: two questions of the same type whose
    names are equal once lowered and stripped of a trailing dot both do
    not return, both miss, or both are answered with the same payloads. *)
Lemma Resolve_payload (depth : nat) :
  forall question question' : Question,
  ToLower (TrimSuffixDot (QName question)) = ToLower (TrimSuffixDot (QName question')) ->
  Qtype question = Qtype question' ->
  payload (Resolve ParseIP To4 To16 records depth question)
  = payload (Resolve ParseIP To4 To16 records depth question').
Proof.
  induction depth as [|depth IH]; intros question question' En Ety; [reflexivity|].
  simpl Resolve. rewrite <- En, <- Ety.
  pose proof (lookup_payload (Qtype question) (ToLower (TrimSuffixDot (QName question)))
                             (QName question) (QName question')) as Hp.
  destruct (lookup ParseIP To4 To16 records (Qtype question)
                   (ToLower (TrimSuffixDot (QName question))) (QName question)) as [rr|];
    destruct (lookup ParseIP To4 To16 records (Qtype question)
                     (ToLower (TrimSuffixDot (QName question))) (QName question'))
      as [rr'|]; simpl in Hp; try discriminate.
  - injection Hp as Hp. simpl. by rewrite Hp.
  - destruct (hasWildcardMatch records (ToLower (TrimSuffixDot (QName question)))
                               (Qtype question)); [|reflexivity].
    unfold resolveWildcard. apply wildcard_loop_payload; [exact Ety|].
    intros w. apply IH; [reflexivity|exact Ety].
Qed.

(** X16.  Two nested calls decide a resolution: at every greater depth
    [Resolve] gives what it gives at depth 2, so a question that is not
    settled by the exact lookup or by the first wildcard candidate is
    never settled. *)
Lemma Resolve_two_levels (depth : nat) (question : Question) :
  Resolve ParseIP To4 To16 records (S (S depth)) question
  = Resolve ParseIP To4 To16 records 2 question.
Proof.
  set (domain := ToLower (TrimSuffixDot (QName question))).
  destruct (lookup ParseIP To4 To16 records (Qtype question) domain (QName question))
    as [rr|] eqn:Hl.
  - by rewrite !(Resolve_hit ParseIP To4 To16 records _ question rr Hl).
  - rewrite !(Resolve_miss ParseIP To4 To16 records _ question Hl). fold domain.
    destruct (hasWildcardMatch records domain (Qtype question)) eqn:Hhas; [|reflexivity].
    destruct (wildcards_head domain) as [rest ->]. cbn [wildcard_loop].
    destruct (lookup ParseIP To4 To16 records (Qtype question) (first_wildcard domain)
                     (first_wildcard domain +:+ ".")) as [rr|] eqn:Hw.
    + rewrite !(Resolve_hit ParseIP To4 To16 records _ _ rr); try reflexivity;
        simpl QName; simpl Qtype; (rewrite normalize_wildcard; [exact Hw|apply ToLower_idem]).
    + rewrite !(Resolve_first_wildcard_overflow ParseIP To4 To16 records domain);
        try done; apply ToLower_idem.
Qed.
End ResolverMore.

(** X15.  An exact match is answered at once: with the record of the
    question's type for the normalized name, [Resolve] returns an
    authoritative NOERROR response without recursion available, whose
    question section is the question and whose only answer is that
    record, owned by the name as it was asked, of class IN and TTL 300. *)
Theorem Resolve_exact_match
        (ParseIP : string -> option Dns.IP) (To4 To16 : Dns.IP -> option Dns.IP)
        (records : Config.RecordsConfig) (depth : nat) (question : Dns.Question)
        (rr : Dns.RR) :
  Resolver.lookup ParseIP To4 To16 records (Dns.Qtype question)
                  (GoStrings.ToLower (GoStrings.TrimSuffixDot (Dns.QName question)))
                  (Dns.QName question) = Some rr ->
  Resolver.Resolve ParseIP To4 To16 records (S depth) question
  = Resolver.Done (Some (Dns.mkMsg 0 true 0 true false false false Dns.RcodeSuccess
                                   [question] [rr] [] [])) /\
  Dns.Hdr rr = Dns.mkHdr (Dns.QName question) (Dns.Qtype question) Dns.ClassINET 300.
Proof.
  intros Hl. split.
  - by apply Resolve_hit.
  - eapply lookup_header. exact Hl.
Qed.

Lemma Resolve_exact_match_witness :
  Resolver.lookup example_ParseIP example_To4 example_To16 alias_records Dns.TypeMX
                  (GoStrings.ToLower (GoStrings.TrimSuffixDot "Example."))
                  "Example."
  = Some (Dns.mkRR (Dns.mkHdr "Example." 15 1 300) (Dns.RD_MX 10 "mail.example.")) /\
  Resolver.Resolve example_ParseIP example_To4 example_To16 alias_records 1
                   (Dns.mkQuestion "Example." Dns.TypeMX Dns.ClassINET)
  = Resolver.Done
      (Some (Dns.mkMsg 0 true 0 true false false false Dns.RcodeSuccess
                       [Dns.mkQuestion "Example." Dns.TypeMX Dns.ClassINET]
                       [Dns.mkRR (Dns.mkHdr "Example." 15 1 300)
                                 (Dns.RD_MX 10 "mail.example.")] [] [])) /\
  Dns.Hdr (Dns.mkRR (Dns.mkHdr "Example." 15 1 300) (Dns.RD_MX 10 "mail.example."))
  = Dns.mkHdr "Example." Dns.TypeMX Dns.ClassINET 300.
Proof.
  assert (H : Resolver.lookup example_ParseIP example_To4 example_To16 alias_records
                Dns.TypeMX (GoStrings.ToLower (GoStrings.TrimSuffixDot "Example."))
                "Example."
              = Some (Dns.mkRR (Dns.mkHdr "Example." 15 1 300)
                               (Dns.RD_MX 10 "mail.example.")))
    by (vm_compute; reflexivity).
  split; [exact H|].
  exact (Resolve_exact_match example_ParseIP example_To4 example_To16 alias_records 0
           (Dns.mkQuestion "Example." Dns.TypeMX Dns.ClassINET) _ H).
Defined.

Lemma Resolve_payload_witness :
  GoStrings.ToLower (GoStrings.TrimSuffixDot "WWW.Example.")
  = GoStrings.ToLower (GoStrings.TrimSuffixDot "www.example") /\
  Dns.TypeCNAME = Dns.TypeCNAME /\
  payload (Resolver.Resolve example_ParseIP example_To4 example_To16 alias_records 3
                            (Dns.mkQuestion "WWW.Example." Dns.TypeCNAME 3))
  = payload (Resolver.Resolve example_ParseIP example_To4 example_To16 alias_records 3
                              (Dns.mkQuestion "www.example" Dns.TypeCNAME Dns.ClassINET)).
Proof.
  assert (H1 : GoStrings.ToLower (GoStrings.TrimSuffixDot "WWW.Example.")
               = GoStrings.ToLower (GoStrings.TrimSuffixDot "www.example"))
    by reflexivity.
  split; [exact H1|]. split; [reflexivity|].
  exact (Resolve_payload example_ParseIP example_To4 example_To16 alias_records 3
           (Dns.mkQuestion "WWW.Example." Dns.TypeCNAME 3)
           (Dns.mkQuestion "www.example" Dns.TypeCNAME Dns.ClassINET) H1 eq_refl).
Defined.

(** X18.  The target of every CNAME and MX answer the local resolver
    builds ends with a dot, whether the configured target has one or
    not. *)
Theorem alias_targets_end_with_dot
        (ParseIP : string -> option Dns.IP) (To4 To16 : Dns.IP -> option Dns.IP)
        (records : Config.RecordsConfig) (qtype : Z) (domain name : string) (rr : Dns.RR) :
  qtype = Dns.TypeCNAME \/ qtype = Dns.TypeMX ->
  Resolver.lookup ParseIP To4 To16 records qtype domain name = Some rr ->
  exists target,
    GoStrings.HasSuffixDot target = true /\
    (Dns.Data rr = Dns.RD_CNAME target \/
     exists preference, Dns.Data rr = Dns.RD_MX preference target).
Proof.
  intros [-> | ->]; unfold Resolver.lookup; simpl.
  - destruct (Config.CNAME records !! domain) as [target|]; [|discriminate].
    intros [= <-]. exists (Resolver.dotted target). split; [apply dotted_ends_with_dot|].
    by left.
  - destruct (Config.MX records !! domain) as [mx|]; [|discriminate].
    intros [= <-]. exists (Resolver.dotted (Config.MX_Target mx)).
    split; [apply dotted_ends_with_dot|]. right. eauto.
Qed.

Lemma alias_targets_end_with_dot_witness :
  (Dns.TypeCNAME = Dns.TypeCNAME \/ Dns.TypeCNAME = Dns.TypeMX) /\
  Resolver.lookup example_ParseIP example_To4 example_To16 alias_records Dns.TypeCNAME
                  "www.example" "www.example."
  = Some (Dns.mkRR (Dns.mkHdr "www.example." 5 1 300) (Dns.RD_CNAME "host.example.")) /\
  exists target,
    GoStrings.HasSuffixDot target = true /\
    (Dns.Data (Dns.mkRR (Dns.mkHdr "www.example." 5 1 300) (Dns.RD_CNAME "host.example."))
     = Dns.RD_CNAME target \/
     exists preference,
       Dns.Data (Dns.mkRR (Dns.mkHdr "www.example." 5 1 300) (Dns.RD_CNAME "host.example."))
       = Dns.RD_MX preference target).
Proof.
  assert (H1 : Dns.TypeCNAME = Dns.TypeCNAME \/ Dns.TypeCNAME = Dns.TypeMX) by (by left).
  assert (H2 : Resolver.lookup example_ParseIP example_To4 example_To16 alias_records
                 Dns.TypeCNAME "www.example" "www.example."
               = Some (Dns.mkRR (Dns.mkHdr "www.example." 5 1 300)
                                (Dns.RD_CNAME "host.example.")))
    by (vm_compute; reflexivity).
  split; [exact H1|]. split; [exact H2|].
  exact (alias_targets_end_with_dot example_ParseIP example_To4 example_To16 alias_records
           Dns.TypeCNAME "www.example" "www.example." _ H1 H2).
Defined.

(** ** The configuration loader *)

Section ConfigMore.
Import GoStrings Dns Config.

Lemma first_error_None {X} (check : X -> option record_error) (l : list X) :
  first_error check l = None <-> forall x, x ∈ l -> check x = None.
Proof.
  induction l as [|x l IH]; simpl.
  - split; [intros _ x H; inversion H|done].
  - destruct (check x) eqn:E.
    + split; [discriminate|]. intros H. specialize (H x (list_elem_of_here _ _)). congruence.
    + rewrite IH. split.
      * intros H y Hy. apply elem_of_cons in Hy as [->|Hy]; auto.
      * intros H y Hy. apply H. by apply list_elem_of_further.
Qed.

Lemma first_error_map_None {V} (check : string * V -> option record_error)
      (m : gmap string V) :
  first_error check (map_to_list m) = None <->
  forall k v, m !! k = Some v -> check (k, v) = None.
Proof.
  rewrite first_error_None. split.
  - intros H k v Hl. apply H. by apply elem_of_map_to_list.
  - intros H [k v] Hin. apply H. by apply elem_of_map_to_list.
Qed.

Lemma length_append_dot (s : string) : String.length (s +:+ ".") = S (String.length s).
Proof.
  induction s as [|c t IH]; [reflexivity|].
  change (String c t +:+ ".") with (String c (t +:+ ".")). simpl. by rewrite IH.
Qed.
End ConfigMore.

(** X19.  Whatever [Load] returns as a configuration can be run: the
    port is within 1..65535, the cache has room for an entry, there is an
    upstream server and at least one retry (a configured 0 is taken for
    an omitted option and becomes 3), and no address, level, format,
    timeout, TTL or interval is left at its zero value. *)
Theorem Load_result_is_complete
        (ParseIP : string -> option Dns.IP) (f : Config.config_file)
        (config : Config.Config) :
  Config.Load ParseIP f = inl config ->
  1 <= Config.Port (Config.Server config) <= 65535 /\
  1 <= Config.MaxEntries (Config.Cache config) /\
  Config.Servers (Config.Upstream config) <> [] /\
  1 <= Config.Retries (Config.Upstream config) /\
  Config.BindAddress (Config.Server config) <> "" /\
  Config.ReadTimeout (Config.Server config) <> 0 /\
  Config.WriteTimeout (Config.Server config) <> 0 /\
  Config.DefaultTTL (Config.Cache config) <> 0 /\
  Config.CleanupInterval (Config.Cache config) <> 0 /\
  Config.Timeout (Config.Upstream config) <> 0 /\
  Config.Level (Config.Logging config) <> "" /\
  Config.Format (Config.Logging config) <> "".
Proof.
  destruct f as [|cause|decoded]; simpl.
  - intros [= <-]. simpl. unfold Second, Millisecond.
    repeat split; try lia; discriminate.
  - discriminate.
  - unfold Config.validate.
    destruct (Z.ltb_spec (Config.Port (Config.Server decoded)) 1) as [|Hp1];
      [discriminate|].
    destruct (Z.gtb_spec (Config.Port (Config.Server decoded)) 65535) as [|Hp2];
      [discriminate|]. simpl.
    destruct (Z.ltb_spec (Config.MaxEntries (Config.Cache decoded)) 1) as [|Hm];
      [discriminate|].
    destruct (Config.Servers (Config.Upstream decoded)) as [|s srvs] eqn:Es;
      [discriminate|]. simpl.
    destruct (Z.ltb_spec (Config.Retries (Config.Upstream decoded)) 0) as [|Hr];
      [discriminate|].
    destruct (Config.validateRecords ParseIP decoded); [discriminate|].
    intros [= <-]. unfold Config.setDefaults. simpl. rewrite Es. simpl.
    unfold Second, Millisecond.
    repeat split;
      repeat match goal with
             | |- context [?x =? 0] => destruct (Z.eqb_spec x 0)
             | |- context [String.eqb ?x ""] => destruct (String.eqb_spec x "")
             end; try lia; try discriminate; try done.
Qed.

Lemma Load_result_is_complete_witness :
  Config.Load example_ParseIP (Config.WellFormed config_with_port)
  = inl (Config.mkConfig (Config.mkServer 5353 "0.0.0.0" (5 * Second) (5 * Second))
                         (Config.mkCacheConfig 500 (120 * Second) (30 * Second))
                         (Config.mkUpstream ["9.9.9.9:53"] (1 * Second) 3)
                         (Config.mkLogging "debug" "text")
                         Config.noRecords) /\
  1 <= 3.
Proof.
  assert (H : Config.Load example_ParseIP (Config.WellFormed config_with_port)
              = inl (Config.mkConfig (Config.mkServer 5353 "0.0.0.0" (5 * Second) (5 * Second))
                                     (Config.mkCacheConfig 500 (120 * Second) (30 * Second))
                                     (Config.mkUpstream ["9.9.9.9:53"] (1 * Second) 3)
                                     (Config.mkLogging "debug" "text")
                                     Config.noRecords))
    by (vm_compute; reflexivity).
  split; [exact H|].
  exact (proj1 (proj2 (proj2 (proj2 (Load_result_is_complete example_ParseIP _ _ H))))).
Defined.

(** X20.  Whether [validateRecords] accepts a configuration does not
    depend on the order in which the maps are ranged over: it accepts
    exactly when every A and AAAA entry has a valid domain and an address
    that parses, every CNAME entry a valid domain and target, and every
    MX entry a valid domain and target and a priority within 0..65535.
    The tables of the other types are not looked at. *)
Theorem validateRecords_accepts_iff
        (ParseIP : string -> option Dns.IP) (config : Config.Config) :
  Config.validateRecords ParseIP config = None <->
  (forall d ip, Config.A (Config.Records config) !! d = Some ip ->
     Config.isValidDomain d = true /\ is_Some (ParseIP ip)) /\
  (forall d ip, Config.AAAA (Config.Records config) !! d = Some ip ->
     Config.isValidDomain d = true /\ is_Some (ParseIP ip)) /\
  (forall d target, Config.CNAME (Config.Records config) !! d = Some target ->
     Config.isValidDomain d = true /\ Config.isValidDomain target = true) /\
  (forall d mx, Config.MX (Config.Records config) !! d = Some mx ->
     Config.isValidDomain d = true /\ Config.isValidDomain (Config.MX_Target mx) = true /\
     0 <= Config.MX_Priority mx <= 65535).
Proof.
  unfold Config.validateRecords.
  set (cA := fun '(domain, ip) =>
               if negb (Config.isValidDomain domain)
               then Some (Config.InvalidDomain "A" domain)
               else if ParseIP ip is None then Some (Config.InvalidIP "A" domain ip)
                    else None).
  set (cAAAA := fun '(domain, ip) =>
                  if negb (Config.isValidDomain domain)
                  then Some (Config.InvalidDomain "AAAA" domain)
                  else if ParseIP ip is None then Some (Config.InvalidIP "AAAA" domain ip)
                       else None).
  set (cCNAME := fun '(domain, target) =>
                   if negb (Config.isValidDomain domain)
                   then Some (Config.InvalidDomain "CNAME" domain)
                   else if negb (Config.isValidDomain target)
                        then Some (Config.InvalidTarget "CNAME" domain target)
                        else None).
  set (cMX := fun '(domain, mx) =>
                if negb (Config.isValidDomain domain)
                then Some (Config.InvalidDomain "MX" domain)
                else if negb (Config.isValidDomain (Config.MX_Target mx))
                     then Some (Config.InvalidTarget "MX" domain (Config.MX_Target mx))
                     else if ((Config.MX_Priority mx <? 0)
                              || (Config.MX_Priority mx >? 65535))%bool
                          then Some (Config.InvalidPriority domain (Config.MX_Priority mx))
                          else None).
  assert (HA : forall d ip, cA (d, ip) = None <->
                            Config.isValidDomain d = true /\ is_Some (ParseIP ip)).
  { intros d ip. simpl. destruct (Config.isValidDomain d), (ParseIP ip); simpl;
      (split; [intros H; first [discriminate | split; [reflexivity|eauto]]
              |intros [H1 [x H2]]; first [discriminate | reflexivity]]). }
  assert (HAAAA : forall d ip, cAAAA (d, ip) = None <->
                               Config.isValidDomain d = true /\ is_Some (ParseIP ip)).
  { intros d ip. simpl. destruct (Config.isValidDomain d), (ParseIP ip); simpl;
      (split; [intros H; first [discriminate | split; [reflexivity|eauto]]
              |intros [H1 [x H2]]; first [discriminate | reflexivity]]). }
  assert (HC : forall d t, cCNAME (d, t) = None <->
                           Config.isValidDomain d = true /\ Config.isValidDomain t = true).
  { intros d t. simpl.
    destruct (Config.isValidDomain d), (Config.isValidDomain t); simpl;
      split; try discriminate; try done; intros [? ?]; discriminate. }
  assert (HM : forall d mx, cMX (d, mx) = None <->
                            Config.isValidDomain d = true /\
                            Config.isValidDomain (Config.MX_Target mx) = true /\
                            0 <= Config.MX_Priority mx <= 65535).
  { intros d mx. simpl.
    destruct (Config.isValidDomain d), (Config.isValidDomain (Config.MX_Target mx)); simpl;
      try (split; [discriminate|intros (? & ? & ?); discriminate]).
    destruct (Z.ltb_spec (Config.MX_Priority mx) 0),
             (Z.gtb_spec (Config.MX_Priority mx) 65535); simpl;
      split; try discriminate; try (intros (_ & _ & ?); lia); intros _; repeat split; lia. }
  pose proof (first_error_map_None cA (Config.A (Config.Records config))) as FA.
  pose proof (first_error_map_None cAAAA (Config.AAAA (Config.Records config))) as FAAAA.
  pose proof (first_error_map_None cCNAME (Config.CNAME (Config.Records config))) as FC.
  pose proof (first_error_map_None cMX (Config.MX (Config.Records config))) as FM.
  split.
  - intros H.
    destruct (Config.first_error cA _) eqn:EA; [discriminate|].
    destruct (Config.first_error cAAAA _) eqn:EAAAA; [discriminate|].
    destruct (Config.first_error cCNAME _) eqn:EC; [discriminate|].
    split; [|split; [|split]].
    + intros d ip Hl. apply HA. by apply (proj1 FA).
    + intros d ip Hl. apply HAAAA. by apply (proj1 FAAAA).
    + intros d t Hl. apply HC. by apply (proj1 FC).
    + intros d mx Hl. apply HM. by apply (proj1 FM).
  - intros (H1 & H2 & H3 & H4).
    rewrite (proj2 FA) by (intros d ip Hl; apply HA; auto).
    rewrite (proj2 FAAAA) by (intros d ip Hl; apply HAAAA; auto).
    rewrite (proj2 FC) by (intros d t Hl; apply HC; auto).
    apply FM. intros d mx Hl. apply HM. auto.
Qed.

(** X21.  [isValidDomain] does not care about one trailing dot: a name
    of at most 252 bytes that does not end with a dot is valid exactly
    when the name followed by a dot is. *)
Theorem isValidDomain_trailing_dot (domain : string) :
  GoStrings.HasSuffixDot domain = false ->
  (String.length domain <= 252)%nat ->
  Config.isValidDomain (domain +:+ ".") = Config.isValidDomain domain.
Proof.
  intros Hs Hlen. unfold Config.isValidDomain.
  rewrite length_append_dot, Hs, HasSuffixDot_app_dot.
  destruct domain as [|c t]; [reflexivity|].
  simpl String.length in *.
  replace (Nat.ltb 253 (S (S (String.length t)))) with false
    by (symmetry; apply Nat.ltb_ge; lia).
  replace (Nat.ltb 253 (S (String.length t))) with false
    by (symmetry; apply Nat.ltb_ge; lia).
  reflexivity.
Qed.

Lemma isValidDomain_trailing_dot_witness :
  GoStrings.HasSuffixDot "mail.example.com" = false /\
  (String.length "mail.example.com" <= 252)%nat /\
  Config.isValidDomain ("mail.example.com" +:+ ".") = Config.isValidDomain "mail.example.com".
Proof.
  assert (H1 : GoStrings.HasSuffixDot "mail.example.com" = false) by reflexivity.
  assert (H2 : (String.length "mail.example.com" <= 252)%nat) by (simpl; lia).
  split; [exact H1|]. split; [exact H2|].
  exact (isValidDomain_trailing_dot "mail.example.com" H1 H2).
Defined.

(** ** Waiting for the listener *)

Section ServerFacts.
Import Server.

Lemma dial_loop_fails (dial : nat -> bool) (n i : nat) (slept : Z) :
  (i + n = maxAttempts)%nat ->
  (fst (dial_loop dial n i slept) = false <->
   n <> O /\ forall j, (i <= j < maxAttempts)%nat -> dial j = false) /\
  (fst (dial_loop dial n i slept) = false ->
   snd (dial_loop dial n i slept) = slept + (9 - Z.of_nat i) * (100 * Millisecond)) /\
  (n <> O ->
   slept <= snd (dial_loop dial n i slept)
         <= slept + (9 - Z.of_nat i) * (100 * Millisecond)).
Proof.
  unfold maxAttempts, Millisecond.
  revert i slept. induction n as [|n IH]; intros i slept Hn.
  - simpl. split; [|split]; try done. split; [discriminate|]. by intros [? _].
  - cbn [dial_loop]. unfold maxAttempts, Millisecond.
    change (10 - 1)%nat with 9%nat. destruct (dial i) eqn:Ed; cbn [fst snd].
    + split; [|split]; try discriminate; [|intros _; lia].
      split; [discriminate|]. intros [_ H]. rewrite H in Ed by lia. discriminate.
    + destruct (Nat.eqb_spec i 9) as [->|Hi]; cbn [fst snd].
      * split; [|split]; try (intros _; lia).
        split; [|done]. intros _. split; [done|]. intros j Hj.
        by replace j with 9%nat by lia.
      * destruct (IH (S i) (slept + 100 * 1000000) ltac:(lia)) as (I1 & I2 & I3).
        split; [|split].
        -- rewrite I1. split.
           ++ intros [_ H]. split; [done|]. intros j Hj.
              destruct (decide (j = i)) as [->|]; [done|]. apply H. lia.
           ++ intros [_ H]. split; [lia|]. intros j Hj. apply H. lia.
        -- intros H. rewrite (I2 H). lia.
        -- intros _. specialize (I3 ltac:(lia)). lia.
Qed.

Lemma dial_loop_succeeds (dial : nat -> bool) (k n i : nat) (slept : Z) :
  (i + n = maxAttempts)%nat -> (k < n)%nat ->
  dial (i + k)%nat = true ->
  (forall j, (j < k)%nat -> dial (i + j)%nat = false) ->
  dial_loop dial n i slept = (true, slept + Z.of_nat k * (100 * Millisecond)).
Proof.
  unfold maxAttempts, Millisecond.
  revert n i slept. induction k as [|k IH]; intros n i slept Hn Hk Hd Hf.
  - destruct n as [|n]; [lia|]. cbn [dial_loop]. rewrite Nat.add_0_r in Hd. rewrite Hd.
    f_equal. lia.
  - destruct n as [|n]; [lia|]. cbn [dial_loop]. unfold maxAttempts, Millisecond.
    change (10 - 1)%nat with 9%nat.
    pose proof (Hf O ltac:(lia)) as H0. rewrite Nat.add_0_r in H0. rewrite H0.
    destruct (Nat.eqb_spec i 9) as [->|Hi]; [lia|].
    rewrite (IH n (S i) (slept + 100 * 1000000)); try lia.
    + f_equal. lia.
    + by replace (S i + k)%nat with (i + S k)%nat by lia.
    + intros j Hj. replace (S i + j)%nat with (i + S j)%nat by lia. apply Hf. lia.
Qed.

(** X22.  [waitForServer] gives up exactly when all ten dials fail, and
    has then slept nine times 100 ms, not ten: there is no sleep after the
    last attempt.  Whatever the dials do, it never sleeps longer. *)
Theorem waitForServer_fails_iff_ten_dials_fail (dial : nat -> bool) :
  (fst (waitForServer dial) = false <->
   forall i, (i < 10)%nat -> dial i = false) /\
  (fst (waitForServer dial) = false ->
   snd (waitForServer dial) = 900 * Millisecond) /\
  0 <= snd (waitForServer dial) <= 900 * Millisecond.
Proof.
  unfold waitForServer.
  destruct (dial_loop_fails dial maxAttempts 0 0 eq_refl) as (H1 & H2 & H3).
  split; [|split].
  - rewrite H1. unfold maxAttempts. split.
    + intros [_ H] i Hi. apply H. lia.
    + intros H. split; [done|]. intros j Hj. apply H. lia.
  - intros H. rewrite (H2 H). unfold Millisecond. lia.
  - specialize (H3 ltac:(done)). unfold Millisecond in *. lia.
Qed.

(** X23.  When the [k]-th dial (counted from 0, [k < 10]) is the first
    that succeeds, [waitForServer] returns [nil] after having slept
    [k] times 100 ms; the later dials are not made. *)
Theorem waitForServer_first_success (dial : nat -> bool) (k : nat) :
  (k < 10)%nat -> dial k = true ->
  forallb (fun j => negb (dial j)) (seq 0 k) = true ->
  waitForServer dial = (true, Z.of_nat k * (100 * Millisecond)).
Proof.
  intros Hk Hd Hf. unfold waitForServer.
  rewrite (dial_loop_succeeds dial k maxAttempts 0 0 eq_refl Hk Hd); [done|].
  intros j Hj. rewrite forallb_forall in Hf.
  apply negb_true_iff, Hf, in_seq. lia.
Qed.

Lemma waitForServer_first_success_witness :
  (3 < 10)%nat /\ Nat.eqb 3 3 = true /\
  forallb (fun j => negb (Nat.eqb 3 j)) (seq 0 3) = true /\
  waitForServer (Nat.eqb 3) = (true, 3 * (100 * Millisecond)).
Proof.
  assert (H1 : (3 < 10)%nat) by lia.
  assert (H2 : Nat.eqb 3 3 = true) by reflexivity.
  assert (H3 : forallb (fun j => negb (Nat.eqb 3 j)) (seq 0 3) = true) by reflexivity.
  split; [exact H1|]. split; [exact H2|]. split; [exact H3|].
  exact (waitForServer_first_success (Nat.eqb 3) 3 H1 H2 H3).
Defined.

End ServerFacts.

(** ** Local answers and the cache *)

(** X24.  A question the cache misses and a local record matches exactly
    is answered with that record under the id of the query, and the
    answer is written back to the cache for exactly 300 seconds: the
    fixed TTL of local records lies between the two bounds of
    [extractTTL].  The upstream resolver is not consulted. *)
Theorem ServeDNS_local_answer_cached_five_minutes
        (ParseIP : string -> option Dns.IP) (To4 To16 : Dns.IP -> option Dns.IP)
        (TypeToString ClassToString : Z -> string)
        (records : Config.RecordsConfig) (depth : nat)
        (upstream_error : Type) (resolver : Dns.Question -> Dns.Msg + upstream_error)
        (c : Cache.LRUCache) (h : Cache.heap) (r : Dns.Msg)
        (q : Dns.Question) (rest : list Dns.Question) (rr : Dns.RR)
        (now_get now_set : Z) :
  cache_wf c h ->
  Dns.Question_ r = q :: rest ->
  Dns.Qtype q ∈ supported_types ->
  (Cache.Get c h (Cache.GenerateCacheKey TypeToString ClassToString q) now_get).1.1 = None ->
  Resolver.lookup ParseIP To4 To16 records (Dns.Qtype q)
                  (GoStrings.ToLower (GoStrings.TrimSuffixDot (Dns.QName q)))
                  (Dns.QName q) = Some rr ->
  let reply := Dns.mkMsg (Dns.Id r) true 0 true false false false Dns.RcodeSuccess
                         [q] [rr] [] [] in
  exists c' h',
    Handler.ServeDNS ParseIP To4 To16 TypeToString ClassToString records (S depth)
                     upstream_error resolver c h r now_get now_set
    = Handler.Served reply c' h' /\
    cached c' h' (Cache.GenerateCacheKey TypeToString ClassToString q)
    = Some (reply, now_set + 300 * Second) /\
    cache_wf c' h'.
Proof.
  intros Hwf Eq Hs Hmiss Hl reply. unfold Handler.ServeDNS. rewrite Eq.
  apply isSupportedType_spec in Hs. rewrite Hs. simpl negb. cbv iota.
  pose proof (Get_wf c h (Cache.GenerateCacheKey TypeToString ClassToString q) now_get Hwf)
    as Hwf1.
  destruct (Get_miss_adds_nothing c h _ now_get Hmiss) as (Hh & _).
  destruct (Cache.Get c h (Cache.GenerateCacheKey TypeToString ClassToString q) now_get)
    as [[o c1] h1].
  simpl in Hmiss, Hh, Hwf1. subst o h1.
  rewrite (Resolve_hit ParseIP To4 To16 records depth q rr Hl).
  set (local := Dns.mkMsg 0 true 0 true false false false 0 [q] [rr] [] []).
  destruct (cache_and_write_full c1 h
              (Cache.GenerateCacheKey TypeToString ClassToString q) r local now_set Hwf1)
    as (c' & h' & E1 & E2 & E3).
  assert (Ht : TTL.extractTTL local = 300 * Second).
  { unfold TTL.extractTTL, local. simpl.
    rewrite (lookup_header ParseIP To4 To16 records _ _ _ rr Hl). reflexivity. }
  exists c', h'. rewrite Ht in E2. split; [|split]; [exact E1|exact E2|exact E3].
Qed.

Lemma ServeDNS_local_answer_cached_five_minutes_witness :
  cache_wf two_entries.1 two_entries.2 /\
  Dns.Question_ (query 79 "WWW.Example." Dns.TypeCNAME)
  = [Dns.mkQuestion "WWW.Example." Dns.TypeCNAME Dns.ClassINET] /\
  Dns.TypeCNAME ∈ supported_types /\
  (Cache.Get two_entries.1 two_entries.2
             (Cache.GenerateCacheKey example_TypeToString example_ClassToString
                                     (Dns.mkQuestion "WWW.Example." Dns.TypeCNAME Dns.ClassINET))
             (30 * Second)).1.1 = None /\
  Resolver.lookup example_ParseIP example_To4 example_To16 alias_records Dns.TypeCNAME
                  (GoStrings.ToLower (GoStrings.TrimSuffixDot "WWW.Example."))
                  "WWW.Example."
  = Some (Dns.mkRR (Dns.mkHdr "WWW.Example." 5 1 300) (Dns.RD_CNAME "host.example.")) /\
  exists c' h',
    Handler.ServeDNS example_ParseIP example_To4 example_To16
                     example_TypeToString example_ClassToString alias_records 1
                     Upstream.error failing_upstream
                     two_entries.1 two_entries.2 (query 79 "WWW.Example." Dns.TypeCNAME)
                     (30 * Second) (31 * Second)
    = Handler.Served
        (Dns.mkMsg 79 true 0 true false false false Dns.RcodeSuccess
                   [Dns.mkQuestion "WWW.Example." Dns.TypeCNAME Dns.ClassINET]
                   [Dns.mkRR (Dns.mkHdr "WWW.Example." 5 1 300)
                             (Dns.RD_CNAME "host.example.")] [] []) c' h' /\
    cached c' h' (Cache.GenerateCacheKey example_TypeToString example_ClassToString
                    (Dns.mkQuestion "WWW.Example." Dns.TypeCNAME Dns.ClassINET))
    = Some (Dns.mkMsg 79 true 0 true false false false Dns.RcodeSuccess
                      [Dns.mkQuestion "WWW.Example." Dns.TypeCNAME Dns.ClassINET]
                      [Dns.mkRR (Dns.mkHdr "WWW.Example." 5 1 300)
                                (Dns.RD_CNAME "host.example.")] [] [],
            31 * Second + 300 * Second) /\
    cache_wf c' h'.
Proof.
  assert (H1 : Dns.Question_ (query 79 "WWW.Example." Dns.TypeCNAME)
               = [Dns.mkQuestion "WWW.Example." Dns.TypeCNAME Dns.ClassINET])
    by reflexivity.
  assert (H2 : Dns.TypeCNAME ∈ supported_types)
    by (apply isSupportedType_spec; reflexivity).
  assert (H3 : (Cache.Get two_entries.1 two_entries.2
                  (Cache.GenerateCacheKey example_TypeToString example_ClassToString
                     (Dns.mkQuestion "WWW.Example." Dns.TypeCNAME Dns.ClassINET))
                  (30 * Second)).1.1 = None) by (vm_compute; reflexivity).
  assert (H4 : Resolver.lookup example_ParseIP example_To4 example_To16 alias_records
                 Dns.TypeCNAME (GoStrings.ToLower (GoStrings.TrimSuffixDot "WWW.Example."))
                 "WWW.Example."
               = Some (Dns.mkRR (Dns.mkHdr "WWW.Example." 5 1 300)
                                (Dns.RD_CNAME "host.example.")))
    by (vm_compute; reflexivity).
  split; [exact two_entries_wf|]. split; [exact H1|]. split; [exact H2|].
  split; [exact H3|]. split; [exact H4|].
  exact (ServeDNS_local_answer_cached_five_minutes
           example_ParseIP example_To4 example_To16
           example_TypeToString example_ClassToString alias_records 0
           Upstream.error failing_upstream
           two_entries.1 two_entries.2 (query 79 "WWW.Example." Dns.TypeCNAME)
           (Dns.mkQuestion "WWW.Example." Dns.TypeCNAME Dns.ClassINET) [] _
           (30 * Second) (31 * Second)
           two_entries_wf H1 H2 H3 H4).
Defined.
